(** * Fireworks: the particle and firework simulation of [src/main.cpp]

    The simulation core of the program (the structs [Particle],
    [TrailParticle], [ExplosionParticle] and [Firework], [initFireworks] and
    the world [update]) is embedded as functions over records.  The C++
    [float] is IEEE binary32, modelled with the standard library's
    [spec_float] at precision 24; [rand()] is the C library's generator,
    threaded as explicit state. *)

From Stdlib Require Import Reals Lra Machin.
From Stdlib Require Import ZArith List Bool Lia.
From Stdlib Require Import Floats.SpecFloat.
Import ListNotations.
Local Open Scope Z_scope.

(** ** IEEE arithmetic *)

(** C++ [float]: binary32, round to nearest even. *)
Module F32.
Definition prec : Z := 24.
Definition emax : Z := 128.

Definition add : spec_float -> spec_float -> spec_float := SFadd prec emax.
Definition sub : spec_float -> spec_float -> spec_float := SFsub prec emax.
Definition mul : spec_float -> spec_float -> spec_float := SFmul prec emax.
Definition div : spec_float -> spec_float -> spec_float := SFdiv prec emax.
Definition ltb : spec_float -> spec_float -> bool := SFltb.
Definition leb : spec_float -> spec_float -> bool := SFleb.

(** Conversion [(float) n] of an [int]. *)
Definition of_Z (n : Z) : spec_float := binary_normalize prec emax n 0 false.

(** The literal [n/d] written in decimal ([0.1f] is [lit 1 10]): the
    correctly rounded quotient of two exactly representable integers. *)
Definition lit (n d : Z) : spec_float := div (of_Z n) (of_Z d).

(** Well-formed data of the format: mantissa and exponent in canonical form. *)
Definition valid (x : spec_float) : bool := valid_binary 24 128 x.
End F32.

(** C++ [double]: binary64; the source only computes the angle step in it. *)
Module F64.
Definition prec : Z := 53.
Definition emax : Z := 1024.

Definition mul : spec_float -> spec_float -> spec_float := SFmul prec emax.
Definition div : spec_float -> spec_float -> spec_float := SFdiv prec emax.
Definition of_Z (n : Z) : spec_float := binary_normalize prec emax n 0 false.

(** Widening [float] to [double] is exact. *)
Definition of_f32 (x : spec_float) : spec_float := x.

(** Narrowing [double] to [float] rounds to nearest even. *)
Definition to_f32 (x : spec_float) : spec_float :=
  match x with
  | S754_finite s m e => binary_round F32.prec F32.emax s m e
  | _ => x
  end.

(** [M_PI] of <math.h>: 3.14159265358979323846, bits 0x400921FB54442D18. *)
Definition M_PI : spec_float := S754_finite false 7074237752028440 (-51).
End F64.

Definition float : Type := spec_float.

Declare Scope f32_scope.
Delimit Scope f32_scope with f32.
Bind Scope f32_scope with float.
Infix "+" := F32.add : f32_scope.
Infix "-" := F32.sub : f32_scope.
Infix "*" := F32.mul : f32_scope.
Infix "/" := F32.div : f32_scope.
Infix "<?" := F32.ltb : f32_scope.
Infix "<=?" := F32.leb : f32_scope.
Notation "x >? y" := (F32.ltb y x) (only parsing) : f32_scope.

Definition f0 : float := S754_zero false.
Definition f1 : float := F32.of_Z 1.

(** The arithmetic is kept folded in symbolic proofs. *)
Arguments F32.add : simpl never.
Arguments F32.sub : simpl never.
Arguments F32.mul : simpl never.
Arguments F32.div : simpl never.
Arguments F32.ltb : simpl never.
Arguments F32.leb : simpl never.
Arguments F32.of_Z : simpl never.
Arguments F32.lit : simpl never.
Arguments f1 : simpl never.

(** ** glm vectors *)

Record vec3 : Type := mkVec3 { x3 : float; y3 : float; z3 : float }.
Record vec4 : Type := mkVec4 { x4 : float; y4 : float; z4 : float; w4 : float }.

(** [a + b] *)
Definition vadd (a b : vec3) : vec3 :=
  mkVec3 (x3 a + x3 b)%f32 (y3 a + y3 b)%f32 (z3 a + z3 b)%f32.

(** [v + s]: glm adds the scalar to every component. *)
Definition vadd_scalar (v : vec3) (s : float) : vec3 :=
  mkVec3 (x3 v + s)%f32 (y3 v + s)%f32 (z3 v + s)%f32.

(** [v * s] *)
Definition vmul_scalar (v : vec3) (s : float) : vec3 :=
  mkVec3 (x3 v * s)%f32 (y3 v * s)%f32 (z3 v * s)%f32.

(** [s * v] *)
Definition scalar_vmul (s : float) (v : vec3) : vec3 :=
  mkVec3 (s * x3 v)%f32 (s * y3 v)%f32 (s * z3 v)%f32.

(** [c.w = a] *)
Definition set_w (c : vec4) (a : float) : vec4 :=
  mkVec4 (x4 c) (y4 c) (z4 c) a.

Declare Scope vec_scope.
Delimit Scope vec_scope with vec.
Infix "+v" := vadd (at level 50, left associativity) : vec_scope.
Infix "+s" := vadd_scalar (at level 50, left associativity) : vec_scope.
Infix "*s" := vmul_scalar (at level 40, left associativity) : vec_scope.
Infix "s*" := scalar_vmul (at level 40, left associativity) : vec_scope.
Local Open Scope vec_scope.

(** ** The structs *)

(** [struct TrailParticle : Particle].  The base class also declares a
    [lifeDecreaseRate] that nothing initialises or reads; the field below
    is the derived one. *)
Record TrailParticle : Type := mkTrailParticle {
  tp_pos : vec3;
  tp_vel : vec3;
  tp_color : vec4;
  tp_life : float;
  tp_scale : float;
  tp_lifeDecreaseRate : float
}.

(** [struct ExplosionParticle : Particle] *)
Record ExplosionParticle : Type := mkExplosionParticle {
  ep_pos : vec3;
  ep_vel : vec3;
  ep_color : vec4;
  ep_life : float;
  ep_scale : float;
  ep_origVel : vec3;
  ep_trailParticles : list TrailParticle
}.

(** [struct Firework] *)
Record Firework : Type := mkFirework {
  fw_pos : vec3;
  fw_vel : vec3;
  fw_color : vec4;
  fw_scale : float;
  fw_exploded : bool;
  fw_numParticles : Z;
  fw_trailParticles : list TrailParticle;
  fw_explosionParticles : list ExplosionParticle
}.

(** Field assignments. *)
Definition tp_set_pos (p : TrailParticle) (v : vec3) : TrailParticle :=
  mkTrailParticle v (tp_vel p) (tp_color p) (tp_life p) (tp_scale p)
    (tp_lifeDecreaseRate p).
Definition tp_set_vel (p : TrailParticle) (v : vec3) : TrailParticle :=
  mkTrailParticle (tp_pos p) v (tp_color p) (tp_life p) (tp_scale p)
    (tp_lifeDecreaseRate p).
Definition tp_set_alpha (p : TrailParticle) (a : float) : TrailParticle :=
  mkTrailParticle (tp_pos p) (tp_vel p) (set_w (tp_color p) a) (tp_life p)
    (tp_scale p) (tp_lifeDecreaseRate p).
Definition tp_set_life (p : TrailParticle) (l : float) : TrailParticle :=
  mkTrailParticle (tp_pos p) (tp_vel p) (tp_color p) l (tp_scale p)
    (tp_lifeDecreaseRate p).

Definition ep_set_pos (p : ExplosionParticle) (v : vec3) : ExplosionParticle :=
  mkExplosionParticle v (ep_vel p) (ep_color p) (ep_life p) (ep_scale p)
    (ep_origVel p) (ep_trailParticles p).
Definition ep_set_vel (p : ExplosionParticle) (v : vec3) : ExplosionParticle :=
  mkExplosionParticle (ep_pos p) v (ep_color p) (ep_life p) (ep_scale p)
    (ep_origVel p) (ep_trailParticles p).
Definition ep_set_alpha (p : ExplosionParticle) (a : float) : ExplosionParticle :=
  mkExplosionParticle (ep_pos p) (ep_vel p) (set_w (ep_color p) a) (ep_life p)
    (ep_scale p) (ep_origVel p) (ep_trailParticles p).
Definition ep_set_life (p : ExplosionParticle) (l : float) : ExplosionParticle :=
  mkExplosionParticle (ep_pos p) (ep_vel p) (ep_color p) l (ep_scale p)
    (ep_origVel p) (ep_trailParticles p).
Definition ep_set_trailParticles (p : ExplosionParticle)
    (ts : list TrailParticle) : ExplosionParticle :=
  mkExplosionParticle (ep_pos p) (ep_vel p) (ep_color p) (ep_life p)
    (ep_scale p) (ep_origVel p) ts.

Definition fw_set_pos (f : Firework) (v : vec3) : Firework :=
  mkFirework v (fw_vel f) (fw_color f) (fw_scale f) (fw_exploded f)
    (fw_numParticles f) (fw_trailParticles f) (fw_explosionParticles f).
Definition fw_set_vel (f : Firework) (v : vec3) : Firework :=
  mkFirework (fw_pos f) v (fw_color f) (fw_scale f) (fw_exploded f)
    (fw_numParticles f) (fw_trailParticles f) (fw_explosionParticles f).
Definition fw_set_color (f : Firework) (c : vec4) : Firework :=
  mkFirework (fw_pos f) (fw_vel f) c (fw_scale f) (fw_exploded f)
    (fw_numParticles f) (fw_trailParticles f) (fw_explosionParticles f).
Definition fw_set_scale (f : Firework) (s : float) : Firework :=
  mkFirework (fw_pos f) (fw_vel f) (fw_color f) s (fw_exploded f)
    (fw_numParticles f) (fw_trailParticles f) (fw_explosionParticles f).
Definition fw_set_exploded (f : Firework) (b : bool) : Firework :=
  mkFirework (fw_pos f) (fw_vel f) (fw_color f) (fw_scale f) b
    (fw_numParticles f) (fw_trailParticles f) (fw_explosionParticles f).
Definition fw_set_numParticles (f : Firework) (n : Z) : Firework :=
  mkFirework (fw_pos f) (fw_vel f) (fw_color f) (fw_scale f) (fw_exploded f)
    n (fw_trailParticles f) (fw_explosionParticles f).
Definition fw_set_trailParticles (f : Firework)
    (ts : list TrailParticle) : Firework :=
  mkFirework (fw_pos f) (fw_vel f) (fw_color f) (fw_scale f) (fw_exploded f)
    (fw_numParticles f) ts (fw_explosionParticles f).
Definition fw_set_explosionParticles (f : Firework)
    (es : list ExplosionParticle) : Firework :=
  mkFirework (fw_pos f) (fw_vel f) (fw_color f) (fw_scale f) (fw_exploded f)
    (fw_numParticles f) (fw_trailParticles f) es.

(** ** Configuration and platform *)

(** The simulation constants of the source (lines 19-50), gathered so that
    the functions can be read at other values too.  The rendering-only
    constants are left out. *)
Record Config : Type := mkConfig {
  WORLD_WIDTH : Z;
  NUM_OUTER_CIRCLE_VERTICES : Z;
  GRAVITY : vec3;
  NUM_FIREWORKS : Z;
  MIN_PARTICLES : Z;
  MAX_PARTICLES : Z;
  NUM_TRAIL_PARTICLES : Z;
  MIN_SCALE : float;
  SCALE_RANGE : Z;
  MAX_INIT_X_VEL : Z;
  MIN_INIT_X_VEL : Z;
  MAX_INIT_Y_VEL : Z;
  MIN_INIT_Y_VEL : Z;
  MIN_MAGNITUDE : Z;
  MAX_MAGNITUDE : Z;
  EXPLOSION_LIFE_DECREASE_RATE : float;
  TRAIL_MIN_DECREASE_RATE : float;
  TRAIL_MAX_DECREASE_RATE : float
}.

(** The values written in the source. *)
Definition source_config : Config := {|
  WORLD_WIDTH := 800;
  NUM_OUTER_CIRCLE_VERTICES := 50;
  GRAVITY := mkVec3 f0 (F32.of_Z (-200)) f0;
  NUM_FIREWORKS := 10;
  MIN_PARTICLES := 30;
  MAX_PARTICLES := 50;
  NUM_TRAIL_PARTICLES := 15;
  MIN_SCALE := F32.of_Z 1;
  SCALE_RANGE := 2;
  MAX_INIT_X_VEL := 20;
  MIN_INIT_X_VEL := -20;
  MAX_INIT_Y_VEL := 500;
  MIN_INIT_Y_VEL := 300;
  MIN_MAGNITUDE := 20;
  MAX_MAGNITUDE := 200;
  EXPLOSION_LIFE_DECREASE_RATE := F32.lit 1 2;
  TRAIL_MIN_DECREASE_RATE := F32.of_Z 3;
  TRAIL_MAX_DECREASE_RATE := F32.of_Z 6
|}.

(** What the program takes from the C library: the generator behind
    [rand()] with its hidden state and [RAND_MAX], and the single-precision
    cosine and sine that [glm::cos] and [glm::sin] call. *)
Class Libc : Type := mkLibc {
  RAND_MAX : Z;
  RandState : Type;
  rand : RandState -> Z * RandState;
  cosf : float -> float;
  sinf : float -> float
}.

(** [rand()] returns a value between 0 and [RAND_MAX]. *)
Definition rand_in_range {libc : Libc} : Prop :=
  forall s : RandState, 0 <= fst (rand s) <= RAND_MAX.

(** A generator that replays a fixed cycle of draws, with the common
    [RAND_MAX] of 2^31-1, and with cosine and sine replaced by their values
    at zero. *)
Definition replay_rand (cycle : list Z) (s : nat) : Z * nat :=
  (nth (s mod length cycle)%nat cycle 0, S s).

Definition replay_libc (cycle : list Z) : Libc := {|
  RAND_MAX := 2147483647;
  RandState := nat;
  rand := replay_rand cycle;
  cosf := fun _ => f1;
  sinf := fun _ => f0
|}.

(** ** The simulation *)

(** Code that calls [rand()] threads the generator's state. *)
Definition M {libc : Libc} (A : Type) : Type := RandState -> A * RandState.

Definition ret {libc : Libc} {A : Type} (a : A) : M A := fun s => (a, s).

Definition bind {libc : Libc} {A B : Type} (m : M A) (k : A -> M B) : M B :=
  fun s => let (a, s') := m s in k a s'.

Notation "x <- m ;; k" := (bind m (fun x => k))
  (at level 61, m at next level, right associativity).

Section Simulation.
Context {libc : Libc}.
Variable cfg : Config.

(** [for (int i = 0; i < n; ++i) body], for a body that does not read [i]. *)
Fixpoint for_count {A : Type} (n : nat) (body : A -> M A) (a : A) : M A :=
  match n with
  | O => ret a
  | S k => a' <- body a ;; for_count k body a'
  end.

(** [for (auto &p : v) body]: the elements are updated in place, in order. *)
Fixpoint for_each {A : Type} (body : A -> M A) (v : list A) : M (list A) :=
  match v with
  | [] => ret []
  | p :: rest => p' <- body p ;; rest' <- for_each body rest ;; ret (p' :: rest')
  end.

(** [(float) rand() / RAND_MAX * range + base], on the drawn value [r]. *)
Definition rand_scaled (r : Z) (range base : float) : float :=
  (F32.of_Z r / F32.of_Z RAND_MAX * range + base)%f32.

(** [((rand() % 100) - 50) / 10.0f], on the drawn value [r]. *)
Definition jitter (r : Z) : float :=
  (F32.of_Z (Z.rem r 100 - 50) / F32.of_Z 10)%f32.

(** *** TrailParticle *)

(** The constructor; [life] takes the default member initialiser 1.0. *)
Definition TrailParticle_new (pos vel : vec3) (color : vec4)
    (scale lifeDecreaseRate : float) : TrailParticle :=
  mkTrailParticle pos vel color f1 scale lifeDecreaseRate.

(** [TrailParticle::update] *)
Definition TrailParticle_update (dt : float) (sourceVel : vec3)
    (sourceLife : float) (p : TrailParticle) : TrailParticle :=
  let p := tp_set_vel p sourceVel in
  let p := tp_set_pos p (tp_pos p +v tp_life p s* tp_vel p *s dt) in
  let p := if (tp_life p >? sourceLife)%f32 then tp_set_life p sourceLife else p in
  let p := tp_set_alpha p (tp_life p) in
  tp_set_life p (tp_life p - tp_lifeDecreaseRate p * dt)%f32.

(** *** ExplosionParticle *)

(** The constructor: it draws one decay rate per owned trail particle. *)
Definition ExplosionParticle_new (pos vel : vec3) (color : vec4)
    (scale : float) : M ExplosionParticle :=
  trailParticles <-
    for_count (Z.to_nat (NUM_TRAIL_PARTICLES cfg))
      (fun trailParticles =>
         r <- rand ;;
         let lifeDecrease :=
           rand_scaled r
             (TRAIL_MAX_DECREASE_RATE cfg - TRAIL_MIN_DECREASE_RATE cfg)%f32
             (TRAIL_MIN_DECREASE_RATE cfg) in
         let particleVel := vel *s F32.lit 1 10 in
         ret (trailParticles ++
              [TrailParticle_new pos particleVel color (F32.of_Z 1) lifeDecrease]))
      [] ;;
  ret (mkExplosionParticle pos vel color f1 scale vel trailParticles).

(** [ExplosionParticle::respawnTrailParticle] *)
Definition respawnTrailParticle (e : ExplosionParticle)
    (p : TrailParticle) : M TrailParticle :=
  r <- rand ;;
  let random := jitter r in
  let p := tp_set_life p f1 in
  let p := tp_set_pos p (ep_pos e +s random) in
  ret (tp_set_vel p (ep_vel e *s F32.lit 1 10)).

(** [ExplosionParticle::update] *)
Definition ExplosionParticle_update (dt : float)
    (e : ExplosionParticle) : M ExplosionParticle :=
  trailParticles <-
    for_each
      (fun p =>
         let p := TrailParticle_update dt (ep_vel e) (ep_life e) p in
         if (tp_life p <=? f0)%f32 then respawnTrailParticle e p else ret p)
      (ep_trailParticles e) ;;
  let e := ep_set_trailParticles e trailParticles in
  let e := ep_set_vel e (ep_life e s* ep_origVel e *s dt) in
  let e := ep_set_pos e (ep_pos e +v ep_vel e) in
  let e := ep_set_alpha e (ep_life e) in
  ret (ep_set_life e (ep_life e - EXPLOSION_LIFE_DECREASE_RATE cfg * dt)%f32).

(** *** Firework *)

(** [Firework::respawnParticle] *)
Definition respawnParticle (f : Firework) (p : TrailParticle) : M TrailParticle :=
  r <- rand ;;
  let random := jitter r in
  let p := tp_set_life p f1 in
  let p := tp_set_pos p (fw_pos f +s random) in
  r <- rand ;;
  ret (tp_set_vel p (fw_vel f *s rand_scaled r (F32.lit 1 4) (F32.lit 3 4))).

(** [Firework::randomiseColor] *)
Definition randomiseColor (f : Firework) : M Firework :=
  r <- rand ;;
  let r := rand_scaled r (F32.lit 3 4) (F32.lit 1 4) in
  g <- rand ;;
  let g := rand_scaled g (F32.lit 3 4) (F32.lit 1 4) in
  b <- rand ;;
  let b := rand_scaled b (F32.lit 3 4) (F32.lit 1 4) in
  ret (fw_set_color f (mkVec4 r g b f1)).

Definition ep_clear_trailParticles (p : ExplosionParticle) : ExplosionParticle :=
  ep_set_trailParticles p [].

(** [Firework::reset].  The two draws inside [glm::vec3(..., ..., 0.f)] are
    taken left to right (C++ leaves their order open).  Each [rand() % n]
    is [Z.rem], the C++ result whenever [n] is not 0 and the operands are
    [int]s; with [n = 0] the C++ operation is undefined, and a statement
    about configurations with such a modulus says nothing of the program. *)
Definition Firework_reset (f : Firework) : M Firework :=
  let f := fw_set_explosionParticles f
             (map ep_clear_trailParticles (fw_explosionParticles f)) in
  let f := fw_set_explosionParticles f [] in
  let f := fw_set_trailParticles f [] in
  let f := fw_set_exploded f false in
  r <- rand ;;
  let f := fw_set_numParticles f
             (Z.rem r (MAX_PARTICLES cfg - MIN_PARTICLES cfg) + MIN_PARTICLES cfg) in
  r <- rand ;;
  let f := fw_set_pos f (mkVec3 (F32.of_Z (Z.rem r (WORLD_WIDTH cfg))) f0 f0) in
  rx <- rand ;;
  ry <- rand ;;
  let f := fw_set_vel f
             (mkVec3
                (F32.of_Z (Z.rem rx (MAX_INIT_X_VEL cfg - MIN_INIT_X_VEL cfg)
                           + MIN_INIT_X_VEL cfg))
                (F32.of_Z (Z.rem ry (MAX_INIT_Y_VEL cfg - MIN_INIT_Y_VEL cfg)
                           + MIN_INIT_Y_VEL cfg))
                f0) in
  r <- rand ;;
  let f := fw_set_scale f (F32.of_Z (Z.rem r (SCALE_RANGE cfg)) + MIN_SCALE cfg)%f32 in
  f <- randomiseColor f ;;
  for_count (Z.to_nat (NUM_TRAIL_PARTICLES cfg))
    (fun f =>
       r <- rand ;;
       let lifeDecrease :=
         rand_scaled r
           (TRAIL_MAX_DECREASE_RATE cfg - TRAIL_MIN_DECREASE_RATE cfg)%f32
           (TRAIL_MIN_DECREASE_RATE cfg) in
       r <- rand ;;
       let particleVel := fw_vel f *s rand_scaled r (F32.lit 1 4) (F32.lit 3 4) in
       ret (fw_set_trailParticles f
              (fw_trailParticles f ++
               [TrailParticle_new (fw_pos f) particleVel (fw_color f)
                  (F32.of_Z 1) lifeDecrease])))
    f.

(** [float theta = M_PI * 2 / (float) NUM_OUTER_CIRCLE_VERTICES], computed
    in [double] and narrowed. *)
Definition theta : float :=
  F64.to_f32
    (F64.div (F64.mul F64.M_PI (F64.of_Z 2))
       (F64.of_f32 (F32.of_Z (NUM_OUTER_CIRCLE_VERTICES cfg)))).

(** One iteration of the loop that creates the explosion particles. *)
Definition push_explosionParticle (f : Firework) : M Firework :=
  r <- rand ;;
  let randTheta := (F32.of_Z (Z.rem r (NUM_OUTER_CIRCLE_VERTICES cfg)) * theta)%f32 in
  let particleVel := mkVec3 (cosf randTheta) (sinf randTheta) f0 in
  r <- rand ;;
  let particleVel :=
    particleVel *s
    F32.of_Z (Z.rem r (MAX_MAGNITUDE cfg - MIN_MAGNITUDE cfg) + MIN_MAGNITUDE cfg) in
  r <- rand ;;
  e <- ExplosionParticle_new (fw_pos f) particleVel (fw_color f)
         (F32.of_Z (Z.rem r (SCALE_RANGE cfg)) + MIN_SCALE cfg)%f32 ;;
  ret (fw_set_explosionParticles f (fw_explosionParticles f ++ [e])).

(** The loop of [Firework::update] over [explosionParticles].  The
    range-for fixes its bounds before the first iteration, so it visits
    every slot the vector had on entry, also after a [reset()] has
    emptied the vector: [todo] are the slots still to visit and [done]
    those visited.  While [live], the slots are the elements of
    [explosionParticles] and a write to a slot is a write to the
    firework; the first [reset()] empties the trail particles of every
    slot and then the vector, after which the slots are no longer part of
    the firework: a slot visited when not [live] has lost its trail
    particles. *)
Fixpoint update_explosionParticles (dt : float) (live : bool)
    (done todo : list ExplosionParticle) (f : Firework) : M Firework :=
  match todo with
  | [] => ret f
  | p :: rest =>
      let p := if live then p else ep_clear_trailParticles p in
      p <- ExplosionParticle_update dt p ;;
      let f := if live then fw_set_explosionParticles f (done ++ p :: rest) else f in
      if (ep_life p <=? f0)%f32 then
        f <- Firework_reset f ;;
        update_explosionParticles dt false (done ++ [p]) rest f
      else
        update_explosionParticles dt live (done ++ [p]) rest f
  end.

(** [Firework::update] *)
Definition Firework_update (dt : float) (f : Firework) : M Firework :=
  if fw_exploded f then
    update_explosionParticles dt true [] (fw_explosionParticles f) f
  else
    let f := fw_set_vel f (fw_vel f +v GRAVITY cfg *s dt) in
    let f := fw_set_pos f (fw_pos f +v fw_vel f *s dt) in
    trailParticles <-
      for_each
        (fun p =>
           let p := TrailParticle_update dt (fw_vel f) (F32.of_Z 1) p in
           if (tp_life p <=? f0)%f32 then respawnParticle f p else ret p)
        (fw_trailParticles f) ;;
    let f := fw_set_trailParticles f trailParticles in
    if (y3 (fw_vel f) <? f0)%f32 then
      let f := fw_set_exploded f true in
      let f := fw_set_trailParticles f [] in
      for_count (Z.to_nat (fw_numParticles f)) push_explosionParticle f
    else ret f.

(** A [Firework] before its constructor body runs: the default member
    initialisers give [exploded = false] and empty vectors; the other
    members are indeterminate, and [reset] assigns every one of them. *)
Definition Firework_uninit (pos vel : vec3) (color : vec4) (scale : float)
    (numParticles : Z) : Firework :=
  mkFirework pos vel color scale false numParticles [] [].

(** [Firework::Firework()] *)
Definition Firework_new : M Firework :=
  Firework_reset (Firework_uninit (mkVec3 f0 f0 f0) (mkVec3 f0 f0 f0)
                    (mkVec4 f0 f0 f0 f0) f0 0).

(** *** The world *)

(** [initFireworks], on the global vector [fireworks]. *)
Definition initFireworks (fireworks : list Firework) : M (list Firework) :=
  for_count (Z.to_nat (NUM_FIREWORKS cfg))
    (fun fireworks => f <- Firework_new ;; ret (fireworks ++ [f]))
    fireworks.

(** The world [update(float dt)]. *)
Definition update (dt : float) (fireworks : list Firework) : M (list Firework) :=
  for_each (Firework_update dt) fireworks.

(** The frames of the main loop on one firework, with the frame times [dts]. *)
Fixpoint Firework_run (dts : list float) (f : Firework) : M Firework :=
  match dts with
  | [] => ret f
  | dt :: dts' => f' <- Firework_update dt f ;; Firework_run dts' f'
  end.

(** The main loop on the whole world, with the frame times [dts]. *)
Fixpoint run (dts : list float) (fireworks : list Firework) : M (list Firework) :=
  match dts with
  | [] => ret fireworks
  | dt :: dts' => fireworks' <- update dt fireworks ;; run dts' fireworks'
  end.

End Simulation.

(** ** The circle mesh and the render pass *)

(** [a[i] = v] on an array held as a list; an index past the end, which
    the source never produces, leaves the list as it is. *)
Fixpoint store (a : list float) (i : nat) (v : float) : list float :=
  match a, i with
  | [], _ => []
  | _ :: rest, O => v :: rest
  | h :: rest, S k => h :: store rest k v
  end.

(** One [glDrawArrays(GL_TRIANGLE_FAN, 0, count)] with the uniforms in
    force: the model matrix is [translate] then [scale] of the identity (the
    constant projection and view are left out), [fragColor] is [color]. *)
Record DrawCall : Type := mkDrawCall {
  dc_translate : vec3;
  dc_scale : vec3;
  dc_color : vec4;
  dc_count : Z
}.

Section Rendering.
Context {libc : Libc}.
Variable cfg : Config.

(** The loop of [setupGLBuffers] from index [i], with [n] iterations left. *)
Fixpoint fill_circle (n i : nat) (cosine sine x y : float)
    (vertices : list float) : list float :=
  match n with
  | O => vertices
  | S k =>
      let temp := x in
      let x := (x * cosine - y * sine)%f32 in
      let y := (temp * sine + y * cosine)%f32 in
      let vertices := store vertices (i * 3) x in
      let vertices := store vertices (i * 3 + 1) y in
      let vertices := store vertices (i * 3 + 2) f0 in
      fill_circle k (S i) cosine sine x y vertices
  end.

(** The vertex computation of [setupGLBuffers], on the local array
    [vertices] of (NUM_OUTER_CIRCLE_VERTICES + 1) * 3 floats, whose content
    on entry is indeterminate. *)
Definition setupGLBuffers_vertices (vertices : list float) : list float :=
  let len := length vertices in
  let vertices := store vertices (len - 1) f0 in
  let vertices := store vertices (len - 2) f0 in
  let vertices := store vertices (len - 3) f0 in
  let cosine := cosf (theta cfg) in
  let sine := sinf (theta cfg) in
  fill_circle (Z.to_nat (NUM_OUTER_CIRCLE_VERTICES cfg)) 0 cosine sine
    (F32.of_Z 1) (F32.of_Z 0) vertices.

(** The draw call of [Particle::render] and of the rocket in
    [Firework::render]: the same three GL calls. *)
Definition draw (pos : vec3) (scale : float) (color : vec4) : DrawCall :=
  mkDrawCall pos (mkVec3 scale scale f1) color (NUM_OUTER_CIRCLE_VERTICES cfg + 1).

(** [Particle::render], inherited by [TrailParticle]. *)
Definition TrailParticle_render (p : TrailParticle) : list DrawCall :=
  [draw (tp_pos p) (tp_scale p) (tp_color p)].

(** [ExplosionParticle::render] *)
Definition ExplosionParticle_render (e : ExplosionParticle) : list DrawCall :=
  flat_map TrailParticle_render (ep_trailParticles e) ++
  [draw (ep_pos e) (ep_scale e) (ep_color e)].

(** [Firework::render] *)
Definition Firework_render (f : Firework) : list DrawCall :=
  if negb (fw_exploded f) then
    flat_map TrailParticle_render (fw_trailParticles f) ++
    [draw (fw_pos f) (fw_scale f) (fw_color f)]
  else flat_map ExplosionParticle_render (fw_explosionParticles f).

(** The world [render()]: the draw calls between [glClear] and the
    unbinding; it walks copies of the fireworks. *)
Definition render (fireworks : list Firework) : list DrawCall :=
  flat_map Firework_render fireworks.

End Rendering.

(** ** Notions for the rounding proofs *)

(** [m / 2^t] rounded to the nearest integer, ties to even. *)
Definition rne_div (m t : Z) : Z :=
  let q := m / 2 ^ t in
  match 2 * (m mod 2 ^ t) ?= 2 ^ t with
  | Lt => q
  | Eq => if Z.even q then q else q + 1
  | Gt => q + 1
  end.

(** The float of sign [s], mantissa [q] and exponent [f], as the last
    match of [binary_round_aux] builds it, and with the carry of a mantissa
    that rounding took to [2^24]. *)
Definition finish (s : bool) (q f : Z) : spec_float :=
  match q with
  | Z0 => S754_zero s
  | Zpos p => if f <=? 104 then S754_finite s p f else S754_infinity s
  | Zneg _ => S754_nan
  end.

Definition encode (s : bool) (q f : Z) : spec_float :=
  if q =? 2 ^ 24 then finish s (2 ^ 23) (f + 1) else finish s q f.

(** [fexp] at precision 24 and exponent range 128. *)
Definition fexp32 (e : Z) : Z := Z.max (e - 24) (-149).

(** The position of infinity. *)
Definition cap : Z := 255 * 2 ^ 23.

(** Position of a float in the order of the format: finite floats of one
    sign are numbered consecutively, infinity coming last. *)
Definition ord (x : spec_float) : Z :=
  match x with
  | S754_zero _ => 0
  | S754_nan => 0
  | S754_infinity s => cond_Zopp s cap
  | S754_finite s m e => cond_Zopp s ((e + 149) * 2 ^ 23 + Zpos m)
  end.

Definition is_nan (x : spec_float) : bool :=
  match x with S754_nan => true | _ => false end.

Ltac pow_consts :=
  change (2 ^ 23) with 8388608 in *; change (2 ^ 24) with 16777216 in *;
  change cap with 2139095040 in *.

(** The exponent the format gives to the integer [N] counted in units of
    [2^e], the float [N * 2^e] rounds to, and its position. *)
Definition fexp_of (e N : Z) : Z := fexp32 (Z.log2 N + 1 + e).

Definition rnd (s : bool) (e N : Z) : spec_float :=
  encode s (rne_div N (fexp_of e N - e)) (fexp_of e N).

Definition raw (e N : Z) : Z :=
  (fexp_of e N + 149) * 2 ^ 23 + rne_div N (fexp_of e N - e).

(** Values are counted in units of [2^-300], fine enough for every sum,
    product and quotient of two binary32 numbers. *)
Definition sval (x : spec_float) : Z :=
  match x with
  | S754_finite s m e => cond_Zopp s (Zpos m * 2 ^ (e + 300))
  | _ => 0
  end.

(** The float nearest to [v * 2^-300], and its position. *)
Definition rndz (v : Z) : spec_float :=
  match v with
  | Z0 => S754_zero false
  | Zpos _ => rnd false (-300) v
  | Zneg p => rnd true (-300) (Zpos p)
  end.

Definition Rz (v : Z) : Z :=
  match v with
  | Z0 => 0
  | Zpos _ => Z.min (raw (-300) v) cap
  | Zneg p => - Z.min (raw (-300) (Zpos p)) cap
  end.

Definition finite_or_zero (x : spec_float) : bool :=
  match x with S754_finite _ _ _ | S754_zero _ => true | _ => false end.

(** [0.25f], [0.75f] and [5.0f]. *)
Definition quarter : spec_float := S754_finite false 8388608 (-25).

(** A location as the two bits below the quotient. *)
Definition loc_code (l : location) : Z :=
  match l with
  | loc_Exact => 0
  | loc_Inexact Lt => 1
  | loc_Inexact Eq => 2
  | loc_Inexact Gt => 3
  end.

Definition three_quarters : spec_float := S754_finite false 12582912 (-24).

Definition five32 : spec_float := F32.of_Z 5.

(** [(k - 50) / 10.0f], and the test that it is a number between -5 and 5. *)
Definition jitter_of (k : Z) : spec_float :=
  F32.div (F32.of_Z (k - 50)) (F32.of_Z 10).

Definition jitter_ok (k : Z) : bool :=
  F32.valid (jitter_of k) && finite_or_zero (jitter_of k) &&
  (- (5 * 2 ^ 300) <=? sval (jitter_of k)) && (sval (jitter_of k) <=? 5 * 2 ^ 300).

(** A positive normal number: a finite positive float whose mantissa has
    all 24 digits. *)
Definition positive_normal (x : spec_float) : bool :=
  match x with
  | S754_finite false m _ => F32.valid x && (2 ^ 23 <=? Zpos m)
  | _ => false
  end.

(** The value of a finite float as a real number. *)
Definition real (x : spec_float) : R := (IZR (sval x) / IZR (2 ^ 300))%R.

(** ** Notions used in the statements *)

(** The life of a trail particle after the clamp [if (life > sourceLife)
    life = sourceLife] of [TrailParticle::update]. *)
Definition clamped_life (sourceLife : float) (p : TrailParticle) : float :=
  if (tp_life p >? sourceLife)%f32 then sourceLife else tp_life p.


(** The two configurations of a firework. *)
Definition rising (f : Firework) : Prop :=
  fw_exploded f = false /\ fw_trailParticles f <> [] /\ fw_explosionParticles f = [].

Definition exploded (f : Firework) : Prop :=
  fw_exploded f = true /\ fw_trailParticles f = [] /\ fw_explosionParticles f <> [].

(** An explosion particle that this [update(dt)] leaves with life <= 0. *)
Definition expires (cfg : Config) (dt : float) (p : ExplosionParticle) : Prop :=
  (ep_life p - EXPLOSION_LIFE_DECREASE_RATE cfg * dt <=? f0)%f32 = true.

(** The rocket after the two assignments that integrate gravity. *)
Definition integrate_gravity (cfg : Config) (dt : float) (f : Firework) : Firework :=
  let f := fw_set_vel f (fw_vel f +v GRAVITY cfg *s dt) in
  fw_set_pos f (fw_pos f +v fw_vel f *s dt).

(** The loop of [Firework::update] over the rocket's trail particles. *)
Definition rocket_trail_loop {libc : Libc} (dt : float) (f : Firework) :
    M (list TrailParticle) :=
  for_each
    (fun p =>
       let p := TrailParticle_update dt (fw_vel f) (F32.of_Z 1) p in
       if (tp_life p <=? f0)%f32 then respawnParticle f p else ret p)
    (fw_trailParticles f).

(** A trail particle as the constructors make it. *)
Definition new_trail (pos : vec3) (color : vec4) (p : TrailParticle) : Prop :=
  tp_pos p = pos /\ tp_color p = color /\ tp_life p = f1 /\ tp_scale p = F32.of_Z 1.

(** An explosion particle as the creation loop of [Firework::update] makes
    it for a rocket at [pos] of colour [color]: one of the
    NUM_OUTER_CIRCLE_VERTICES multiples of [theta] as direction, a magnitude
    from MIN_MAGNITUDE up to MAX_MAGNITUDE, a scale drawn for it. *)
Definition created_at {libc : Libc} (cfg : Config) (pos : vec3) (color : vec4)
    (e : ExplosionParticle) : Prop :=
  ep_pos e = pos /\
  ep_color e = color /\
  ep_life e = f1 /\
  ep_origVel e = ep_vel e /\
  length (ep_trailParticles e) = Z.to_nat (NUM_TRAIL_PARTICLES cfg) /\
  exists k magnitude sc : Z,
    (exists s1, k = Z.rem (fst (rand s1)) (NUM_OUTER_CIRCLE_VERTICES cfg)) /\
    (exists s2, magnitude = Z.rem (fst (rand s2)) (MAX_MAGNITUDE cfg - MIN_MAGNITUDE cfg)
                            + MIN_MAGNITUDE cfg) /\
    (exists s3, sc = Z.rem (fst (rand s3)) (SCALE_RANGE cfg)) /\
    0 <= k < NUM_OUTER_CIRCLE_VERTICES cfg /\
    MIN_MAGNITUDE cfg <= magnitude < MAX_MAGNITUDE cfg /\
    0 <= sc < SCALE_RANGE cfg /\
    ep_vel e =
      mkVec3 (cosf (F32.of_Z k * theta cfg)%f32) (sinf (F32.of_Z k * theta cfg)%f32) f0
      *s F32.of_Z magnitude /\
    ep_scale e = (F32.of_Z sc + MIN_SCALE cfg)%f32.

(** The state of the generator after [k] more calls of [rand()], and the
    value that the call after those returns. *)
Definition advance {libc : Libc} (k : nat) (s : RandState) : RandState :=
  Nat.iter k (fun s0 => snd (rand s0)) s.

Definition rand_after {libc : Libc} (k : nat) (s : RandState) : Z :=
  fst (rand (advance k s)).

(** The explosion particle that one iteration of the creation loop makes
    for a rocket at [pos] of colour [color] from its three draws: [ra] picks
    the angle, [rm] the magnitude and [rs] the scale. *)
Definition spark_from {libc : Libc} (cfg : Config) (pos : vec3) (color : vec4)
    (ra rm rs : Z) (e : ExplosionParticle) : Prop :=
  let angle :=
    (F32.of_Z (Z.rem ra (NUM_OUTER_CIRCLE_VERTICES cfg)) * theta cfg)%f32 in
  let magnitude := Z.rem rm (MAX_MAGNITUDE cfg - MIN_MAGNITUDE cfg) + MIN_MAGNITUDE cfg in
  ep_pos e = pos /\
  ep_color e = color /\
  ep_life e = f1 /\
  ep_vel e = mkVec3 (cosf angle) (sinf angle) f0 *s F32.of_Z magnitude /\
  ep_origVel e = ep_vel e /\
  ep_scale e = (F32.of_Z (Z.rem rs (SCALE_RANGE cfg)) + MIN_SCALE cfg)%f32 /\
  length (ep_trailParticles e) = Z.to_nat (NUM_TRAIL_PARTICLES cfg).

(** The angle step for [n] directions: [M_PI * 2] in binary64, divided by
    [(float) n] and narrowed to binary32. *)
Definition theta_at (n : Z) : float :=
  F64.to_f32
    (SFdiv 53 1024
       (SFmul 53 1024 (S754_finite false 7074237752028440 (-51)) (F64.of_Z 2))
       (F32.of_Z n)).

(** [n] steps of [theta_at n] make between 6.283184 and 6.283187. *)
Definition closes_circle (n : Z) : bool :=
  (6283184 * 2 ^ 300 <? 1000000 * (n * sval (theta_at n))) &&
  (1000000 * (n * sval (theta_at n)) <? 6283187 * 2 ^ 300).

(** The integer arithmetic of [reset()] is defined: no [rand() % n] has
    [n = 0], and the constants are small enough ([2^29] at most in
    magnitude) for every [int] difference and sum to fit an [int]. *)
Definition int_arithmetic_defined (cfg : Config) : Prop :=
  (MAX_PARTICLES cfg - MIN_PARTICLES cfg <> 0 /\
   WORLD_WIDTH cfg <> 0 /\
   MAX_INIT_X_VEL cfg - MIN_INIT_X_VEL cfg <> 0 /\
   MAX_INIT_Y_VEL cfg - MIN_INIT_Y_VEL cfg <> 0 /\
   SCALE_RANGE cfg <> 0) /\
  Forall (fun c => - 2 ^ 29 <= c <= 2 ^ 29)
    [MIN_PARTICLES cfg; MAX_PARTICLES cfg; WORLD_WIDTH cfg;
     MIN_INIT_X_VEL cfg; MAX_INIT_X_VEL cfg; MIN_INIT_Y_VEL cfg; MAX_INIT_Y_VEL cfg;
     SCALE_RANGE cfg; NUM_FIREWORKS cfg; NUM_TRAIL_PARTICLES cfg].

(** The integer ranges of a configuration are not empty. *)
Definition ranges_nonempty (cfg : Config) : Prop :=
  0 < NUM_OUTER_CIRCLE_VERTICES cfg /\
  MIN_MAGNITUDE cfg < MAX_MAGNITUDE cfg /\
  0 < SCALE_RANGE cfg.

(** A firework is in exactly one of the two configurations. *)
Definition one_configuration (f : Firework) : Prop :=
  (rising f /\ ~ exploded f) \/ (exploded f /\ ~ rising f).

(** The invariant behind it: a rising firework also has a positive number
    of explosion particles to create. *)
Definition configured (f : Firework) : Prop :=
  (rising f /\ 0 < fw_numParticles f) \/ exploded f.

(** A trail particle of scale 1, and a firework all of whose trail
    particles, the rocket's and the explosion particles', have scale 1. *)
Definition unit_scale (p : TrailParticle) : Prop := tp_scale p = F32.of_Z 1.

Definition trails_unit_scale (f : Firework) : Prop :=
  Forall unit_scale (fw_trailParticles f) /\
  Forall (fun e => Forall unit_scale (ep_trailParticles e)) (fw_explosionParticles f).

(** A coordinate that holds a number: well-formed and not NaN. *)
Definition numeric (x : float) : Prop := F32.valid x = true /\ is_nan x = false.

Definition numeric3 (v : vec3) : Prop :=
  numeric (x3 v) /\ numeric (y3 v) /\ numeric (z3 v).

(** [x'] lies between [x - 5] and [x + 5], as computed in [float]. *)
Definition within_five (x x' : float) : Prop :=
  (x - F32.of_Z 5 <=? x')%f32 = true /\ (x' <=? x + F32.of_Z 5)%f32 = true.

Definition within_five3 (v v' : vec3) : Prop :=
  within_five (x3 v) (x3 v') /\ within_five (y3 v) (y3 v') /\
  within_five (z3 v) (z3 v').

(** ** Notions used in the further properties *)

(** The list [setupGLBuffers] computes: each vertex is the previous one
    turned by the angle whose cosine and sine are given, with z = 0. *)
Fixpoint circle_blocks (n : nat) (cosine sine x y : float) : list float :=
  match n with
  | O => []
  | S k =>
      let x' := (x * cosine - y * sine)%f32 in
      let y' := (x * sine + y * cosine)%f32 in
      x' :: y' :: f0 :: circle_blocks k cosine sine x' y'
  end.

(** The exact population of a firework: NUM_TRAIL_PARTICLES trail
    particles and no explosion particle while rising; no trail particle and
    fw_numParticles explosion particles, each with NUM_TRAIL_PARTICLES trail
    particles of its own, once exploded. *)
Definition populated (cfg : Config) (f : Firework) : Prop :=
  if fw_exploded f then
    fw_trailParticles f = [] /\
    length (fw_explosionParticles f) = Z.to_nat (fw_numParticles f) /\
    Forall (fun e => length (ep_trailParticles e) = Z.to_nat (NUM_TRAIL_PARTICLES cfg))
      (fw_explosionParticles f)
  else
    length (fw_trailParticles f) = Z.to_nat (NUM_TRAIL_PARTICLES cfg) /\
    fw_explosionParticles f = [].

(** All explosion particles of a firework have one and the same life. *)
Definition same_life (f : Firework) : Prop :=
  exists l : float, Forall (fun e => ep_life e = l) (fw_explosionParticles f).

(** A property of every trail particle of a firework, the rocket's and the
    explosion particles'. *)
Definition all_trails (P : TrailParticle -> Prop) (f : Firework) : Prop :=
  Forall P (fw_trailParticles f) /\
  Forall (fun e => Forall P (ep_trailParticles e)) (fw_explosionParticles f).

(** A trail particle that has life left: its life is not <= 0. *)
Definition alive (p : TrailParticle) : Prop := (tp_life p <=? f0)%f32 = false.

(** A trail particle whose decay rate lies in the configured range. *)
Definition rate_in_range (cfg : Config) (p : TrailParticle) : Prop :=
  (TRAIL_MIN_DECREASE_RATE cfg <=? tp_lifeDecreaseRate p)%f32 = true /\
  (tp_lifeDecreaseRate p <=? TRAIL_MAX_DECREASE_RATE cfg)%f32 = true.

(** A decay range the sampling formula respects: max - min is a positive
    normal number, min is finite, and (max - min) + min gives max back. *)
Definition decay_range_ok (cfg : Config) : Prop :=
  positive_normal (TRAIL_MAX_DECREASE_RATE cfg - TRAIL_MIN_DECREASE_RATE cfg)%f32 = true /\
  F32.valid (TRAIL_MIN_DECREASE_RATE cfg) = true /\
  finite_or_zero (TRAIL_MIN_DECREASE_RATE cfg) = true /\
  (TRAIL_MAX_DECREASE_RATE cfg - TRAIL_MIN_DECREASE_RATE cfg
   + TRAIL_MIN_DECREASE_RATE cfg)%f32 = TRAIL_MAX_DECREASE_RATE cfg.

(** A value [rand()] returned at some state of the generator. *)
Definition drawn {libc : Libc} (r : Z) : Prop := exists s0 : RandState, r = fst (rand s0).

(** The integer ranges [reset()] samples from are not empty. *)
Definition launch_ranges_nonempty (cfg : Config) : Prop :=
  MIN_PARTICLES cfg < MAX_PARTICLES cfg /\
  0 < WORLD_WIDTH cfg /\
  MIN_INIT_X_VEL cfg < MAX_INIT_X_VEL cfg /\
  MIN_INIT_Y_VEL cfg < MAX_INIT_Y_VEL cfg.

(** A colour channel between 0.25 and 1. *)
Definition channel_in_range (c : float) : Prop :=
  (F32.lit 1 4 <=? c)%f32 = true /\ (c <=? F32.of_Z 1)%f32 = true.

(** A colour as [randomiseColor] makes it: red, green and blue between 0.25
    and 1, and alpha 1. *)
Definition launch_colour (c : vec4) : Prop :=
  channel_in_range (x4 c) /\ channel_in_range (y4 c) /\ channel_in_range (z4 c) /\
  w4 c = f1.

(** The state [reset()] launches a rocket from: a particle count in
    [MIN_PARTICLES, MAX_PARTICLES), a position on the ground at a whole
    abscissa in [0, WORLD_WIDTH), and a velocity with whole components in
    [MIN_INIT_X_VEL, MAX_INIT_X_VEL) and [MIN_INIT_Y_VEL, MAX_INIT_Y_VEL). *)
Definition launched (cfg : Config) (f : Firework) : Prop :=
  MIN_PARTICLES cfg <= fw_numParticles f < MAX_PARTICLES cfg /\
  (exists kx : Z, 0 <= kx < WORLD_WIDTH cfg /\
                  fw_pos f = mkVec3 (F32.of_Z kx) f0 f0) /\
  (exists vx vy : Z,
      MIN_INIT_X_VEL cfg <= vx < MAX_INIT_X_VEL cfg /\
      MIN_INIT_Y_VEL cfg <= vy < MAX_INIT_Y_VEL cfg /\
      fw_vel f = mkVec3 (F32.of_Z vx) (F32.of_Z vy) f0).

(** The number of draw calls [Firework::render] issues for a particle with
    NUM_TRAIL_PARTICLES trail particles. *)
Definition draws_per_particle (cfg : Config) : nat :=
  S (Z.to_nat (NUM_TRAIL_PARTICLES cfg)).

(** ** Concrete data for the examples *)

(** A generator whose first draws make [reset()] launch a rocket from
    x = 400 with velocity (0, 400) and 37 explosion particles to come. *)
Definition demo_cycle : list Z :=
  [7; 400; 20; 100; 1; 1000000000; 2000000000; 500000000].

Definition demo_libc : Libc := replay_libc demo_cycle.

(** The same generator with stand-ins for cosine and sine that keep the
    angle readable: the angle itself and its opposite. *)
Definition probe_libc : Libc := {|
  RAND_MAX := 2147483647;
  RandState := nat;
  rand := replay_rand demo_cycle;
  cosf := fun a => a;
  sinf := fun a => SFopp a
|}.

(** The first firework [initFireworks] constructs with that generator. *)
Definition demo_rocket : Firework := fst (@Firework_new demo_libc source_config 0%nat).

(** A frame time of a tenth of a second, [0.1f]. *)
Definition dt_tenth : float := F32.lit 1 10.

Definition origin : vec3 := mkVec3 f0 f0 f0.
Definition white : vec4 := mkVec4 f1 f1 f1 f1.

(** A trail particle at full life that decays at 4 per second. *)
Definition demo_trail : TrailParticle :=
  mkTrailParticle origin origin white f1 f1 (F32.of_Z 4).

(** Two explosion particles without trail, one at full life and one spent. *)
Definition demo_spark (life : float) : ExplosionParticle :=
  mkExplosionParticle origin origin white life f1 origin [].

Definition demo_burst : Firework :=
  mkFirework origin origin white f1 true 2 [] [demo_spark f1; demo_spark f0].

(** An exploded firework whose two explosion particles are at full life. *)
Definition demo_glow : Firework :=
  mkFirework origin origin white f1 true 2 [] [demo_spark f1; demo_spark f1].

(** A rocket rising at 10 that is due no explosion particle. *)
Definition demo_dud : Firework :=
  mkFirework origin (mkVec3 f0 (F32.of_Z 10) f0) white f1 false 0 [] [].

(** The source's constants with the trail decay range inverted and a
    negative explosion decay rate. *)
Definition malformed_config : Config := {|
  WORLD_WIDTH := 800;
  NUM_OUTER_CIRCLE_VERTICES := 50;
  GRAVITY := mkVec3 f0 (F32.of_Z (-200)) f0;
  NUM_FIREWORKS := 10;
  MIN_PARTICLES := 30;
  MAX_PARTICLES := 50;
  NUM_TRAIL_PARTICLES := 15;
  MIN_SCALE := F32.of_Z 1;
  SCALE_RANGE := 2;
  MAX_INIT_X_VEL := 20;
  MIN_INIT_X_VEL := -20;
  MAX_INIT_Y_VEL := 500;
  MIN_INIT_Y_VEL := 300;
  MIN_MAGNITUDE := 20;
  MAX_MAGNITUDE := 200;
  EXPLOSION_LIFE_DECREASE_RATE := F32.lit (-1) 2;
  TRAIL_MIN_DECREASE_RATE := F32.of_Z 6;
  TRAIL_MAX_DECREASE_RATE := F32.of_Z 3
|}.

(** * binary32 rounding

    [binary_round_aux] is characterised as rounding to nearest even, and
    addition, multiplication by 0.25 and division are shown monotone
    through the position of their result in the order of the format. *)

Lemma digits2_pos_size (m : positive) : digits2_pos m = Pos.size m.
Proof. induction m; simpl; congruence. Qed.

Lemma digits2_log2 (m : positive) : Zpos (digits2_pos m) = Z.log2 (Zpos m) + 1.
Proof.
  rewrite digits2_pos_size. destruct m; simpl; try lia.
Qed.

Lemma digits2_bounds (m : positive) :
  2 ^ (Zpos (digits2_pos m) - 1) <= Zpos m < 2 ^ Zpos (digits2_pos m).
Proof.
  rewrite digits2_log2. replace (Z.log2 (Zpos m) + 1 - 1) with (Z.log2 (Zpos m)) by lia.
  pose proof (Z.log2_spec (Zpos m) ltac:(lia)). 
  replace (Z.log2 (Z.pos m) + 1) with (Z.succ (Z.log2 (Zpos m))) by lia. exact H.
Qed.

(* iter_pos vs Nat.iter *)
Lemma iter_pos_nat {A} (f : A -> A) (p : positive) (x : A) :
  iter_pos f p x = Nat.iter (Pos.to_nat p) f x.
Proof.
  revert x. induction p as [p IH|p IH|]; intros x; cbn [iter_pos].
  - rewrite !IH. rewrite Pos2Nat.inj_xI.
    replace (S (2 * Pos.to_nat p)) with (Pos.to_nat p + (Pos.to_nat p + 1))%nat by lia.
    rewrite !Nat.iter_add. reflexivity.
  - rewrite !IH. rewrite Pos2Nat.inj_xO.
    replace (2 * Pos.to_nat p)%nat with (Pos.to_nat p + Pos.to_nat p)%nat by lia.
    rewrite Nat.iter_add. reflexivity.
  - reflexivity.
Qed.

Lemma shr_1_nonneg (m : Z) (r s : bool) :
  0 <= m ->
  shr_1 (Build_shr_record m r s) = Build_shr_record (Z.div2 m) (Z.odd m) (r || s).
Proof.
  intros Hm. destruct m as [|p|p]; [reflexivity| |lia].
  destruct p; reflexivity.
Qed.

(* n steps from an exact record *)
Lemma shr_iter (m : Z) (n : nat) :
  0 <= m ->
  Nat.iter (S n) shr_1 (Build_shr_record m false false) =
  Build_shr_record (Z.shiftr m (Z.of_nat (S n))) (Z.testbit m (Z.of_nat n))
    (negb (m mod 2 ^ Z.of_nat n =? 0)).
Proof.
  intros Hm. induction n as [|n IH].
  - change (Nat.iter 1 shr_1 ?x) with (shr_1 x).
    rewrite shr_1_nonneg by exact Hm.
    change (Z.of_nat 1) with 1. change (Z.of_nat 0) with 0.
    rewrite Z.div2_spec, Z.bit0_odd, Z.pow_0_r, Z.mod_1_r. reflexivity.
  - change (Nat.iter (S (S n)) shr_1 ?x) with (shr_1 (Nat.iter (S n) shr_1 x)).
    rewrite IH. rewrite shr_1_nonneg by (apply Z.shiftr_nonneg; exact Hm).
    f_equal.
    + rewrite Z.div2_spec, Z.shiftr_shiftr by lia. f_equal. lia.
    + rewrite <- Z.bit0_odd, Z.shiftr_spec by lia. f_equal; lia.
    + (* sticky *)
      replace (2 ^ Z.of_nat (S n)) with (2 ^ Z.of_nat n * 2)
        by (rewrite Nat2Z.inj_succ, Z.pow_succ_r; lia).
      rewrite Z.rem_mul_r by lia.
      pose proof (Z.testbit_spec' m (Z.of_nat n) ltac:(lia)) as Hb.
      set (a := m mod 2 ^ Z.of_nat n) in *. set (b := (m / 2 ^ Z.of_nat n) mod 2) in *.
      assert (0 <= a) by (apply Z.mod_pos_bound; lia).
      assert (0 < 2 ^ Z.of_nat n) by lia.
      destruct (Z.testbit m (Z.of_nat n)); simpl in Hb; rewrite <- Hb;
      destruct (Z.eqb_spec a 0), (Z.eqb_spec (a + 2 ^ Z.of_nat n * 1) 0),
               (Z.eqb_spec (a + 2 ^ Z.of_nat n * 0) 0);
        simpl; try reflexivity; try lia.
Qed.

Lemma rne_div_0 (m : Z) : rne_div m 0 = m.
Proof.
  unfold rne_div. rewrite Z.pow_0_r, Z.mod_1_r, Z.div_1_r. reflexivity.
Qed.

Lemma rne_div_bounds (m t : Z) :
  0 <= t -> m / 2 ^ t <= rne_div m t <= m / 2 ^ t + 1.
Proof.
  intros Ht. unfold rne_div.
  destruct (2 * (m mod 2 ^ t) ?= 2 ^ t); [destruct (Z.even _)| |]; lia.
Qed.

Lemma round_shr (m : Z) (p : positive) :
  0 <= m ->
  let mrs := iter_pos shr_1 p (Build_shr_record m false false) in
  round_nearest_even (shr_m mrs) (loc_of_shr_record mrs) = rne_div m (Zpos p).
Proof.
  intros Hm. cbv zeta. rewrite iter_pos_nat.
  destruct (Pos2Nat.is_succ p) as [n Hn]. rewrite Hn.
  assert (Hp : Zpos p = Z.of_nat (S n)) by lia.
  rewrite shr_iter by exact Hm. rewrite Hp.
  cbn [shr_m loc_of_shr_record]. unfold rne_div.
  rewrite Z.shiftr_div_pow2 by lia.
  replace (2 ^ Z.of_nat (S n)) with (2 ^ Z.of_nat n * 2)
    by (rewrite Nat2Z.inj_succ, Z.pow_succ_r; lia).
  rewrite Z.rem_mul_r by lia.
  pose proof (Z.testbit_spec' m (Z.of_nat n) ltac:(lia)) as Hb.
  set (a := m mod 2 ^ Z.of_nat n) in *. set (b := (m / 2 ^ Z.of_nat n) mod 2) in *.
  assert (0 <= a < 2 ^ Z.of_nat n) by (apply Z.mod_pos_bound; lia).
  set (q := m / (2 ^ Z.of_nat n * 2)).
  destruct (Z.testbit m (Z.of_nat n)); simpl in Hb; rewrite <- Hb;
    destruct (Z.eqb_spec a 0) as [Ha|Ha]; cbn [negb round_nearest_even].
  - replace (2 * (a + 2 ^ Z.of_nat n * 1) ?= 2 ^ Z.of_nat n * 2) with Eq; [reflexivity|].
    symmetry. apply Z.compare_eq_iff. lia.
  - replace (2 * (a + 2 ^ Z.of_nat n * 1) ?= 2 ^ Z.of_nat n * 2) with Gt; [reflexivity|].
    symmetry. apply Z.compare_gt_iff. lia.
  - replace (2 * (a + 2 ^ Z.of_nat n * 0) ?= 2 ^ Z.of_nat n * 2) with Lt; [reflexivity|].
    symmetry. apply Z.compare_lt_iff. lia.
  - replace (2 * (a + 2 ^ Z.of_nat n * 0) ?= 2 ^ Z.of_nat n * 2) with Lt; [reflexivity|].
    symmetry. apply Z.compare_lt_iff. lia.
Qed.

Lemma fexp32_eq (e : Z) : fexp 24 128 e = fexp32 e.
Proof. reflexivity. Qed.

Lemma Zdigits2_pos (p : positive) : Zdigits2 (Zpos p) = Zpos (digits2_pos p).
Proof. reflexivity. Qed.

Lemma digits_small (p : positive) (k : Z) :
  0 <= k -> Zpos p < 2 ^ k -> Zpos (digits2_pos p) <= k.
Proof.
  intros Hk Hp. pose proof (digits2_bounds p) as [Hlo _].
  destruct (Z_lt_le_dec k (Zpos (digits2_pos p))) as [Hlt|]; [|lia].
  assert (2 ^ k <= 2 ^ (Zpos (digits2_pos p) - 1)) by (apply Z.pow_le_mono_r; lia).
  lia.
Qed.

Lemma digits_large (p : positive) (k : Z) :
  0 <= k -> 2 ^ k <= Zpos p -> k + 1 <= Zpos (digits2_pos p).
Proof.
  intros Hk Hp. pose proof (digits2_bounds p) as [_ Hhi].
  destruct (Z_lt_le_dec (Zpos (digits2_pos p)) (k + 1)) as [Hlt|]; [|lia].
  assert (2 ^ Zpos (digits2_pos p) <= 2 ^ k) by (apply Z.pow_le_mono_r; lia).
  lia.
Qed.

(** The second normalisation of [binary_round_aux] and its final match. *)
Lemma second_stage (s : bool) (q f : Z) :
  -149 <= f -> 0 <= q <= 2 ^ 24 -> (-149 < f -> 2 ^ 23 <= q) ->
  (let '(mrs, e) := shr_fexp 24 128 q f loc_Exact in
   match shr_m mrs with
   | Z0 => S754_zero s
   | Zpos m => if e <=? 128 - 24 then S754_finite s m e else S754_infinity s
   | Zneg _ => S754_nan
   end) = encode s q f.
Proof.
  intros Hf Hq Hn. unfold encode, shr_fexp. rewrite fexp32_eq.
  destruct (Z.eqb_spec q (2 ^ 24)) as [->|Hne].
  - change (Zdigits2 (2 ^ 24)) with 25. unfold fexp32.
    replace (Z.max (25 + f - 24) (-149) - f) with 1 by lia.
    cbn. replace (f + 1 <=? 104) with (f + 1 <=? 128 - 24) by reflexivity. reflexivity.
  - destruct q as [|p|p]; [| |lia].
    + cbn [Zdigits2]. unfold fexp32.
      assert (f = -149) by (destruct (Z.eq_dec f (-149)); [assumption|]; 
                            assert (2^23 <= 0) by (apply Hn; lia); lia).
      subst f. reflexivity.
    + rewrite Zdigits2_pos. unfold fexp32.
      assert (Hd : Zpos (digits2_pos p) <= 24) by (apply digits_small; lia).
      assert (Hd' : -149 < f -> 24 <= Zpos (digits2_pos p)).
      { intros H. apply (digits_large p 23); [lia|]. apply Hn, H. }
      replace (Z.max (Zpos (digits2_pos p) + f - 24) (-149) - f) with 0 by lia.
      reflexivity.
Qed.

(** Quotient bounds for a mantissa of [d] digits shifted to exponent [f]. *)
Lemma quotient_bounds (m : positive) (e : Z) :
  let f := fexp32 (Zpos (digits2_pos m) + e) in
  e <= f ->
  0 <= Zpos m / 2 ^ (f - e) < 2 ^ 24 /\
  (-149 < f -> 2 ^ 23 <= Zpos m / 2 ^ (f - e)).
Proof.
  intros f Hf. pose proof (digits2_bounds m) as [Hlo Hhi].
  set (d := Zpos (digits2_pos m)) in *.
  assert (Hd : 1 <= d) by (subst d; lia).
  assert (Ht : 0 <= f - e) by lia.
  assert (Hpos : 0 < 2 ^ (f - e)) by (apply Z.pow_pos_nonneg; lia).
  split; [split|].
  - apply Z.div_pos; lia.
  - apply Z.div_lt_upper_bound; [exact Hpos|].
    rewrite <- Z.pow_add_r by lia.
    assert (2 ^ d <= 2 ^ (f - e + 24)).
    { apply Z.pow_le_mono_r; [lia|]. subst f. unfold fexp32. lia. }
    lia.
  - intros Hn. apply Z.div_le_lower_bound; [exact Hpos|].
    rewrite <- Z.pow_add_r by lia.
    assert (f = d + e - 24) by (subst f; unfold fexp32 in *; lia).
    replace (f - e + 23) with (d - 1) by lia. exact Hlo.
Qed.

(** [binary_round_aux] on an exact mantissa that has at least the digits
    of its format. *)
Lemma binary_round_aux_exact (s : bool) (m : positive) (e : Z) :
  let f := fexp32 (Zpos (digits2_pos m) + e) in
  e <= f ->
  binary_round_aux 24 128 s (Zpos m) e loc_Exact =
  encode s (rne_div (Zpos m) (f - e)) f.
Proof.
  intros f Hf. pose proof (quotient_bounds m e Hf) as [[Hq0 Hq1] Hq2]. fold f in Hq0, Hq1, Hq2.
  pose proof (rne_div_bounds (Zpos m) (f - e) ltac:(lia)) as Hr.
  assert (Hfm : -149 <= f) by (subst f; unfold fexp32; lia).
  unfold binary_round_aux.
  assert (E : exists mrs, shr_fexp 24 128 (Zpos m) e loc_Exact = (mrs, f) /\
              round_nearest_even (shr_m mrs) (loc_of_shr_record mrs) =
              rne_div (Zpos m) (f - e)).
  { unfold shr_fexp. rewrite fexp32_eq, Zdigits2_pos. fold f.
    cbn [shr_record_of_loc]. unfold shr.
    destruct (f - e) as [|p|p] eqn:Ht; [| |lia].
    - eexists. split; [f_equal; lia|].
      cbn [shr_m loc_of_shr_record round_nearest_even].
      now rewrite rne_div_0.
    - eexists. split; [f_equal; lia|].
      apply (round_shr (Zpos m) p). lia. }
  destruct E as (mrs & E0 & E2). rewrite E0, E2.
  apply second_stage; [exact Hfm | lia | intros H; specialize (Hq2 H); lia].
Qed.

Lemma valid_finite_bounds (s : bool) (m : positive) (e : Z) :
  F32.valid (S754_finite s m e) = true ->
  -149 <= e <= 104 /\ Zpos m < 2 ^ 24 /\ (-149 < e -> 2 ^ 23 <= Zpos m) /\
  fexp32 (Zpos (digits2_pos m) + e) = e.
Proof.
  unfold F32.valid, valid_binary, bounded, canonical_mantissa. rewrite fexp32_eq.
  intros H. apply andb_prop in H as [H1 H2].
  apply Z.eqb_eq in H1. apply Z.leb_le in H2. change (128 - 24) with 104 in H2.
  pose proof (digits2_bounds m) as [Hlo Hhi].
  set (d := Zpos (digits2_pos m)) in *. unfold fexp32 in H1.
  assert (Hd : d <= 24) by lia.
  assert (2 ^ d <= 2 ^ 24) by (apply Z.pow_le_mono_r; lia).
  repeat split; try lia.
  - intros He. assert (d = 24) by lia. subst d. rewrite H0 in Hlo. exact Hlo.
  - unfold fexp32. exact H1.
Qed.

Lemma ord_finite_range (s : bool) (m : positive) (e : Z) :
  F32.valid (S754_finite s m e) = true ->
  0 < (e + 149) * 2 ^ 23 + Zpos m < cap.
Proof.
  intros H. destruct (valid_finite_bounds s m e H) as (He & Hm & _). pow_consts. lia.
Qed.

Lemma compare_finite (m1 m2 : positive) (e1 e2 : Z) :
  F32.valid (S754_finite false m1 e1) = true ->
  F32.valid (S754_finite false m2 e2) = true ->
  match e1 ?= e2 with
  | Lt => Lt
  | Gt => Gt
  | Eq => Pos.compare_cont Eq m1 m2
  end = ((e1 + 149) * 2 ^ 23 + Zpos m1 ?= (e2 + 149) * 2 ^ 23 + Zpos m2).
Proof.
  intros H1 H2.
  destruct (valid_finite_bounds _ _ _ H1) as (He1 & Hm1 & Hn1 & _).
  destruct (valid_finite_bounds _ _ _ H2) as (He2 & Hm2 & Hn2 & _).
  pow_consts.
  destruct (Z.compare_spec e1 e2) as [->|Hlt|Hgt].
  - rewrite Z.add_compare_mono_l. reflexivity.
  - symmetry. apply Z.compare_lt_iff. specialize (Hn2 ltac:(lia)). lia.
  - symmetry. apply Z.compare_gt_iff. specialize (Hn1 ltac:(lia)). lia.
Qed.

(** On valid numbers, [SFcompare] is the comparison of positions. *)
Lemma SFcompare_ord (x y : spec_float) :
  F32.valid x = true -> F32.valid y = true -> is_nan x = false -> is_nan y = false ->
  SFcompare x y = Some (ord x ?= ord y).
Proof.
  intros Hx Hy Nx Ny.
  destruct x as [sx|sx| |sx mx ex], y as [sy|sy| |sy my ey];
    try discriminate; cbn [SFcompare ord].
  - reflexivity.
  - destruct sy; reflexivity.
  - pose proof (ord_finite_range _ _ _ Hy). f_equal. symmetry.
    destruct sy; cbn [cond_Zopp]; [apply Z.compare_gt_iff | apply Z.compare_lt_iff]; lia.
  - destruct sx; reflexivity.
  - destruct sx, sy; reflexivity.
  - pose proof (ord_finite_range _ _ _ Hy). pow_consts. f_equal. symmetry.
    destruct sx, sy; cbn [cond_Zopp];
      (apply Z.compare_lt_iff; lia) || (apply Z.compare_gt_iff; lia).
  - pose proof (ord_finite_range _ _ _ Hx). f_equal. symmetry.
    destruct sx; cbn [cond_Zopp]; [apply Z.compare_lt_iff | apply Z.compare_gt_iff]; lia.
  - pose proof (ord_finite_range _ _ _ Hx). pow_consts. f_equal. symmetry.
    destruct sx, sy; cbn [cond_Zopp];
      (apply Z.compare_lt_iff; lia) || (apply Z.compare_gt_iff; lia).
  - pose proof (ord_finite_range _ _ _ Hx). pose proof (ord_finite_range _ _ _ Hy).
    f_equal. destruct sx, sy; cbn [cond_Zopp].
    + rewrite Z.compare_opp.
      rewrite (Z.compare_antisym ((ex + 149) * 2 ^ 23 + Zpos mx)).
      rewrite <- (compare_finite mx my ex ey) by assumption.
      destruct (ex ?= ey); reflexivity.
    + symmetry. apply Z.compare_lt_iff. lia.
    + symmetry. apply Z.compare_gt_iff. lia.
    + apply compare_finite; assumption.
Qed.

Lemma SFleb_ord (x y : spec_float) :
  F32.valid x = true -> F32.valid y = true -> is_nan x = false -> is_nan y = false ->
  SFleb x y = (ord x <=? ord y).
Proof.
  intros Hx Hy Nx Ny. unfold SFleb. rewrite SFcompare_ord by assumption.
  unfold Z.leb. destruct (ord x ?= ord y); reflexivity.
Qed.

Lemma fexp_of_pos (e : Z) (m : positive) :
  fexp_of e (Zpos m) = fexp32 (Zpos (digits2_pos m) + e).
Proof. unfold fexp_of. now rewrite digits2_log2. Qed.

Lemma binary_round_aux_rnd (s : bool) (m : positive) (e : Z) :
  e <= fexp_of e (Zpos m) ->
  binary_round_aux 24 128 s (Zpos m) e loc_Exact = rnd s e (Zpos m).
Proof.
  intros H. unfold rnd. rewrite fexp_of_pos in *. now apply binary_round_aux_exact.
Qed.

Lemma rounded_bounds (e N : Z) :
  0 < N -> e <= fexp_of e N ->
  -149 <= fexp_of e N /\
  0 <= rne_div N (fexp_of e N - e) <= 2 ^ 24 /\
  (-149 < fexp_of e N -> 2 ^ 23 <= rne_div N (fexp_of e N - e)).
Proof.
  intros HN Hf. destruct N as [|m|m]; try lia.
  rewrite fexp_of_pos in *.
  pose proof (quotient_bounds m e Hf) as [[Hq0 Hq1] Hq2].
  pose proof (rne_div_bounds (Zpos m) (fexp32 (Zpos (digits2_pos m) + e) - e) ltac:(lia)).
  split; [unfold fexp32; lia|]. split; [lia|]. intros H1. specialize (Hq2 H1). lia.
Qed.

Lemma encode_props (s : bool) (q f : Z) :
  -149 <= f -> 0 <= q <= 2 ^ 24 -> (-149 < f -> 2 ^ 23 <= q) ->
  ord (encode s q f) = cond_Zopp s (Z.min ((f + 149) * 2 ^ 23 + q) cap) /\
  F32.valid (encode s q f) = true /\
  is_nan (encode s q f) = false.
Proof.
  intros Hf Hq Hn. unfold encode.
  destruct (Z.eqb_spec q (2 ^ 24)) as [->|Hne].
  - change (2 ^ 23) with (Zpos 8388608). cbn [finish].
    destruct (Z.leb_spec (f + 1) 104).
    + cbn [ord is_nan]. split; [|split; [|reflexivity]].
      * f_equal. pow_consts. lia.
      * unfold F32.valid, valid_binary, bounded, canonical_mantissa.
        rewrite fexp32_eq. change (Zpos (digits2_pos 8388608)) with 24.
        unfold fexp32. apply andb_true_intro. split; [apply Z.eqb_eq | apply Z.leb_le]; lia.
    + cbn [ord is_nan]. split; [|split; reflexivity]. f_equal. pow_consts. lia.
  - destruct q as [|p|p]; [| |lia]; cbn [finish].
    + cbn [ord is_nan]. split; [|split; reflexivity].
      assert (f = -149).
      { destruct (Z.eq_dec f (-149)); [assumption|]. specialize (Hn ltac:(lia)).
        pow_consts. lia. }
      subst f. destruct s; reflexivity.
    + assert (Hp : Zpos p < 2 ^ 24) by lia.
      assert (Hd : Zpos (digits2_pos p) <= 24) by (apply digits_small; lia).
      assert (Hd' : -149 < f -> 24 <= Zpos (digits2_pos p)).
      { intros H. apply (digits_large p 23); [lia|]. apply Hn, H. }
      destruct (Z.leb_spec f 104).
      * cbn [ord is_nan]. split; [|split; [|reflexivity]].
        -- f_equal. pow_consts. lia.
        -- unfold F32.valid, valid_binary, bounded, canonical_mantissa.
           rewrite fexp32_eq. unfold fexp32.
           apply andb_true_intro. split; [apply Z.eqb_eq | apply Z.leb_le]; lia.
      * cbn [ord is_nan]. split; [|split; reflexivity]. f_equal.
        specialize (Hn ltac:(lia)). pow_consts. lia.
Qed.

Lemma rnd_props (s : bool) (e N : Z) :
  0 < N -> e <= fexp_of e N ->
  ord (rnd s e N) = cond_Zopp s (Z.min (raw e N) cap) /\
  F32.valid (rnd s e N) = true /\
  is_nan (rnd s e N) = false.
Proof.
  intros HN Hf. destruct (rounded_bounds e N HN Hf) as (H1 & H2 & H3).
  unfold rnd, raw. now apply encode_props.
Qed.

(** Rounding depends on the value only, not on how it is written. *)
Lemma rne_div_scale (N t k : Z) :
  0 <= t -> 0 <= k -> rne_div (N * 2 ^ k) (t + k) = rne_div N t.
Proof.
  intros Ht Hk. unfold rne_div.
  rewrite Z.pow_add_r by lia.
  assert (0 < 2 ^ t) by (apply Z.pow_pos_nonneg; lia).
  assert (0 < 2 ^ k) by (apply Z.pow_pos_nonneg; lia).
  rewrite Z.div_mul_cancel_r by lia.
  rewrite Z.mul_mod_distr_r by lia.
  replace (2 * (N mod 2 ^ t * 2 ^ k)) with (2 * (N mod 2 ^ t) * 2 ^ k) by ring.
  destruct (Z.compare_spec (2 * (N mod 2 ^ t)) (2 ^ t)) as [E|E|E].
  - rewrite E, Z.compare_refl. reflexivity.
  - replace (2 * (N mod 2 ^ t) * 2 ^ k ?= 2 ^ t * 2 ^ k) with Lt; [reflexivity|].
    symmetry. apply Z.compare_lt_iff. nia.
  - replace (2 * (N mod 2 ^ t) * 2 ^ k ?= 2 ^ t * 2 ^ k) with Gt; [reflexivity|].
    symmetry. apply Z.compare_gt_iff. nia.
Qed.

Lemma fexp_of_scale (e N k : Z) :
  0 < N -> 0 <= k -> fexp_of (e - k) (N * 2 ^ k) = fexp_of e N.
Proof.
  intros HN Hk. unfold fexp_of. rewrite Z.log2_mul_pow2 by lia. f_equal. lia.
Qed.

Lemma rnd_scale (s : bool) (e N k : Z) :
  0 < N -> 0 <= k -> e <= fexp_of e N ->
  rnd s (e - k) (N * 2 ^ k) = rnd s e N.
Proof.
  intros HN Hk Hf. unfold rnd. rewrite fexp_of_scale by assumption.
  replace (fexp_of e N - (e - k)) with (fexp_of e N - e + k) by lia.
  rewrite rne_div_scale by lia. reflexivity.
Qed.

Lemma raw_scale (e N k : Z) :
  0 < N -> 0 <= k -> e <= fexp_of e N ->
  raw (e - k) (N * 2 ^ k) = raw e N.
Proof.
  intros HN Hk Hf. unfold raw. rewrite fexp_of_scale by assumption.
  replace (fexp_of e N - (e - k)) with (fexp_of e N - e + k) by lia.
  rewrite rne_div_scale by lia. reflexivity.
Qed.

Lemma rne_div_mono (N1 N2 t : Z) :
  0 <= t -> N1 <= N2 -> rne_div N1 t <= rne_div N2 t.
Proof.
  intros Ht Hle.
  assert (Hp : 0 < 2 ^ t) by (apply Z.pow_pos_nonneg; lia).
  pose proof (Z.div_le_mono N1 N2 (2 ^ t) Hp Hle) as Hq.
  pose proof (rne_div_bounds N1 t Ht) as H1. pose proof (rne_div_bounds N2 t Ht) as H2.
  destruct (Z.eq_dec (N1 / 2 ^ t) (N2 / 2 ^ t)) as [E|E]; [|lia].
  pose proof (Z.div_mod N1 (2 ^ t) ltac:(lia)) as D1.
  pose proof (Z.div_mod N2 (2 ^ t) ltac:(lia)) as D2.
  assert (Hr : N1 mod 2 ^ t <= N2 mod 2 ^ t) by (rewrite E in D1; lia).
  unfold rne_div. rewrite E.
  destruct (Z.compare_spec (2 * (N1 mod 2 ^ t)) (2 ^ t)),
           (Z.compare_spec (2 * (N2 mod 2 ^ t)) (2 ^ t));
    try lia; destruct (Z.even (N2 / 2 ^ t)); lia.
Qed.

Lemma raw_mono (e N1 N2 : Z) :
  0 < N1 -> N1 <= N2 -> e <= fexp_of e N1 ->
  raw e N1 <= raw e N2.
Proof.
  intros HN Hle Hf1.
  assert (Hff : fexp_of e N1 <= fexp_of e N2).
  { unfold fexp_of, fexp32. pose proof (Z.log2_le_mono N1 N2 Hle). lia. }
  assert (Hf2 : e <= fexp_of e N2) by lia.
  destruct (rounded_bounds e N1 HN Hf1) as (Ha1 & Hb1 & Hc1).
  destruct (rounded_bounds e N2 ltac:(lia) Hf2) as (Ha2 & Hb2 & Hc2).
  unfold raw. destruct (Z.eq_dec (fexp_of e N1) (fexp_of e N2)) as [E|E].
  - rewrite E. pose proof (rne_div_mono N1 N2 (fexp_of e N2 - e) ltac:(lia) Hle). lia.
  - specialize (Hc2 ltac:(lia)). pow_consts. lia.
Qed.

Lemma fexp_of_300 (N : Z) : -300 <= fexp_of (-300) N.
Proof. unfold fexp_of, fexp32. lia. Qed.

Lemma raw_nonneg (N : Z) : 0 < N -> 0 <= raw (-300) N.
Proof.
  intros HN. destruct (rounded_bounds (-300) N HN (fexp_of_300 N)) as (H1 & H2 & _).
  unfold raw. pow_consts. lia.
Qed.

Lemma Rz_mono (S1 S2 : Z) : S1 <= S2 -> Rz S1 <= Rz S2.
Proof.
  intros H. unfold Rz.
  destruct S1 as [|p1|p1], S2 as [|p2|p2]; try lia;
    try (pose proof (raw_nonneg (Zpos p1) ltac:(lia)));
    try (pose proof (raw_nonneg (Zpos p2) ltac:(lia))); pow_consts; try lia.
  - pose proof (raw_mono (-300) (Zpos p1) (Zpos p2) ltac:(lia) H (fexp_of_300 _)). lia.
  - pose proof (raw_mono (-300) (Zpos p2) (Zpos p1) ltac:(lia) ltac:(lia) (fexp_of_300 _)).
    lia.
Qed.

Lemma rndz_props (v : Z) :
  ord (rndz v) = Rz v /\ F32.valid (rndz v) = true /\ is_nan (rndz v) = false.
Proof.
  destruct v as [|p|p]; cbn [rndz Rz].
  - repeat split.
  - apply (rnd_props false (-300) (Zpos p)); [lia | apply fexp_of_300].
  - apply (rnd_props true (-300) (Zpos p)); [lia | apply fexp_of_300].
Qed.

Lemma rnd_300 (s : bool) (e N : Z) :
  0 < N -> -300 <= e -> e <= fexp_of e N ->
  rnd s e N = rnd s (-300) (N * 2 ^ (e + 300)).
Proof.
  intros HN He Hf. rewrite <- (rnd_scale s e N (e + 300)) by lia.
  f_equal. lia.
Qed.

Lemma raw_300 (e N : Z) :
  0 < N -> -300 <= e -> e <= fexp_of e N ->
  raw e N = raw (-300) (N * 2 ^ (e + 300)).
Proof.
  intros HN He Hf. rewrite <- (raw_scale e N (e + 300)) by lia.
  f_equal. lia.
Qed.

Lemma iter_xO (m d : positive) : Zpos (Pos.iter xO m d) = Zpos m * 2 ^ Zpos d.
Proof.
  induction d as [|d IH] using Pos.peano_ind.
  - cbn [Pos.iter]. change (2 ^ 1) with 2. lia.
  - rewrite Pos.iter_succ, Pos2Z.inj_succ, Z.pow_succ_r by lia.
    rewrite Pos2Z.inj_xO, IH. ring.
Qed.

Lemma shl_align_spec (m : positive) (e e' : Z) :
  let '(mz, ez) := shl_align m e e' in
  ez = Z.min e e' /\ Zpos mz = Zpos m * 2 ^ (e - ez).
Proof.
  unfold shl_align. destruct (e' - e) as [|d|d] eqn:E.
  - split; [lia|]. replace (e - e) with 0 by lia. change (2 ^ 0) with 1. lia.
  - split; [lia|]. replace (e - e) with 0 by lia. change (2 ^ 0) with 1. lia.
  - split; [lia|]. rewrite iter_xO. f_equal. f_equal. lia.
Qed.

(** [binary_round] rounds the value it is given. *)
Lemma binary_round_rnd (s : bool) (m : positive) (e : Z) :
  -300 <= e ->
  binary_round 24 128 s m e = rnd s (-300) (Zpos m * 2 ^ (e + 300)).
Proof.
  intros He. unfold binary_round. rewrite fexp32_eq, <- fexp_of_pos.
  pose proof (shl_align_spec m e (fexp_of e (Zpos m))) as H.
  destruct (shl_align m e (fexp_of e (Zpos m))) as [mz ez]. destruct H as [Hez Hmz].
  assert (Hk : 0 <= e - ez) by lia.
  assert (Hf : fexp_of ez (Zpos mz) = fexp_of e (Zpos m)).
  { rewrite Hmz. replace ez with (e - (e - ez)) at 1 by lia.
    apply fexp_of_scale; lia. }
  assert (Hz : -300 <= ez) by (pose proof (fexp_of_300 0); unfold fexp_of, fexp32 in *; lia).
  rewrite binary_round_aux_rnd by lia.
  rewrite rnd_300 by lia. f_equal. rewrite Hmz, <- Z.mul_assoc, <- Z.pow_add_r by lia.
  f_equal. f_equal. lia.
Qed.

Lemma binary_round_aux_300 (s : bool) (m : positive) (e : Z) :
  -300 <= e -> e <= fexp_of e (Zpos m) ->
  binary_round_aux 24 128 s (Zpos m) e loc_Exact = rnd s (-300) (Zpos m * 2 ^ (e + 300)).
Proof.
  intros He Hf. rewrite binary_round_aux_rnd by exact Hf. apply rnd_300; lia.
Qed.

Lemma binary_normalize_rndz (mant e : Z) :
  -300 <= e ->
  binary_normalize 24 128 mant e false = rndz (mant * 2 ^ (e + 300)).
Proof.
  intros He. assert (0 < 2 ^ (e + 300)) by (apply Z.pow_pos_nonneg; lia).
  destruct mant as [|p|p]; cbn [binary_normalize].
  - reflexivity.
  - rewrite binary_round_rnd by exact He.
    destruct (Zpos p * 2 ^ (e + 300)) eqn:E; try lia. reflexivity.
  - rewrite binary_round_rnd by exact He.
    destruct (Zneg p * 2 ^ (e + 300)) as [|q|q] eqn:E; try lia. cbn [rndz].
    f_equal. lia.
Qed.

(** A valid number is the rounding of its own value. *)
Lemma ord_sval (x : spec_float) :
  F32.valid x = true -> finite_or_zero x = true -> ord x = Rz (sval x).
Proof.
  intros Hv Hf. destruct x as [s|s| |s m e]; try discriminate; [reflexivity|].
  destruct (valid_finite_bounds s m e Hv) as (He & Hm & Hn & Hc).
  pose proof (ord_finite_range s m e Hv) as Hr.
  assert (Hp : 0 < 2 ^ (e + 300)) by (apply Z.pow_pos_nonneg; lia).
  assert (Hraw : raw (-300) (Zpos m * 2 ^ (e + 300)) = (e + 149) * 2 ^ 23 + Zpos m).
  { rewrite <- raw_300; [|lia|lia|rewrite fexp_of_pos; lia].
    unfold raw. rewrite fexp_of_pos, Hc. replace (e - e) with 0 by lia.
    now rewrite rne_div_0. }
  cbn [ord sval]. destruct s; cbn [cond_Zopp].
  - destruct (- (Zpos m * 2 ^ (e + 300))) as [|q|q] eqn:E; try lia. cbn [Rz].
    replace (Zpos q) with (Zpos m * 2 ^ (e + 300)) by lia. rewrite Hraw. lia.
  - destruct (Zpos m * 2 ^ (e + 300)) as [|q|q] eqn:E; try lia. cbn [Rz].
    rewrite Hraw. lia.
Qed.

(** Positions and values order valid numbers the same way. *)
Lemma ord_inj (a b : spec_float) :
  F32.valid a = true -> F32.valid b = true ->
  finite_or_zero a = true -> finite_or_zero b = true ->
  ord a = ord b -> sval a = sval b.
Proof.
  intros Va Vb Fa Fb.
  destruct a as [sa|sa| |sa ma ea], b as [sb|sb| |sb mb eb]; try discriminate;
    cbn [ord sval]; intros E;
    try (pose proof (ord_finite_range _ _ _ Va) as Ra);
    try (pose proof (ord_finite_range _ _ _ Vb) as Rb).
  - reflexivity.
  - destruct sb; cbn [cond_Zopp] in E; lia.
  - destruct sa; cbn [cond_Zopp] in E; lia.
  - destruct (valid_finite_bounds _ _ _ Va) as (Hea & Hma & Hna & _).
    destruct (valid_finite_bounds _ _ _ Vb) as (Heb & Hmb & Hnb & _).
    assert (sa = sb) by (destruct sa, sb; cbn [cond_Zopp] in E; trivial; lia).
    subst sb.
    assert (E' : (ea + 149) * 2 ^ 23 + Zpos ma = (eb + 149) * 2 ^ 23 + Zpos mb)
      by (destruct sa; cbn [cond_Zopp] in E; lia).
    pow_consts.
    assert (ea = eb).
    { destruct (Z.lt_trichotomy ea eb) as [H|[H|H]]; [|exact H|].
      - specialize (Hnb ltac:(lia)). lia.
      - specialize (Hna ltac:(lia)). lia. }
    subst eb. assert (Zpos ma = Zpos mb) by lia. congruence.
Qed.

Lemma sval_le_of_ord (a b : spec_float) :
  F32.valid a = true -> F32.valid b = true ->
  finite_or_zero a = true -> finite_or_zero b = true ->
  ord a <= ord b -> sval a <= sval b.
Proof.
  intros Va Vb Fa Fb H.
  destruct (Z.le_gt_cases (sval a) (sval b)) as [|Hgt]; [assumption|].
  pose proof (Rz_mono (sval b) (sval a) ltac:(lia)) as Hm.
  rewrite <- !ord_sval in Hm by assumption.
  assert (E : ord a = ord b) by lia.
  pose proof (ord_inj a b Va Vb Fa Fb E). lia.
Qed.

Lemma finite_of_ord (x : spec_float) :
  is_nan x = false -> - cap < ord x < cap -> finite_or_zero x = true.
Proof.
  destruct x as [s|s| |s m e]; try reflexivity; try discriminate.
  intros _. cbn [ord]. destruct s; cbn [cond_Zopp]; lia.
Qed.

(** ** Addition *)

Lemma fst_shl_align (m : positive) (e ez : Z) :
  ez <= e -> Zpos (fst (shl_align m e ez)) = Zpos m * 2 ^ (e - ez).
Proof.
  intros H. pose proof (shl_align_spec m e ez) as Hs.
  destruct (shl_align m e ez) as [mz ez']. destruct Hs as [Hz Hm]. cbn [fst].
  rewrite Hm, Hz. f_equal. f_equal. lia.
Qed.

Lemma cond_Zopp_mul (s : bool) (a b : Z) : cond_Zopp s a * b = cond_Zopp s (a * b).
Proof. destruct s; cbn [cond_Zopp]; ring. Qed.

Lemma SFadd_finite (sx sy : bool) (mx my : positive) (ex ey : Z) :
  -149 <= ex -> -149 <= ey ->
  SFadd 24 128 (S754_finite sx mx ex) (S754_finite sy my ey) =
  rndz (sval (S754_finite sx mx ex) + sval (S754_finite sy my ey)).
Proof.
  intros Hx Hy. cbn [SFadd sval].
  rewrite binary_normalize_rndz by lia. f_equal.
  rewrite Z.mul_add_distr_r, !cond_Zopp_mul.
  rewrite !fst_shl_align by lia.
  rewrite <- !Z.mul_assoc, <- !Z.pow_add_r by lia.
  f_equal; f_equal; f_equal; f_equal; lia.
Qed.

Lemma add_props (x y : spec_float) :
  F32.valid x = true -> F32.valid y = true ->
  finite_or_zero x = true -> finite_or_zero y = true ->
  ord (SFadd 24 128 x y) = Rz (sval x + sval y) /\
  F32.valid (SFadd 24 128 x y) = true /\
  is_nan (SFadd 24 128 x y) = false.
Proof.
  intros Vx Vy Fx Fy.
  destruct x as [sx|sx| |sx mx ex], y as [sy|sy| |sy my ey]; try discriminate.
  - destruct sx, sy; repeat split.
  - cbn [SFadd sval]. rewrite Z.add_0_l. split; [|split; [exact Vy|reflexivity]].
    apply (ord_sval (S754_finite sy my ey)); assumption.
  - cbn [SFadd sval]. rewrite Z.add_0_r. split; [|split; [exact Vx|reflexivity]].
    apply (ord_sval (S754_finite sx mx ex)); assumption.
  - destruct (valid_finite_bounds _ _ _ Vx) as (Hex & _).
    destruct (valid_finite_bounds _ _ _ Vy) as (Hey & _).
    rewrite SFadd_finite by lia. apply rndz_props.
Qed.

Lemma SFsub_SFadd (x y : spec_float) :
  SFsub 24 128 x y = SFadd 24 128 x (SFopp y).
Proof.
  destruct x as [sx|sx| |sx mx ex], y as [sy|sy| |sy my ey]; cbn [SFsub SFadd SFopp];
    try reflexivity; destruct sx, sy; reflexivity.
Qed.

(** ** Multiplication by 0.25 *)

Lemma mul_quarter_props (x : spec_float) :
  F32.valid x = true -> finite_or_zero x = true -> 0 <= ord x ->
  ord (SFmul 24 128 x quarter) = Rz (sval x / 4) /\
  F32.valid (SFmul 24 128 x quarter) = true /\
  is_nan (SFmul 24 128 x quarter) = false /\
  4 * (sval x / 4) = sval x.
Proof.
  intros Vx Fx Ox. destruct x as [s|s| |s m e]; try discriminate.
  - cbn. repeat split.
  - pose proof (ord_finite_range _ _ _ Vx) as Hr.
    destruct s; [cbn [ord cond_Zopp] in Ox; lia|].
    destruct (valid_finite_bounds _ _ _ Vx) as (He & Hm & Hn & _).
    assert (Hs : sval (S754_finite false m e) = 4 * (Zpos m * 2 ^ (e + 298))).
    { cbn [sval cond_Zopp]. replace (e + 300) with (e + 298 + 2) by lia.
      rewrite Z.pow_add_r by lia. change (2 ^ 2) with 4. ring. }
    rewrite Hs. replace (4 * (Zpos m * 2 ^ (e + 298)) / 4) with (Zpos m * 2 ^ (e + 298))
      by (apply Z.div_unique_exact; lia).
    assert (Hp : 0 < 2 ^ (e + 298)) by (apply Z.pow_pos_nonneg; lia).
    unfold quarter. cbn [SFmul xorb].
    rewrite binary_round_aux_300.
    + replace (Zpos (m * 8388608) * 2 ^ (e + -25 + 300)) with (Zpos m * 2 ^ (e + 298)).
      * destruct (Zpos m * 2 ^ (e + 298)) as [|p|p] eqn:E; try lia.
        pose proof (rndz_props (Zpos p)) as H. cbn [rndz] in H.
        destruct H as (H1 & H2 & H3). repeat split; assumption.
      * rewrite Pos2Z.inj_mul. replace (e + 298) with (23 + (e + -25 + 300)) by lia.
        rewrite Z.pow_add_r by lia. change (2 ^ 23) with 8388608. ring.
    + lia.
    + unfold fexp_of, fexp32. rewrite Pos2Z.inj_mul.
      assert (23 <= Z.log2 (Zpos m * 8388608)).
      { apply Z.log2_le_pow2; [lia|]. change (2 ^ 23) with 8388608. lia. }
      lia.
Qed.

(** ** Rounding with a location *)

Lemma shr_record_of_loc_iter (q : Z) (l : location) :
  0 <= q ->
  shr_record_of_loc q l =
  Nat.iter 2 shr_1 (Build_shr_record (4 * q + loc_code l) false false).
Proof.
  intros Hq. cbn [Nat.iter nat_rect].
  assert (Hc : 0 <= loc_code l <= 3) by (destruct l as [|[]]; cbn; lia).
  rewrite shr_1_nonneg by lia.
  assert (H2 : Z.div2 (4 * q + loc_code l) = 2 * q + loc_code l / 2).
  { rewrite Z.div2_div. Z.div_mod_to_equations. lia. }
  rewrite H2. rewrite shr_1_nonneg by (Z.div_mod_to_equations; lia).
  assert (H3 : Z.div2 (2 * q + loc_code l / 2) = q).
  { rewrite Z.div2_div. Z.div_mod_to_equations. lia. }
  rewrite H3.
  replace (2 * q + loc_code l / 2) with (loc_code l / 2 + 2 * q) by lia.
  replace (4 * q + loc_code l) with (loc_code l + 2 * (2 * q)) by lia.
  rewrite !Z.odd_add_mul_2.
  destruct l as [|[]]; reflexivity.
Qed.

Lemma iter_pos_add2 (p : positive) (N : Z) :
  iter_pos shr_1 p (Nat.iter 2 shr_1 (Build_shr_record N false false)) =
  iter_pos shr_1 (p + 2) (Build_shr_record N false false).
Proof.
  rewrite !iter_pos_nat, Pos2Nat.inj_add, Nat.iter_add. reflexivity.
Qed.

(** [binary_round_aux] on a quotient [q] with a location rounds the integer
    [4 q + code] at an exponent lower by two. *)
Lemma binary_round_aux_loc (s : bool) (q e : Z) (l : location) :
  0 <= q -> 0 < 4 * q + loc_code l ->
  e <= fexp32 (Zdigits2 q + e) ->
  fexp_of (e - 2) (4 * q + loc_code l) = fexp32 (Zdigits2 q + e) ->
  binary_round_aux 24 128 s q e l = rnd s (e - 2) (4 * q + loc_code l).
Proof.
  intros Hq HN Hf HfN. set (N := 4 * q + loc_code l) in *.
  set (f := fexp32 (Zdigits2 q + e)) in *.
  destruct (rounded_bounds (e - 2) N HN ltac:(lia)) as (H1 & H2 & H3).
  rewrite HfN in H1, H2, H3.
  unfold rnd. rewrite HfN.
  unfold binary_round_aux.
  assert (E : exists mrs, shr_fexp 24 128 q e l = (mrs, f) /\
              round_nearest_even (shr_m mrs) (loc_of_shr_record mrs) =
              rne_div N (f - (e - 2))).
  { unfold shr_fexp. rewrite fexp32_eq. fold f. unfold shr.
    rewrite shr_record_of_loc_iter by exact Hq. fold N.
    destruct (f - e) as [|p|p] eqn:Ht; [| |lia].
    - eexists. split; [f_equal; lia|].
      replace (f - (e - 2)) with (Zpos 2) by lia.
      rewrite <- (round_shr N 2) by lia. rewrite iter_pos_nat. reflexivity.
    - eexists. split; [f_equal; lia|].
      rewrite iter_pos_add2. replace (f - (e - 2)) with (Zpos (p + 2)) by lia.
      apply round_shr. lia. }
  destruct E as (mrs & E0 & E2). rewrite E0, E2.
  apply second_stage; assumption.
Qed.

(** ** Division *)

Lemma new_location_code (nb k : Z) :
  0 <= loc_code (new_location nb k) <= 3 /\
  (k = 0 -> loc_code (new_location nb k) = 0) /\
  (k <> 0 -> 1 <= loc_code (new_location nb k)).
Proof.
  unfold new_location, new_location_even, new_location_odd.
  destruct (Z.even nb); destruct (Z.eqb_spec k 0) as [E|E]; cbn [loc_code];
    try (repeat split; intros; lia).
  - destruct (2 * k ?= nb); cbn; repeat split; intros; lia.
  - destruct (2 * k + 1 ?= nb); cbn; repeat split; intros; lia.
Qed.

Lemma log2_quad (q c : Z) : 0 < q -> 0 <= c <= 3 -> Z.log2 (4 * q + c) = Z.log2 q + 2.
Proof.
  intros Hq Hc. pose proof (Z.log2_spec q Hq) as [Hlo Hhi].
  pose proof (Z.log2_nonneg q) as Hl.
  apply Z.log2_unique; [lia|].
  replace (Z.succ (Z.log2 q + 2)) with (Z.succ (Z.log2 q) + 2) by lia.
  rewrite !Z.pow_add_r by lia. change (2 ^ 2) with 4. lia.
Qed.

Lemma Zdigits2_log2 (q : Z) : 0 < q -> Zdigits2 q = Z.log2 q + 1.
Proof. intros H. destruct q as [|p|p]; try lia. cbn [Zdigits2]. apply digits2_log2. Qed.

Lemma exponent_le_of_value_le (mx my : positive) (ex ey : Z) :
  F32.valid (S754_finite false mx ex) = true ->
  F32.valid (S754_finite false my ey) = true ->
  Zpos mx * 2 ^ (ex + 300) <= Zpos my * 2 ^ (ey + 300) ->
  ex <= ey.
Proof.
  intros Vx Vy H.
  destruct (valid_finite_bounds _ _ _ Vx) as (Hex & Hmx & Hnx & _).
  destruct (valid_finite_bounds _ _ _ Vy) as (Hey & Hmy & Hny & _).
  destruct (Z.le_gt_cases ex ey) as [|Hgt]; [assumption|exfalso].
  specialize (Hnx ltac:(lia)).
  assert (Hp : 0 < 2 ^ (ey + 300)) by (apply Z.pow_pos_nonneg; lia).
  assert (Hq : 2 * 2 ^ (ey + 300) <= 2 ^ (ex + 300)).
  { rewrite <- Z.pow_succ_r by lia. apply Z.pow_le_mono_r; lia. }
  pow_consts. nia.
Qed.

(** The quotient of two positive numbers, the first not above the second,
    is the rounding of a value of at most one. *)
Lemma SFdiv_le_one (mx my : positive) (ex ey : Z) :
  F32.valid (S754_finite false mx ex) = true ->
  F32.valid (S754_finite false my ey) = true ->
  Zpos mx * 2 ^ (ex + 300) <= Zpos my * 2 ^ (ey + 300) ->
  exists N : Z,
    0 < N <= 2 ^ 300 /\
    SFdiv 24 128 (S754_finite false mx ex) (S754_finite false my ey) = rnd false (-300) N.
Proof.
  intros Vx Vy Hle.
  pose proof (exponent_le_of_value_le mx my ex ey Vx Vy Hle) as Hexy.
  destruct (valid_finite_bounds _ _ _ Vx) as (Hex & Hmx & Hnx & _).
  destruct (valid_finite_bounds _ _ _ Vy) as (Hey & Hmy & Hny & _).
  pose proof (digits2_bounds mx) as [Hlx Hhx]. pose proof (digits2_bounds my) as [Hly Hhy].
  cbn [SFdiv xorb]. unfold SFdiv_core_binary. rewrite !Zdigits2_pos, fexp32_eq.
  set (d1 := Zpos (digits2_pos mx)) in *. set (d2 := Zpos (digits2_pos my)) in *.
  set (D := d1 + ex - (d2 + ey)).
  set (e' := Z.min (fexp32 D) (ex - ey)).
  assert (He'lo : -253 <= e') by (subst e'; unfold fexp32; lia).
  assert (He'hi : e' <= 0) by (subst e'; lia).
  set (s := ex - ey - e').
  assert (Hs : 0 <= s) by (subst s e'; lia).
  set (m' := match s with Z0 => Zpos mx | Zpos _ => Z.shiftl (Zpos mx) s | Zneg _ => 0 end).
  assert (Hm' : m' = Zpos mx * 2 ^ s).
  { subst m'. destruct s as [|p|p] eqn:Es; [change (2 ^ 0) with 1; lia | | lia].
    apply Z.shiftl_mul_pow2. lia. }
  assert (Hps : 0 < 2 ^ s) by (apply Z.pow_pos_nonneg; lia).
  assert (Hm'pos : 0 < m') by (rewrite Hm'; lia).
  destruct (Z.div_eucl m' (Zpos my)) as [q r] eqn:Ediv.
  assert (Hq : q = m' / Zpos my) by (unfold Z.div; now rewrite Ediv).
  assert (Hr : r = m' mod Zpos my) by (unfold Z.modulo; now rewrite Ediv).
  pose proof (Z.div_mod m' (Zpos my) ltac:(lia)) as Hdm.
  pose proof (Z.mod_pos_bound m' (Zpos my) ltac:(lia)) as Hrb.
  rewrite <- Hq, <- Hr in Hdm. rewrite <- Hr in Hrb.
  assert (Hq0 : 0 <= q) by (rewrite Hq; apply Z.div_pos; lia).
  cbv beta iota.
  destruct (new_location_code (Zpos my) r) as (Hc & Hc0 & Hc1).
  set (c := loc_code (new_location (Zpos my) r)) in *.
  (* the quotient has the digits of the format when the result is normal *)
  assert (Hnorm : -149 < e' -> 2 ^ 23 <= q).
  { intros Hn. assert (HD : e' <= D - 24) by (subst e'; unfold fexp32 in *; lia).
    assert (Hs' : d2 + 23 <= d1 - 1 + s) by (subst s D; lia).
    rewrite Hq. apply Z.div_le_lower_bound; [lia|].
    assert (2 ^ (d2 + 23) <= 2 ^ (d1 - 1 + s)) by (apply Z.pow_le_mono_r; lia).
    assert (Hd1 : 1 <= d1) by (subst d1; lia). assert (Hd2 : 1 <= d2) by (subst d2; lia).
    rewrite Z.pow_add_r in H by lia. rewrite (Z.pow_add_r 2 (d1 - 1) s) in H by lia.
    rewrite Hm'. nia. }
  assert (HN : 0 < 4 * q + c).
  { destruct (Z.eq_dec r 0) as [Er|Er]; [|specialize (Hc1 Er); lia].
    assert (q <> 0) by (intros ->; lia). lia. }
  assert (Hf : e' <= fexp32 (Zdigits2 q + e')).
  { destruct (Z.le_gt_cases e' (-149)) as [|Hn]; [unfold fexp32; lia|].
    specialize (Hnorm ltac:(lia)). destruct q as [|p|p]; try (pow_consts; lia).
    cbn [Zdigits2]. pose proof (digits_large p 23 ltac:(lia) Hnorm). unfold fexp32. lia. }
  assert (HfN : fexp_of (e' - 2) (4 * q + c) = fexp32 (Zdigits2 q + e')).
  { unfold fexp_of. destruct (Z.eq_dec q 0) as [->|Hq1].
    - assert (e' <= -149).
      { destruct (Z.le_gt_cases e' (-149)); [assumption|].
        specialize (Hnorm ltac:(lia)). pow_consts. lia. }
      assert (Z.log2 (4 * 0 + c) < 2) by (apply Z.log2_lt_pow2; [lia|change (2 ^ 2) with 4; lia]).
      cbn [Zdigits2]. unfold fexp32. lia.
    - rewrite log2_quad, Zdigits2_log2 by lia. f_equal. lia. }
  rewrite (binary_round_aux_loc false q e' (new_location (Zpos my) r) Hq0 HN Hf HfN).
  fold c. rewrite rnd_300 by lia.
  exists ((4 * q + c) * 2 ^ (e' - 2 + 300)). split; [|reflexivity].
  assert (Hp2 : 0 < 2 ^ (e' - 2 + 300)) by (apply Z.pow_pos_nonneg; lia).
  split; [lia|].
  (* the quotient is at most 2^(-e') *)
  assert (Hbound : m' <= Zpos my * 2 ^ (- e')).
  { rewrite Hm'. replace (- e') with (s + (ey - ex)) by (subst s; lia).
    rewrite Z.pow_add_r by lia.
    assert (Hu : Zpos mx <= Zpos my * 2 ^ (ey - ex)).
    { replace (ey + 300) with (ex + 300 + (ey - ex)) in Hle by lia.
      rewrite (Z.pow_add_r 2 (ex + 300) (ey - ex)) in Hle by lia.
      assert (0 < 2 ^ (ex + 300)) by (apply Z.pow_pos_nonneg; lia).
      nia. }
    nia. }
  assert (Hpe : 0 < 2 ^ (- e')) by (apply Z.pow_pos_nonneg; lia).
  assert (Hqle : 4 * q + c <= 4 * 2 ^ (- e')).
  { assert (q <= 2 ^ (- e')) by (rewrite Hq; apply Z.div_le_upper_bound; [lia|exact Hbound]).
    destruct (Z.eq_dec q (2 ^ (- e'))) as [Eq|Ne]; [|lia].
    assert (r = 0) by nia. specialize (Hc0 H0). lia. }
  replace (2 ^ 300) with (4 * 2 ^ (- e') * 2 ^ (e' - 2 + 300)).
  - apply Z.mul_le_mono_nonneg_r; lia.
  - rewrite <- Z.mul_assoc, <- Z.pow_add_r by lia.
    replace (- e' + (e' - 2 + 300)) with 298 by lia. reflexivity.
Qed.

Lemma of_Z_props (n : Z) :
  ord (F32.of_Z n) = Rz (n * 2 ^ 300) /\
  F32.valid (F32.of_Z n) = true /\ is_nan (F32.of_Z n) = false.
Proof.
  unfold F32.of_Z, F32.prec, F32.emax. rewrite binary_normalize_rndz by lia. apply rndz_props.
Qed.

Lemma Rz_nonneg (v : Z) : 0 <= v -> 0 <= Rz v.
Proof. intros H. apply (Rz_mono 0 v H). Qed.

(** What is known of a number between zero and a finite bound. *)
Lemma between_props (x hi : spec_float) :
  F32.valid x = true -> is_nan x = false ->
  F32.valid hi = true -> finite_or_zero hi = true ->
  0 <= ord x <= ord hi ->
  finite_or_zero x = true /\ 0 <= sval x <= sval hi.
Proof.
  intros Vx Nx Vh Fh [H0 H1].
  assert (Hcap : - cap < ord hi < cap).
  { destruct hi as [s|s| |s m e]; try discriminate; cbn [ord].
    - pow_consts; lia.
    - pose proof (ord_finite_range _ _ _ Vh). destruct s; cbn [cond_Zopp]; pow_consts; lia. }
  assert (Fx : finite_or_zero x = true) by (apply finite_of_ord; [assumption | pow_consts; lia]).
  split; [exact Fx|]. split.
  - apply (sval_le_of_ord (S754_zero false) x); try reflexivity; assumption.
  - apply sval_le_of_ord; assumption.
Qed.

Lemma sval_one : sval f1 = 2 ^ 300.
Proof. reflexivity. Qed.

Lemma sval_quarter : sval quarter = 2 ^ 298.
Proof. reflexivity. Qed.

Lemma sval_three_quarters : sval three_quarters = 3 * 2 ^ 298.
Proof. reflexivity. Qed.

(** [a / m] for [0 <= a <= m], [m] positive. *)
Lemma div_unit_props (a m : spec_float) :
  F32.valid a = true -> F32.valid m = true ->
  finite_or_zero a = true -> finite_or_zero m = true ->
  0 <= ord a -> 0 < ord m -> sval a <= sval m ->
  F32.valid (SFdiv 24 128 a m) = true /\
  is_nan (SFdiv 24 128 a m) = false /\
  0 <= ord (SFdiv 24 128 a m) <= ord f1.
Proof.
  intros Va Vm Fa Fm Oa Om Hle.
  assert (Hone : ord f1 = Rz (2 ^ 300)) by (rewrite <- sval_one; now apply ord_sval).
  destruct m as [sm|sm| |sm mm em]; try discriminate.
  pose proof (ord_finite_range _ _ _ Vm) as Rm.
  destruct sm; [cbn [ord cond_Zopp] in Om; lia|].
  destruct a as [sa|sa| |sa ma ea]; try discriminate.
  - cbn [SFdiv]. repeat split; cbn [ord]; try lia. rewrite Hone. apply Rz_nonneg. lia.
  - pose proof (ord_finite_range _ _ _ Va) as Ra.
    destruct sa; [cbn [ord cond_Zopp] in Oa; lia|].
    cbn [sval cond_Zopp] in Hle.
    destruct (SFdiv_le_one ma mm ea em Va Vm Hle) as (N & HN & ->).
    destruct N as [|p|p]; try lia.
    pose proof (rndz_props (Zpos p)) as (H1 & H2 & H3). cbn [rndz] in H1, H2, H3.
    repeat split; try assumption.
    + rewrite H1. apply Rz_nonneg. lia.
    + rewrite H1, Hone. apply Rz_mono. lia.
Qed.

(** [(float) r / RAND_MAX * 0.25f + 0.75f] lies between 0.75 and 1. *)
Lemma unit_interval_scaled (r R : Z) :
  0 <= r <= R -> 0 < R <= 2147483647 ->
  let c := SFadd 24 128 (SFmul 24 128 (SFdiv 24 128 (F32.of_Z r) (F32.of_Z R)) quarter)
             three_quarters in
  SFleb three_quarters c = true /\ SFleb c f1 = true.
Proof.
  intros Hr HR. cbv zeta.
  destruct (of_Z_props r) as (Oa & Va & Na). destruct (of_Z_props R) as (Om & Vm & Nm).
  destruct (of_Z_props 2147483647) as (Ob & Vb & Nb).
  destruct (of_Z_props 1) as (O1 & V1 & N1). fold f1 in O1, V1, N1.
  assert (Hab : ord (F32.of_Z R) <= ord (F32.of_Z 2147483647)).
  { rewrite Om, Ob. apply Rz_mono. lia. }
  assert (H1m : ord f1 <= ord (F32.of_Z R)).
  { rewrite Om, O1. apply Rz_mono. lia. }
  assert (Ham : 0 <= ord (F32.of_Z r) <= ord (F32.of_Z R)).
  { rewrite Oa, Om. split; [apply Rz_nonneg; lia | apply Rz_mono; lia]. }
  assert (Fb : finite_or_zero (F32.of_Z 2147483647) = true) by reflexivity.
  assert (F1 : finite_or_zero f1 = true) by reflexivity.
  assert (Hone : 0 < ord f1) by reflexivity.
  destruct (between_props (F32.of_Z R) (F32.of_Z 2147483647) Vm Nm Vb Fb ltac:(lia)) as (Fm & _).
  destruct (between_props (F32.of_Z r) (F32.of_Z R) Va Na Vm Fm Ham) as (Fa & _ & Hsv).
  destruct (div_unit_props (F32.of_Z r) (F32.of_Z R) Va Vm Fa Fm ltac:(lia) ltac:(lia) Hsv)
    as (Vq & Nq & Oq).
  set (q := SFdiv 24 128 (F32.of_Z r) (F32.of_Z R)) in *.
  destruct (between_props q f1 Vq Nq V1 F1 Oq) as (Fq & Hq0 & Hq1).
  rewrite sval_one in Hq1.
  destruct (mul_quarter_props q Vq Fq ltac:(lia)) as (Ot & Vt & Nt & Hex).
  set (t := SFmul 24 128 q quarter) in *.
  assert (Vqu : F32.valid quarter = true) by reflexivity.
  assert (Fqu : finite_or_zero quarter = true) by reflexivity.
  assert (Htq : 0 <= ord t <= ord quarter).
  { rewrite Ot, (ord_sval quarter Vqu Fqu), sval_quarter.
    split; [apply Rz_nonneg | apply Rz_mono];
      change (2 ^ 300) with (4 * 2 ^ 298) in Hq1; lia. }
  destruct (between_props t quarter Vt Nt Vqu Fqu Htq) as (Ft & Ht0 & Ht1).
  rewrite sval_quarter in Ht1.
  assert (V3 : F32.valid three_quarters = true) by reflexivity.
  assert (F3 : finite_or_zero three_quarters = true) by reflexivity.
  destruct (add_props t three_quarters Vt V3 Ft F3) as (Oc & Vc & Nc).
  rewrite sval_three_quarters in Oc.
  rewrite !SFleb_ord by (assumption || reflexivity).
  rewrite Oc, (ord_sval three_quarters V3 F3), (ord_sval f1 V1 F1).
  rewrite sval_three_quarters, sval_one.
  split; apply Z.leb_le, Rz_mono; [lia|].
  change (2 ^ 300) with (4 * 2 ^ 298). lia.
Qed.

Lemma jitter_table : forallb jitter_ok (map Z.of_nat (seq 0 100)) = true.
Proof. vm_compute. reflexivity. Qed.

Lemma jitter_props (k : Z) :
  0 <= k < 100 ->
  F32.valid (jitter_of k) = true /\ finite_or_zero (jitter_of k) = true /\
  - (5 * 2 ^ 300) <= sval (jitter_of k) <= 5 * 2 ^ 300.
Proof.
  intros Hk. pose proof jitter_table as H. rewrite forallb_forall in H.
  specialize (H k). unfold jitter_ok in H.
  rewrite !andb_true_iff, !Z.leb_le in H. 
  assert (In k (map Z.of_nat (seq 0 100))).
  { rewrite <- (Z2Nat.id k) by lia. apply in_map, in_seq. lia. }
  specialize (H H0). tauto.
Qed.

Lemma SFleb_refl (x : spec_float) : is_nan x = false -> SFleb x x = true.
Proof.
  destruct x as [s|s| |s m e]; try discriminate; intros _; unfold SFleb; cbn [SFcompare].
  - reflexivity.
  - destruct s; reflexivity.
  - rewrite Z.compare_refl, Pos.compare_cont_refl. destruct s; reflexivity.
Qed.

(** Adding a number between -5 and 5 to [x] gives a number between
    [x - 5] and [x + 5], all three computed in the format. *)
Lemma add_within_five (x j : spec_float) :
  F32.valid x = true -> is_nan x = false ->
  F32.valid j = true -> finite_or_zero j = true ->
  - (5 * 2 ^ 300) <= sval j <= 5 * 2 ^ 300 ->
  SFleb (SFsub 24 128 x five32) (SFadd 24 128 x j) = true /\
  SFleb (SFadd 24 128 x j) (SFadd 24 128 x five32) = true.
Proof.
  intros Vx Nx Vj Fj Hj.
  assert (V5 : F32.valid five32 = true) by reflexivity.
  assert (F5 : finite_or_zero five32 = true) by reflexivity.
  assert (S5 : sval five32 = 5 * 2 ^ 300) by reflexivity.
  assert (Vm : F32.valid (SFopp five32) = true) by reflexivity.
  assert (Fm : finite_or_zero (SFopp five32) = true) by reflexivity.
  assert (Sm : sval (SFopp five32) = - (5 * 2 ^ 300)) by reflexivity.
  rewrite SFsub_SFadd.
  destruct (finite_or_zero x) eqn:Fx.
  - destruct (add_props x j Vx Vj Fx Fj) as (O1 & V1 & N1).
    destruct (add_props x five32 Vx V5 Fx F5) as (O2 & V2 & N2).
    destruct (add_props x (SFopp five32) Vx Vm Fx Fm) as (O3 & V3 & N3).
    rewrite !SFleb_ord by assumption. rewrite O1, O2, O3, S5, Sm.
    split; apply Z.leb_le, Rz_mono; lia.
  - destruct x as [s|s| |s m e]; try discriminate.
    destruct j as [sj|sj| |sj mj ej]; try discriminate;
      split; destruct s; reflexivity.
Qed.

(** ** Multiplication by a positive normal number *)

Lemma mul_pos_props (x y : spec_float) :
  F32.valid x = true -> finite_or_zero x = true -> 0 <= ord x ->
  positive_normal y = true ->
  ord (SFmul 24 128 x y) = Rz (sval x * sval y / 2 ^ 300) /\
  F32.valid (SFmul 24 128 x y) = true /\
  is_nan (SFmul 24 128 x y) = false /\
  2 ^ 300 * (sval x * sval y / 2 ^ 300) = sval x * sval y.
Proof.
  intros Vx Fx Ox Py.
  destruct y as [sy|sy| |sy my ey]; try discriminate.
  destruct sy; [discriminate|]. cbn [positive_normal] in Py.
  apply andb_prop in Py as [Vy Hmy]. apply Z.leb_le in Hmy.
  destruct (valid_finite_bounds _ _ _ Vy) as (Hey & _).
  destruct x as [s|s| |s m e]; try discriminate.
  - cbn [SFmul sval]. rewrite Z.mul_0_l. repeat split.
  - pose proof (ord_finite_range _ _ _ Vx) as Hr.
    destruct s; [cbn [ord cond_Zopp] in Ox; lia|].
    destruct (valid_finite_bounds _ _ _ Vx) as (He & _).
    assert (Hp : 0 < 2 ^ (e + ey + 300)) by (apply Z.pow_pos_nonneg; lia).
    assert (Hs : sval (S754_finite false m e) * sval (S754_finite false my ey) =
                 2 ^ 300 * (Zpos (m * my) * 2 ^ (e + ey + 300))).
    { cbn [sval cond_Zopp]. rewrite Pos2Z.inj_mul.
      replace (e + 300) with (e + ey + 300 + (- ey)) by lia.
      replace (ey + 300) with (300 + ey + 149 + (- 149)) at 2 by lia.
      assert (E1 : 2 ^ (e + ey + 300 + - ey) * 2 ^ (ey + 300) =
                   2 ^ 300 * 2 ^ (e + ey + 300)).
      { rewrite <- !Z.pow_add_r by lia. f_equal. lia. }
      replace (300 + ey + 149 + -149) with (ey + 300) by lia.
      replace (Zpos m * 2 ^ (e + ey + 300 + - ey) * (Zpos my * 2 ^ (ey + 300)))
        with (Zpos m * Zpos my * (2 ^ (e + ey + 300 + - ey) * 2 ^ (ey + 300))) by ring.
      rewrite E1. ring. }
    rewrite Hs.
    replace (2 ^ 300 * (Zpos (m * my) * 2 ^ (e + ey + 300)) / 2 ^ 300)
      with (Zpos (m * my) * 2 ^ (e + ey + 300))
      by (apply Z.div_unique_exact; [apply Z.pow_nonzero; lia | reflexivity]).
    cbn [SFmul xorb]. rewrite binary_round_aux_300.
    + destruct (Zpos (m * my) * 2 ^ (e + ey + 300)) as [|p|p] eqn:E; try lia.
      pose proof (rndz_props (Zpos p)) as H. cbn [rndz] in H.
      destruct H as (H1 & H2 & H3). repeat split; assumption.
    + lia.
    + unfold fexp_of, fexp32. rewrite Pos2Z.inj_mul.
      assert (23 <= Z.log2 (Zpos m * Zpos my)).
      { apply Z.log2_le_pow2; [lia|]. nia. }
      lia.
Qed.

(** [(float) r / R], for [0 <= r <= R], is a number between 0 and 1. *)
Lemma unit_quotient_props (r R : Z) :
  0 <= r <= R -> 0 < R <= 2147483647 ->
  let u := SFdiv 24 128 (F32.of_Z r) (F32.of_Z R) in
  F32.valid u = true /\ is_nan u = false /\ finite_or_zero u = true /\
  0 <= ord u /\ 0 <= sval u <= 2 ^ 300.
Proof.
  intros Hr HR. cbv zeta.
  destruct (of_Z_props r) as (Oa & Va & Na). destruct (of_Z_props R) as (Om & Vm & Nm).
  destruct (of_Z_props 2147483647) as (Ob & Vb & Nb).
  destruct (of_Z_props 1) as (O1 & V1 & N1). fold f1 in O1, V1, N1.
  assert (Hab : ord (F32.of_Z R) <= ord (F32.of_Z 2147483647)).
  { rewrite Om, Ob. apply Rz_mono. lia. }
  assert (H1m : ord f1 <= ord (F32.of_Z R)).
  { rewrite Om, O1. apply Rz_mono. lia. }
  assert (Ham : 0 <= ord (F32.of_Z r) <= ord (F32.of_Z R)).
  { rewrite Oa, Om. split; [apply Rz_nonneg; lia | apply Rz_mono; lia]. }
  assert (Fb : finite_or_zero (F32.of_Z 2147483647) = true) by reflexivity.
  assert (F1 : finite_or_zero f1 = true) by reflexivity.
  assert (Hone : 0 < ord f1) by reflexivity.
  destruct (between_props (F32.of_Z R) (F32.of_Z 2147483647) Vm Nm Vb Fb ltac:(lia)) as (Fm & _).
  destruct (between_props (F32.of_Z r) (F32.of_Z R) Va Na Vm Fm Ham) as (Fa & _ & Hsv).
  destruct (div_unit_props (F32.of_Z r) (F32.of_Z R) Va Vm Fa Fm ltac:(lia) ltac:(lia) Hsv)
    as (Vq & Nq & Oq).
  destruct (between_props _ f1 Vq Nq V1 F1 Oq) as (Fq & Hq0 & Hq1).
  rewrite sval_one in Hq1. repeat split; try assumption; lia.
Qed.

(** [(float) r / R * range + base] lies between [base] and [range + base],
    for a positive normal [range] and a finite [base]. *)
Lemma interval_scaled (r R : Z) (range base : spec_float) :
  0 <= r <= R -> 0 < R <= 2147483647 ->
  positive_normal range = true ->
  F32.valid base = true -> finite_or_zero base = true ->
  let c := SFadd 24 128 (SFmul 24 128 (SFdiv 24 128 (F32.of_Z r) (F32.of_Z R)) range)
             base in
  SFleb base c = true /\ SFleb c (SFadd 24 128 range base) = true.
Proof.
  intros Hr HR Pr Vb Fb. cbv zeta.
  destruct (unit_quotient_props r R Hr HR) as (Vu & Nu & Fu & Ou & Hu0 & Hu1).
  set (u := SFdiv 24 128 (F32.of_Z r) (F32.of_Z R)) in *.
  destruct (mul_pos_props u range Vu Fu Ou Pr) as (Ot & Vt & Nt & Hex).
  set (t := SFmul 24 128 u range) in *.
  assert (Vr : F32.valid range = true).
  { destruct range as [| | |[] m e]; try discriminate. cbn [positive_normal] in Pr.
    now apply andb_prop in Pr as [H _]. }
  assert (Fr : finite_or_zero range = true)
    by (destruct range as [| | |[] m e]; try discriminate; reflexivity).
  assert (Sr : 0 < sval range).
  { destruct range as [| | |[] m e]; try discriminate. cbn [sval cond_Zopp].
    destruct (valid_finite_bounds _ _ _ Vr) as (He & _).
    assert (0 < 2 ^ (e + 300)) by (apply Z.pow_pos_nonneg; lia). lia. }
  assert (Hq : 0 <= sval u * sval range / 2 ^ 300 <= sval range).
  { assert (0 < 2 ^ 300) by (apply Z.pow_pos_nonneg; lia). nia. }
  assert (Htr : 0 <= ord t <= ord range).
  { rewrite Ot, (ord_sval range Vr Fr). split; [apply Rz_nonneg | apply Rz_mono]; lia. }
  destruct (between_props t range Vt Nt Vr Fr Htr) as (Ft & Ht0 & Ht1).
  destruct (add_props t base Vt Vb Ft Fb) as (Oc & Vc & Nc).
  destruct (add_props range base Vr Vb Fr Fb) as (Os & Vs & Ns).
  assert (Nb : is_nan base = false) by (destruct base; trivial; discriminate).
  rewrite !SFleb_ord by assumption.
  rewrite Oc, Os, (ord_sval base Vb Fb).
  split; apply Z.leb_le, Rz_mono; lia.
Qed.

(** ** The quotient of a float by itself, and the angle step *)

Lemma SFdiv_self (m : positive) (e : Z) :
  F32.valid (S754_finite false m e) = true ->
  SFdiv 24 128 (S754_finite false m e) (S754_finite false m e) = f1.
Proof.
  intros V.
  cbn [SFdiv xorb]. unfold SFdiv_core_binary. rewrite !Zdigits2_pos, fexp32_eq.

  replace (Zpos (digits2_pos m) + e - (Zpos (digits2_pos m) + e)) with 0 by lia.
  replace (e - e) with 0 by lia.

  change (Z.min (fexp32 0) 0) with (-24). 

  change (0 - -24) with 24.

  cbv beta iota.

  assert (Hsh : Z.shiftl (Zpos m) 24 = Zpos m * 16777216).
  { rewrite Z.shiftl_mul_pow2 by lia. reflexivity. }

  rewrite Hsh.

  assert (E : Z.div_eucl (Zpos m * 16777216) (Zpos m) = (16777216, 0)).
  { pose proof (Z.div_eucl_eq (Zpos m * 16777216) (Zpos m) ltac:(lia)) as H.
    pose proof (Z.mod_pos_bound (Zpos m * 16777216) (Zpos m) ltac:(lia)) as Hb.
    unfold Z.modulo in Hb.
    destruct (Z.div_eucl (Zpos m * 16777216) (Zpos m)) as [q r].
    assert (r = 0).
    { assert (Hr : r = Zpos m * (16777216 - q)) by lia.
      destruct (Z.lt_trichotomy (16777216 - q) 0) as [H0|[H0|H0]]; nia. }
    subst r. f_equal. nia. }

  rewrite E.
  assert (L : new_location (Zpos m) 0 = loc_Exact).
  { unfold new_location, new_location_even, new_location_odd.
    destruct (Z.even (Zpos m)); reflexivity. }

  rewrite L. 

  vm_compute. reflexivity.
Qed.

Lemma of_Z_positive (n : Z) :
  0 < n <= 2147483647 ->
  exists m e, F32.of_Z n = S754_finite false m e /\ F32.valid (S754_finite false m e) = true.
Proof.
  intros Hn.
  destruct (of_Z_props n) as (On & Vn & Nn).
  destruct (of_Z_props 2147483647) as (Ob & Vb & Nb).
  assert (Hpos : 0 < ord (F32.of_Z n)).
  { rewrite On. destruct (of_Z_props 1) as (O1 & _).
    assert (H : 0 < ord (F32.of_Z 1)) by (vm_compute; reflexivity).
    rewrite O1 in H. pose proof (Rz_mono (1 * 2 ^ 300) (n * 2 ^ 300) ltac:(lia)). lia. }
  assert (Hle : ord (F32.of_Z n) <= ord (F32.of_Z 2147483647)).
  { rewrite On, Ob. apply Rz_mono. lia. }
  destruct (between_props (F32.of_Z n) (F32.of_Z 2147483647) Vn Nn Vb eq_refl ltac:(lia))
    as (Fn & _).
  clear On Ob Hle Nn.
  destruct (F32.of_Z n) as [sg|sg| |sg m e]; try discriminate Fn.
  - cbn [ord] in Hpos. lia.
  - destruct sg.
    + pose proof (ord_finite_range _ _ _ Vn). cbn [ord cond_Zopp] in Hpos. lia.
    + exists m, e. split; [reflexivity | exact Vn].
Qed.

Lemma closes_circle_table : forallb closes_circle (map Z.of_nat (seq 1 1024)) = true.
Proof. vm_compute. reflexivity. Qed.

Lemma closes_circle_all (n : Z) : 0 < n <= 1024 -> closes_circle n = true.
Proof.
  intros Hn. pose proof closes_circle_table as H. rewrite forallb_forall in H.
  apply H. apply in_map_iff. exists (Z.to_nat n). split; [lia|].
  apply in_seq. lia.
Qed.

Lemma PI_bounds : (31415926 / 10000000 < PI < 31415927 / 10000000)%R.
Proof.
  pose proof (PI_2_3_7_ineq 4) as [Hlo Hhi].
  unfold sum_f_R0, tg_alt, PI_2_3_7_tg, Ratan_seq in Hlo, Hhi.
  simpl in Hlo, Hhi.
  split; lra.
Qed.

Lemma full_circle (n : Z) :
  0 < n <= 1024 ->
  (Rabs (IZR n * real (theta_at n) - 2 * PI) < 2 / 1000000)%R.
Proof.
  intros Hn. pose proof (closes_circle_all n Hn) as H.
  unfold closes_circle in H. apply andb_true_iff in H. destruct H as [Hlo Hhi].
  apply Z.ltb_lt in Hlo, Hhi.
  apply IZR_lt in Hlo, Hhi.
  rewrite !mult_IZR in Hlo, Hhi.
  unfold real.
  assert (HP : (0 < IZR (2 ^ 300))%R) by (apply IZR_lt; lia).
  set (P := IZR (2 ^ 300)) in *. set (v := IZR (sval (theta_at n))) in *.
  set (x := IZR n) in *.
  assert (Hx : (x * (v / P) = x * v / P)%R) by (field; lra).
  rewrite Hx.
  assert (H1 : (6283184 / 1000000 < x * v / P)%R).
  { apply Rmult_lt_reg_r with (r := P); [exact HP|].
    replace (x * v / P * P)%R with (x * v)%R by (field; lra). lra. }
  assert (H2 : (x * v / P < 6283187 / 1000000)%R).
  { apply Rmult_lt_reg_r with (r := P); [exact HP|].
    replace (x * v / P * P)%R with (x * v)%R by (field; lra). lra. }
  pose proof PI_bounds as [Hp1 Hp2].
  apply Rabs_def1; lra.
Qed.

(** * Properties *)

Section Properties.
Context {libc : Libc}.
Variable cfg : Config.

(** ** Running monadic code *)

Lemma bind_run {A B : Type} (m : M A) (k : A -> M B) (s : RandState) :
  bind m k s = k (fst (m s)) (snd (m s)).
Proof. unfold bind. destruct (m s); reflexivity. Qed.

Lemma ret_run {A : Type} (a : A) (s : RandState) : ret a s = (a, s).
Proof. reflexivity. Qed.

(** [for_each] keeps the number of elements. *)
Lemma for_each_length {A : Type} (body : A -> M A) (v : list A) (s : RandState) :
  length (fst (for_each body v s)) = length v.
Proof.
  revert s; induction v as [|p rest IH]; intros s; simpl.
  - reflexivity.
  - rewrite !bind_run. simpl. now rewrite IH.
Qed.


(** A property the body establishes holds of every element afterwards. *)
Lemma for_each_Forall {A : Type} (P : A -> Prop) (body : A -> M A) (v : list A)
    (s : RandState) :
  (forall p s0, In p v -> P (fst (body p s0))) ->
  Forall P (fst (for_each body v s)).
Proof.
  revert s; induction v as [|p rest IH]; intros s Hb; simpl.
  - constructor.
  - rewrite !bind_run. simpl. constructor.
    + apply Hb. now left.
    + apply IH. intros q s0 Hq. apply Hb. now right.
Qed.

(** An invariant of the body is an invariant of the counted loop. *)
Lemma for_count_inv {A : Type} (P : A -> Prop) (body : A -> M A) (n : nat) :
  (forall a s, P a -> P (fst (body a s))) ->
  forall a s, P a -> P (fst (for_count n body a s)).
Proof.
  intros Hb. induction n as [|k IH]; intros a s Ha; simpl.
  - exact Ha.
  - rewrite bind_run. apply IH, Hb, Ha.
Qed.

(** ** Comparisons *)


(** ** TrailParticle::update *)

Lemma TrailParticle_update_eq dt sourceVel sourceLife p :
  TrailParticle_update dt sourceVel sourceLife p =
  mkTrailParticle
    (tp_pos p +v tp_life p s* sourceVel *s dt)
    sourceVel
    (set_w (tp_color p) (clamped_life sourceLife p))
    (clamped_life sourceLife p - tp_lifeDecreaseRate p * dt)%f32
    (tp_scale p)
    (tp_lifeDecreaseRate p).
Proof.
  unfold TrailParticle_update, clamped_life; simpl.
  destruct (F32.ltb sourceLife (tp_life p)); reflexivity.
Qed.



(** ** ExplosionParticle::update *)

Lemma respawnTrailParticle_eq (e : ExplosionParticle) (p : TrailParticle)
    (s : RandState) :
  respawnTrailParticle e p s =
  (mkTrailParticle (ep_pos e +s jitter (fst (rand s))) (ep_vel e *s F32.lit 1 10)
     (tp_color p) f1 (tp_scale p) (tp_lifeDecreaseRate p),
   snd (rand s)).
Proof. unfold respawnTrailParticle. rewrite bind_run. reflexivity. Qed.

Lemma ExplosionParticle_update_eq (dt : float) (e : ExplosionParticle)
    (s : RandState) :
  let loop :=
    for_each
      (fun p =>
         let p := TrailParticle_update dt (ep_vel e) (ep_life e) p in
         if (tp_life p <=? f0)%f32 then respawnTrailParticle e p else ret p)
      (ep_trailParticles e) s in
  ExplosionParticle_update cfg dt e s =
  (mkExplosionParticle
     (ep_pos e +v ep_life e s* ep_origVel e *s dt)
     (ep_life e s* ep_origVel e *s dt)
     (set_w (ep_color e) (ep_life e))
     (ep_life e - EXPLOSION_LIFE_DECREASE_RATE cfg * dt)%f32
     (ep_scale e)
     (ep_origVel e)
     (fst loop),
   snd loop).
Proof. cbv zeta. unfold ExplosionParticle_update. rewrite bind_run. reflexivity. Qed.


(** C1, as the code has it: after [update] returns, alpha is the life the
    particle had just before the final decrement of that update (for a
    trail particle the clamped life, for an explosion particle the life on
    entry), so that life = alpha - decay rate * dt. *)
Theorem alpha_is_life_before_decay :
  (forall (dt : float) (sourceVel : vec3) (sourceLife : float) (p : TrailParticle),
     let p' := TrailParticle_update dt sourceVel sourceLife p in
     w4 (tp_color p') = clamped_life sourceLife p /\
     tp_life p' = (w4 (tp_color p') - tp_lifeDecreaseRate p' * dt)%f32) /\
  (forall (dt : float) (e : ExplosionParticle) (s : RandState),
     let e' := fst (ExplosionParticle_update cfg dt e s) in
     w4 (ep_color e') = ep_life e /\
     ep_life e' = (w4 (ep_color e') - EXPLOSION_LIFE_DECREASE_RATE cfg * dt)%f32).
Proof.
  split.
  - intros dt sourceVel sourceLife p. cbv zeta.
    rewrite TrailParticle_update_eq. split; reflexivity.
  - intros dt e s. cbv zeta.
    rewrite ExplosionParticle_update_eq. split; reflexivity.
Qed.

(** ** Counted loops that push onto a vector *)

(** A loop whose body increases a measure by one increases it by the
    number of iterations. *)
Lemma for_count_measure {A : Type} (mu : A -> nat) (body : A -> M A) (n : nat) :
  (forall a s, mu (fst (body a s)) = S (mu a)) ->
  forall a s, mu (fst (for_count n body a s)) = (n + mu a)%nat.
Proof.
  intros Hb. induction n as [|k IH]; intros a s; simpl.
  - reflexivity.
  - rewrite bind_run, IH, Hb. lia.
Qed.

(** A loop keeps what its body keeps. *)
Lemma for_count_keeps {A B : Type} (g : A -> B) (body : A -> M A) (n : nat) :
  (forall a s, g (fst (body a s)) = g a) ->
  forall a s, g (fst (for_count n body a s)) = g a.
Proof.
  intros Hb a s. apply (for_count_inv (fun a' => g a' = g a)); [|reflexivity].
  intros a' s' H. now rewrite Hb.
Qed.

(** ** Firework::reset *)

(** The firework on which the trail-creating loop of [reset] starts. *)
Lemma Firework_reset_eq (f : Firework) (s : RandState) :
  exists (f1' : Firework) (s1 : RandState),
    Firework_reset cfg f s =
      for_count (Z.to_nat (NUM_TRAIL_PARTICLES cfg))
        (fun f =>
           r <- rand ;;
           let lifeDecrease :=
             rand_scaled r
               (TRAIL_MAX_DECREASE_RATE cfg - TRAIL_MIN_DECREASE_RATE cfg)%f32
               (TRAIL_MIN_DECREASE_RATE cfg) in
           r <- rand ;;
           let particleVel := fw_vel f *s rand_scaled r (F32.lit 1 4) (F32.lit 3 4) in
           ret (fw_set_trailParticles f
                  (fw_trailParticles f ++
                   [TrailParticle_new (fw_pos f) particleVel (fw_color f)
                      (F32.of_Z 1) lifeDecrease])))
        f1' s1 /\
    fw_exploded f1' = false /\
    fw_trailParticles f1' = [] /\
    fw_explosionParticles f1' = [] /\
    fw_numParticles f1' =
      Z.rem (fst (rand s)) (MAX_PARTICLES cfg - MIN_PARTICLES cfg) + MIN_PARTICLES cfg /\
    (exists s0 : RandState,
       fw_scale f1' = (F32.of_Z (Z.rem (fst (rand s0)) (SCALE_RANGE cfg)) + MIN_SCALE cfg)%f32).
Proof.
  unfold Firework_reset, randomiseColor. rewrite !bind_run.
  eexists _, _. split; [reflexivity|]. cbn.
  repeat split. eexists. reflexivity.
Qed.

(** [reset()] assigns every member: its result does not depend on the
    firework it is called on. *)
Lemma Firework_reset_independent (f g : Firework) (s : RandState) :
  Firework_reset cfg f s = Firework_reset cfg g s.
Proof.
  unfold Firework_reset, randomiseColor. rewrite !bind_run. reflexivity.
Qed.

Lemma Firework_reset_exploded (f : Firework) (s : RandState) :
  fw_exploded (fst (Firework_reset cfg f s)) = false.
Proof.
  destruct (Firework_reset_eq f s) as (g & s1 & -> & He & _).
  rewrite for_count_keeps; [exact He|]. intros a s'. now rewrite !bind_run.
Qed.

Lemma Firework_reset_explosionParticles (f : Firework) (s : RandState) :
  fw_explosionParticles (fst (Firework_reset cfg f s)) = [].
Proof.
  destruct (Firework_reset_eq f s) as (g & s1 & -> & _ & _ & He & _).
  rewrite for_count_keeps; [exact He|]. intros a s'. now rewrite !bind_run.
Qed.

Lemma Firework_reset_numParticles (f : Firework) (s : RandState) :
  fw_numParticles (fst (Firework_reset cfg f s)) =
  Z.rem (fst (rand s)) (MAX_PARTICLES cfg - MIN_PARTICLES cfg) + MIN_PARTICLES cfg.
Proof.
  destruct (Firework_reset_eq f s) as (g & s1 & -> & _ & _ & _ & He & _).
  rewrite for_count_keeps; [exact He|]. intros a s'. now rewrite !bind_run.
Qed.

Lemma Firework_reset_trail_count (f : Firework) (s : RandState) :
  length (fw_trailParticles (fst (Firework_reset cfg f s))) =
  Z.to_nat (NUM_TRAIL_PARTICLES cfg).
Proof.
  destruct (Firework_reset_eq f s) as (g & s1 & -> & _ & Ht & _).
  rewrite (for_count_measure (fun f => length (fw_trailParticles f))).
  - rewrite Ht. simpl. lia.
  - intros a s'. rewrite !bind_run. cbn. rewrite length_app. simpl. lia.
Qed.

Lemma Firework_reset_trail_scale (f : Firework) (s : RandState) :
  Forall (fun p => tp_scale p = F32.of_Z 1)
    (fw_trailParticles (fst (Firework_reset cfg f s))).
Proof.
  destruct (Firework_reset_eq f s) as (g & s1 & -> & _ & Ht & _).
  apply (for_count_inv (fun f => Forall (fun p => tp_scale p = F32.of_Z 1)
                                   (fw_trailParticles f))).
  - intros a s' Ha. rewrite !bind_run. cbn. apply Forall_app. split; [exact Ha|].
    constructor; [reflexivity | constructor].
  - rewrite Ht. constructor.
Qed.

(** ** Firework::update, exploded *)

Lemma ep_clear_trailParticles_life (p : ExplosionParticle) :
  ep_life (ep_clear_trailParticles p) = ep_life p.
Proof. reflexivity. Qed.

Lemma ExplosionParticle_update_life (dt : float) (e : ExplosionParticle)
    (s : RandState) :
  ep_life (fst (ExplosionParticle_update cfg dt e s)) =
  (ep_life e - EXPLOSION_LIFE_DECREASE_RATE cfg * dt)%f32.
Proof. rewrite ExplosionParticle_update_eq. reflexivity. Qed.

Lemma ExplosionParticle_update_trail_count (dt : float) (e : ExplosionParticle)
    (s : RandState) :
  length (ep_trailParticles (fst (ExplosionParticle_update cfg dt e s))) =
  length (ep_trailParticles e).
Proof. rewrite ExplosionParticle_update_eq. cbn. apply for_each_length. Qed.

Lemma fw_set_explosionParticles_same (f : Firework) :
  fw_set_explosionParticles f (fw_explosionParticles f) = f.
Proof. destruct f; reflexivity. Qed.

(** The loop over the explosion particles either ends in the firework a
    [reset()] produced, or never resets and only rewrites the slots. *)
Lemma update_explosionParticles_cases (dt : float) (todo : list ExplosionParticle) :
  forall (live : bool) (done : list ExplosionParticle) (f : Firework) (s : RandState),
    (live = true -> fw_explosionParticles f = done ++ todo) ->
    let f' := fst (update_explosionParticles cfg dt live done todo f s) in
    (exists g s0, f' = fst (Firework_reset cfg g s0)) \/
    (if live
     then exists es, length es = length (done ++ todo) /\
                     f' = fw_set_explosionParticles f es
     else f' = f).
Proof.
  induction todo as [|p rest IH]; intros live done f s Hf; cbv zeta.
  - right. simpl. destruct live; [|reflexivity].
    exists (done ++ []). split; [reflexivity|].
    rewrite <- Hf by reflexivity. symmetry; apply fw_set_explosionParticles_same.
  - simpl. rewrite bind_run.
    set (p0 := if live then p else ep_clear_trailParticles p).
    set (p' := fst (ExplosionParticle_update cfg dt p0 s)).
    set (s1 := snd (ExplosionParticle_update cfg dt p0 s)).
    set (f1' := if live then fw_set_explosionParticles f (done ++ p' :: rest) else f).
    destruct (F32.leb (ep_life p') f0).
    + rewrite bind_run. left.
      destruct (IH false (done ++ [p']) (fst (Firework_reset cfg f1' s1))
                  (snd (Firework_reset cfg f1' s1))) as [H|H];
        [discriminate | exact H |].
      cbv beta iota in H. rewrite H. now exists f1', s1.
    + destruct (IH live (done ++ [p']) f1' s1) as [H|H].
      * intros ->. subst f1'. cbn. now rewrite <- app_assoc.
      * left; exact H.
      * right. destruct live; subst f1'.
        -- destruct H as (es & Hlen & ->). exists es. split.
           ++ rewrite Hlen, !length_app. simpl. lia.
           ++ reflexivity.
        -- exact H.
Qed.

(** One expiring explosion particle is enough for the loop to end in a
    firework that [reset()] produced. *)
Lemma update_explosionParticles_resets (dt : float) (todo : list ExplosionParticle) :
  forall (live : bool) (done : list ExplosionParticle) (f : Firework) (s : RandState),
    Exists (expires cfg dt) todo ->
    exists g s0,
      fst (update_explosionParticles cfg dt live done todo f s) =
      fst (Firework_reset cfg g s0).
Proof.
  induction todo as [|p rest IH]; intros live done f s Hex.
  - inversion Hex.
  - simpl. rewrite bind_run.
    set (p0 := if live then p else ep_clear_trailParticles p).
    assert (Hlife : ep_life p0 = ep_life p) by (subst p0; destruct live; reflexivity).
    set (s1 := snd (ExplosionParticle_update cfg dt p0 s)).
    rewrite ExplosionParticle_update_life, Hlife.
    destruct (F32.leb (ep_life p - EXPLOSION_LIFE_DECREASE_RATE cfg * dt)%f32 f0) eqn:E.
    + rewrite bind_run.
      match goal with |- context [Firework_reset cfg ?g ?s0] =>
        destruct (update_explosionParticles_cases dt rest false
                    (done ++ [fst (ExplosionParticle_update cfg dt p0 s)])
                    (fst (Firework_reset cfg g s0)) (snd (Firework_reset cfg g s0)))
          as [H|H]; [discriminate | exact H | cbv beta iota in H; rewrite H; now exists g, s0]
      end.
    + apply IH. inversion Hex as [? ? Hp|? ? Hr]; subst; [|exact Hr].
      unfold expires in Hp. congruence.
Qed.

(** The trail particles [reset()] creates are new: full life, at the
    firework's new position, in its new colour. *)
Lemma Firework_reset_trail_fresh (f : Firework) (s : RandState) :
  let f' := fst (Firework_reset cfg f s) in
  Forall (fun p => tp_life p = f1 /\ tp_pos p = fw_pos f' /\ tp_color p = fw_color f')
    (fw_trailParticles f').
Proof.
  cbv zeta. destruct (Firework_reset_eq f s) as (g & s1 & -> & _ & Ht & _).
  apply (for_count_inv
           (fun f => Forall (fun p => tp_life p = f1 /\ tp_pos p = fw_pos f /\
                                      tp_color p = fw_color f)
                       (fw_trailParticles f))).
  - intros a s' Ha. rewrite !bind_run. cbn. apply Forall_app. split; [exact Ha|].
    constructor; [repeat split | constructor].
  - rewrite Ht. constructor.
Qed.

(** C6: in the exploded state, one owned explosion particle that this
    update leaves with life <= 0 is enough for the update to end in a reset
    firework, whatever the life of the others: not exploded, with no
    explosion particles and with NUM_TRAIL_PARTICLES new trail particles
    (a nonempty collection). *)
Theorem single_expiry_resets (dt : float) (f : Firework) (s : RandState) :
  fw_exploded f = true ->
  Exists (expires cfg dt) (fw_explosionParticles f) ->
  0 < NUM_TRAIL_PARTICLES cfg ->
  let f' := fst (Firework_update cfg dt f s) in
  fw_exploded f' = false /\
  fw_explosionParticles f' = [] /\
  fw_trailParticles f' <> [] /\
  length (fw_trailParticles f') = Z.to_nat (NUM_TRAIL_PARTICLES cfg) /\
  Forall (fun p => tp_life p = f1 /\ tp_pos p = fw_pos f' /\ tp_color p = fw_color f')
    (fw_trailParticles f').
Proof.
  intros Hexp Hex Hn. cbv zeta. unfold Firework_update. rewrite Hexp.
  destruct (update_explosionParticles_resets dt (fw_explosionParticles f) true [] f s Hex)
    as (g & s0 & ->).
  pose proof (Firework_reset_trail_count g s0) as Hlen.
  repeat split.
  - apply Firework_reset_exploded.
  - apply Firework_reset_explosionParticles.
  - intros E. rewrite E in Hlen. simpl in Hlen. lia.
  - exact Hlen.
  - apply Firework_reset_trail_fresh.
Qed.

(** ** The ExplosionParticle constructor *)

Lemma ExplosionParticle_new_eq (pos vel : vec3) (color : vec4) (scale : float)
    (s : RandState) :
  exists ts s',
    ExplosionParticle_new cfg pos vel color scale s =
      (mkExplosionParticle pos vel color f1 scale vel ts, s') /\
    length ts = Z.to_nat (NUM_TRAIL_PARTICLES cfg) /\
    Forall (fun p => new_trail pos color p /\ tp_vel p = vel *s F32.lit 1 10) ts.
Proof.
  unfold ExplosionParticle_new. rewrite bind_run.
  eexists _, _. split; [reflexivity|]. split.
  - rewrite (for_count_measure (@length TrailParticle)); [simpl; lia|].
    intros a s'. rewrite bind_run. cbn. rewrite length_app. simpl. lia.
  - apply (for_count_inv (Forall (fun p => new_trail pos color p /\
                                           tp_vel p = vel *s F32.lit 1 10))).
    + intros a s' Ha. rewrite bind_run. cbn. apply Forall_app. split; [exact Ha|].
      constructor; [|constructor]. unfold new_trail. cbn. repeat split.
    + constructor.
Qed.

(** ** Firework::update, rising *)

Lemma Firework_update_rising (dt : float) (f : Firework) (s : RandState) :
  fw_exploded f = false ->
  Firework_update cfg dt f s =
    let g := integrate_gravity cfg dt f in
    let loop := rocket_trail_loop dt g s in
    if (y3 (fw_vel g) <? f0)%f32 then
      for_count (Z.to_nat (fw_numParticles f)) (push_explosionParticle cfg)
        (fw_set_trailParticles (fw_set_exploded g true) []) (snd loop)
    else (fw_set_trailParticles g (fst loop), snd loop).
Proof.
  intros He. unfold Firework_update. rewrite He, bind_run. cbv zeta.
  fold (integrate_gravity cfg dt f). 
  change (fw_set_pos (fw_set_vel f (fw_vel f +v GRAVITY cfg *s dt))
            (fw_pos (fw_set_vel f (fw_vel f +v GRAVITY cfg *s dt)) +v
             fw_vel (fw_set_vel f (fw_vel f +v GRAVITY cfg *s dt)) *s dt))
    with (integrate_gravity cfg dt f).
  fold (rocket_trail_loop dt (integrate_gravity cfg dt f)).
  cbn [fw_vel fw_set_trailParticles fw_numParticles fw_set_exploded].
  destruct (F32.ltb _ f0); reflexivity.
Qed.

Lemma push_explosionParticle_eq (f : Firework) (s : RandState) :
  rand_in_range -> ranges_nonempty cfg ->
  exists e s',
    push_explosionParticle cfg f s =
      (fw_set_explosionParticles f (fw_explosionParticles f ++ [e]), s') /\
    created_at cfg (fw_pos f) (fw_color f) e.
Proof.
  intros Hr (HN & HM & HS). unfold push_explosionParticle. rewrite !bind_run.
  match goal with |- context [ExplosionParticle_new cfg ?p ?v ?c ?sc ?s0] =>
    destruct (ExplosionParticle_new_eq p v c sc s0) as (ts & s' & E & Hlen & _)
  end.
  rewrite E. cbn [fst snd ret]. eexists _, _. split; [reflexivity|].
  unfold created_at. cbn [ep_pos ep_color ep_life ep_origVel ep_vel ep_scale
                            ep_trailParticles].
  repeat (split; [reflexivity || exact Hlen|]).
  eexists _, _, _.
  split; [eexists; reflexivity|]. split; [eexists; reflexivity|].
  split; [eexists; reflexivity|].
  split; [apply Z.rem_bound_pos; [apply Hr | exact HN]|].
  split.
  { match goal with |- _ <= Z.rem ?a ?b + _ < _ =>
      pose proof (Z.rem_bound_pos a b) as Hb end.
    lapply Hb; [|apply Hr]. intros Hb'. lapply Hb'; [|lia]. lia. }
  split; [apply Z.rem_bound_pos; [apply Hr | exact HS]|].
  split; reflexivity.
Qed.

Lemma push_explosionParticle_shape (f : Firework) (s : RandState) :
  exists e s',
    push_explosionParticle cfg f s =
      (fw_set_explosionParticles f (fw_explosionParticles f ++ [e]), s').
Proof.
  unfold push_explosionParticle. rewrite !bind_run.
  match goal with |- context [ExplosionParticle_new cfg ?p ?v ?c ?sc ?s0] =>
    destruct (ExplosionParticle_new_eq p v c sc s0) as (ts & s' & E & _)
  end.
  rewrite E. cbn [fst snd ret]. eexists _, _. reflexivity.
Qed.

(** The creation loop appends one explosion particle per iteration and
    touches nothing else; what each push guarantees of the particle it
    creates holds of all of them. *)
Lemma creation_loop (Q : vec3 -> vec4 -> ExplosionParticle -> Prop) :
  (forall f s, exists e s',
      push_explosionParticle cfg f s =
        (fw_set_explosionParticles f (fw_explosionParticles f ++ [e]), s') /\
      Q (fw_pos f) (fw_color f) e) ->
  forall (n : nat) (f : Firework) (s : RandState),
  exists new,
    fst (for_count n (push_explosionParticle cfg) f s) =
      fw_set_explosionParticles f (fw_explosionParticles f ++ new) /\
    length new = n /\
    Forall (Q (fw_pos f) (fw_color f)) new.
Proof.
  intros HQ. induction n as [|k IH]; intros f s.
  - exists []. simpl. rewrite app_nil_r, fw_set_explosionParticles_same.
    repeat split. constructor.
  - simpl. rewrite bind_run.
    destruct (HQ f s) as (e & s' & E & He). rewrite E. cbn [fst snd].
    destruct (IH (fw_set_explosionParticles f (fw_explosionParticles f ++ [e])) s')
      as (new & -> & Hlen & Hall).
    exists (e :: new). cbn. rewrite <- app_assoc. simpl.
    repeat split; [now rewrite Hlen | now constructor].
Qed.

Lemma creation_loop_count (n : nat) (f : Firework) (s : RandState) :
  exists new,
    fst (for_count n (push_explosionParticle cfg) f s) =
      fw_set_explosionParticles f (fw_explosionParticles f ++ new) /\
    length new = n.
Proof.
  destruct (creation_loop (fun _ _ _ => True)) with (n := n) (f := f) (s := s)
    as (new & E & Hlen & _).
  - intros g s0. destruct (push_explosionParticle_shape g s0) as (e & s' & E).
    now exists e, s'.
  - now exists new.
Qed.

Lemma rocket_trail_loop_length (dt : float) (f : Firework) (s : RandState) :
  length (fst (rocket_trail_loop dt f s)) = length (fw_trailParticles f).
Proof. apply for_each_length. Qed.

Lemma advance_add (a b : nat) (s : RandState) :
  advance (a + b) s = advance a (advance b s).
Proof. unfold advance. apply Nat.iter_add. Qed.

Lemma advance_S (k : nat) (s : RandState) :
  advance (S k) s = advance k (snd (rand s)).
Proof. unfold advance. apply Nat.iter_succ_r. Qed.

(** A loop whose body calls [rand()] [k] times calls it [n * k] times. *)
Lemma for_count_advance {A : Type} (body : A -> M A) (k : nat) :
  (forall a s, snd (body a s) = advance k s) ->
  forall (n : nat) (a : A) (s : RandState),
    snd (for_count n body a s) = advance (n * k) s.
Proof.
  intros Hb. induction n as [|n IH]; intros a s.
  - reflexivity.
  - cbn [for_count]. rewrite bind_run, IH, Hb, <- advance_add.
    f_equal. lia.
Qed.

Lemma ExplosionParticle_new_advance (pos vel : vec3) (color : vec4) (scale : float)
    (s : RandState) :
  snd (ExplosionParticle_new cfg pos vel color scale s) =
  advance (Z.to_nat (NUM_TRAIL_PARTICLES cfg)) s.
Proof.
  unfold ExplosionParticle_new. rewrite bind_run. cbn [snd ret].
  rewrite (for_count_advance _ 1); [f_equal; lia|].
  intros a s0. rewrite bind_run. reflexivity.
Qed.

Lemma push_explosionParticle_run (f : Firework) (s : RandState) :
  exists e,
    push_explosionParticle cfg f s =
      (fw_set_explosionParticles f (fw_explosionParticles f ++ [e]),
       advance (3 + Z.to_nat (NUM_TRAIL_PARTICLES cfg)) s) /\
    spark_from cfg (fw_pos f) (fw_color f)
      (rand_after 0 s) (rand_after 1 s) (rand_after 2 s) e.
Proof.
  unfold push_explosionParticle. rewrite !bind_run.
  match goal with |- context [ExplosionParticle_new cfg ?p ?v ?c ?sc ?s0] =>
    pose proof (ExplosionParticle_new_advance p v c sc s0) as Hs;
    destruct (ExplosionParticle_new_eq p v c sc s0) as (ts & s' & E & Hlen & _)
  end.
  rewrite E in Hs |- *. cbn [fst snd ret] in Hs |- *.
  eexists. split.
  - f_equal. rewrite Hs. symmetry.
    rewrite Nat.add_comm, advance_add. reflexivity.
  - unfold spark_from. cbn [ep_pos ep_color ep_life ep_vel ep_origVel ep_scale
                            ep_trailParticles].
    repeat split; try reflexivity. exact Hlen.
Qed.

(** The creation loop: the [i]-th particle it appends is made from the
    draws number [i * stride], [i * stride + 1] and [i * stride + 2], where
    [stride] counts the three draws of an iteration and the
    NUM_TRAIL_PARTICLES draws of the constructor. *)
Lemma creation_loop_draws (n : nat) :
  forall (f : Firework) (s : RandState),
    let stride := (3 + Z.to_nat (NUM_TRAIL_PARTICLES cfg))%nat in
    exists new,
      fst (for_count n (push_explosionParticle cfg) f s) =
        fw_set_explosionParticles f (fw_explosionParticles f ++ new) /\
      length new = n /\
      (forall i : nat, (i < n)%nat ->
         exists e, nth_error new i = Some e /\
                   spark_from cfg (fw_pos f) (fw_color f)
                     (rand_after (i * stride) s) (rand_after (i * stride + 1) s)
                     (rand_after (i * stride + 2) s) e) /\
      snd (for_count n (push_explosionParticle cfg) f s) = advance (n * stride) s.
Proof.
  induction n as [|n IH]; intros f s stride.
  - exists []. cbn [for_count]. rewrite ret_run. cbn [fst snd].
    rewrite app_nil_r, fw_set_explosionParticles_same.
    repeat split; try reflexivity. intros i Hi. lia.
  - cbn [for_count]. rewrite bind_run.
    destruct (push_explosionParticle_run f s) as (e0 & E & He0).
    rewrite E. cbn [fst snd]. fold stride.
    destruct (IH (fw_set_explosionParticles f (fw_explosionParticles f ++ [e0]))
                (advance stride s)) as (new & -> & Hlen & Hnth & Hs).
    fold stride in Hnth, Hs.
    exists (e0 :: new). cbn [fw_explosionParticles fw_set_explosionParticles].
    rewrite <- app_assoc. cbn [app length].
    split; [reflexivity|]. split; [now rewrite Hlen|]. split.
    + intros [|i] Hi.
      * exists e0. split; [reflexivity|]. exact He0.
      * destruct (Hnth i ltac:(lia)) as (e & Hn & He).
        exists e. split; [exact Hn|].
        cbn [fw_pos fw_color fw_set_explosionParticles] in He.
        unfold rand_after in *. rewrite <- !advance_add in He.
        replace (S i * stride)%nat with (i * stride + stride)%nat by lia.
        replace (i * stride + stride + 1)%nat with (i * stride + 1 + stride)%nat by lia.
        replace (i * stride + stride + 2)%nat with (i * stride + 2 + stride)%nat by lia.
        exact He.
    + rewrite Hs, <- advance_add. f_equal. lia.
Qed.

(** C5: a rising firework explodes in an update exactly when the vertical
    velocity that update computes is negative.  The exploding update leaves
    no trail particles and appends fw_numParticles explosion particles, each
    at the rocket's position of that update, in the firework's colour.
    Particle number [i] is made from three draws of its own, the calls of
    [rand()] number [i * stride], [i * stride + 1] and [i * stride + 2]
    after the trail loop, where a whole iteration takes
    [stride = 3 + NUM_TRAIL_PARTICLES] calls: the first picks the angle
    [(rand() % NUM_OUTER_CIRCLE_VERTICES) * theta], whose cosine and sine
    give the direction, the second the magnitude from MIN_MAGNITUDE up to
    MAX_MAGNITUDE, the third the scale.  [theta] is [M_PI * 2] divided by
    the number of vertices, so that the angles are the multiples of one
    step, and for up to 1024 vertices that many steps make the full circle
    to within 2e-6: |NUM_OUTER_CIRCLE_VERTICES * theta - 2 pi| < 2e-6.
    An update that does not explode creates no particle. *)
Theorem rising_to_exploded (dt : float) (f : Firework) (s : RandState) :
  rand_in_range -> ranges_nonempty cfg ->
  fw_exploded f = false ->
  let f' := fst (Firework_update cfg dt f s) in
  let s1 := snd (rocket_trail_loop dt (integrate_gravity cfg dt f) s) in
  let stride := (3 + Z.to_nat (NUM_TRAIL_PARTICLES cfg))%nat in
  fw_vel f' = fw_vel f +v GRAVITY cfg *s dt /\
  fw_pos f' = fw_pos f +v fw_vel f' *s dt /\
  fw_exploded f' = (y3 (fw_vel f') <? f0)%f32 /\
  (fw_exploded f' = true ->
     fw_trailParticles f' = [] /\
     exists new,
       fw_explosionParticles f' = fw_explosionParticles f ++ new /\
       length new = Z.to_nat (fw_numParticles f) /\
       Forall (created_at cfg (fw_pos f') (fw_color f)) new /\
       (forall i : nat, (i < Z.to_nat (fw_numParticles f))%nat ->
          exists e, nth_error new i = Some e /\
                    spark_from cfg (fw_pos f') (fw_color f)
                      (rand_after (i * stride) s1) (rand_after (i * stride + 1) s1)
                      (rand_after (i * stride + 2) s1) e) /\
       snd (Firework_update cfg dt f s) =
         advance (Z.to_nat (fw_numParticles f) * stride) s1) /\
  (fw_exploded f' = false ->
     fw_explosionParticles f' = fw_explosionParticles f /\
     length (fw_trailParticles f') = length (fw_trailParticles f) /\
     snd (Firework_update cfg dt f s) = s1) /\
  theta cfg =
    F64.to_f32
      (SFdiv 53 1024
         (SFmul 53 1024 (S754_finite false 7074237752028440 (-51)) (F64.of_Z 2))
         (F32.of_Z (NUM_OUTER_CIRCLE_VERTICES cfg))) /\
  (0 < NUM_OUTER_CIRCLE_VERTICES cfg <= 1024 ->
   (Rabs (IZR (NUM_OUTER_CIRCLE_VERTICES cfg) * real (theta cfg) - 2 * PI)
    < 2 / 1000000)%R).
Proof.
  intros Hr Hc He. cbv zeta. rewrite (Firework_update_rising dt f s He). cbv zeta.
  set (g := integrate_gravity cfg dt f).
  assert (Hvel : fw_vel g = fw_vel f +v GRAVITY cfg *s dt) by reflexivity.
  assert (Hpos : fw_pos g = fw_pos f +v fw_vel g *s dt) by reflexivity.
  assert (Hex : fw_exploded g = false) by exact He.
  assert (Hth : forall A : Prop, A ->
            A /\
            theta cfg =
              F64.to_f32
                (SFdiv 53 1024
                   (SFmul 53 1024 (S754_finite false 7074237752028440 (-51)) (F64.of_Z 2))
                   (F32.of_Z (NUM_OUTER_CIRCLE_VERTICES cfg))) /\
            (0 < NUM_OUTER_CIRCLE_VERTICES cfg <= 1024 ->
             (Rabs (IZR (NUM_OUTER_CIRCLE_VERTICES cfg) * real (theta cfg) - 2 * PI)
              < 2 / 1000000)%R)).
  { intros A HA. split; [exact HA|]. split; [reflexivity|].
    intros HN. change (theta cfg) with (theta_at (NUM_OUTER_CIRCLE_VERTICES cfg)).
    now apply full_circle. }
  destruct (F32.ltb (y3 (fw_vel g)) f0) eqn:Hneg.
  - destruct (creation_loop (created_at cfg)
                (fun f0 s0 => push_explosionParticle_eq f0 s0 Hr Hc)
                (Z.to_nat (fw_numParticles f))
                (fw_set_trailParticles (fw_set_exploded g true) [])
                (snd (rocket_trail_loop dt g s)))
      as (new & Enew & Hlen & Hall).
    destruct (creation_loop_draws (Z.to_nat (fw_numParticles f))
                (fw_set_trailParticles (fw_set_exploded g true) [])
                (snd (rocket_trail_loop dt g s)))
      as (new' & Enew' & _ & Hnth & Hs).
    assert (Hsame : new' = new).
    { rewrite Enew in Enew'.
      apply (f_equal fw_explosionParticles) in Enew'.
      cbn [fw_explosionParticles fw_set_explosionParticles] in Enew'.
      symmetry. eapply app_inv_head. exact Enew'. }
    subst new'. rewrite Enew, Hs.
    cbn [fw_vel fw_pos fw_exploded fw_trailParticles fw_explosionParticles
         fw_set_explosionParticles fw_set_trailParticles fw_set_exploded
         fw_color] in *.
    rewrite Hneg.
    split; [exact Hvel|]. split; [exact Hpos|]. split; [reflexivity|].
    split.
    { intros _. split; [reflexivity|]. exists new.
      split; [reflexivity|]. split; [exact Hlen|]. split; [exact Hall|].
      split; [exact Hnth | reflexivity]. }
    apply Hth. intros H; discriminate H.
  - cbn [fst snd fw_vel fw_pos fw_exploded fw_trailParticles fw_explosionParticles
         fw_set_trailParticles].
    rewrite Hneg.
    split; [exact Hvel|]. split; [exact Hpos|]. split; [exact Hex|].
    split; [intros H; congruence|].
    apply Hth. intros _. split; [reflexivity|]. split; [|reflexivity].
    apply (rocket_trail_loop_length dt g s).
Qed.

(** ** The two configurations *)

Lemma configured_one_configuration (f : Firework) :
  configured f -> one_configuration f.
Proof.
  unfold configured, one_configuration, rising, exploded.
  intros [[(He & Ht & Hx) _]|(He & Ht & Hx)]; [left|right];
    (split; [now repeat split|]); intros (He' & _); congruence.
Qed.

Lemma for_each_preserves {A : Type} (P : A -> Prop) (body : A -> M A) (v : list A)
    (s : RandState) :
  (forall p s0, P p -> P (fst (body p s0))) ->
  Forall P v -> Forall P (fst (for_each body v s)).
Proof.
  intros Hb Hv. apply for_each_Forall. intros p s0 Hp. apply Hb.
  rewrite Forall_forall in Hv. now apply Hv.
Qed.

Section Configured.
Hypothesis Hrand : rand_in_range.
Hypothesis Htrail : 0 < NUM_TRAIL_PARTICLES cfg.
Hypothesis Hmin : 0 < MIN_PARTICLES cfg.

Lemma Firework_reset_configured (f : Firework) (s : RandState) :
  configured (fst (Firework_reset cfg f s)).
Proof.
  left. split; [split; [|split]|].
  - apply Firework_reset_exploded.
  - pose proof (Firework_reset_trail_count f s) as Hlen.
    intros E. rewrite E in Hlen. simpl in Hlen. lia.
  - apply Firework_reset_explosionParticles.
  - rewrite Firework_reset_numParticles. pose proof (Hrand s) as Hs.
    destruct (Z.eq_dec (MAX_PARTICLES cfg - MIN_PARTICLES cfg) 0) as [E|E].
    + rewrite (Z.rem_0_r_ext _ _ E). lia.
    + pose proof (Z.rem_nonneg (fst (rand s)) _ E (proj1 Hs)). lia.
Qed.

Lemma Firework_update_configured (dt : float) (f : Firework) (s : RandState) :
  configured f -> configured (fst (Firework_update cfg dt f s)).
Proof.
  intros [[(He & Ht & Hx) Hn]|(He & Ht & Hx)].
  - rewrite (Firework_update_rising dt f s He). cbv zeta.
    set (g := integrate_gravity cfg dt f).
    destruct (F32.ltb (y3 (fw_vel g)) f0).
    + right.
      destruct (creation_loop_count (Z.to_nat (fw_numParticles f))
                  (fw_set_trailParticles (fw_set_exploded g true) [])
                  (snd (rocket_trail_loop dt g s))) as (new & -> & Hlen).
      repeat split. cbn. change (fw_explosionParticles f ++ new <> []).
      rewrite Hx. simpl. intros ->. simpl in Hlen. lia.
    + left. cbn [fst]. split; [repeat split|exact Hn].
      * exact He.
      * cbn [fw_trailParticles fw_set_trailParticles]. intros E.
        pose proof (rocket_trail_loop_length dt g s) as Hlen.
        assert (Hg : fw_trailParticles g = fw_trailParticles f) by reflexivity.
        rewrite E, Hg in Hlen.
        destruct (fw_trailParticles f); [now apply Ht | discriminate Hlen].
      * exact Hx.
  - unfold Firework_update. rewrite He.
    destruct (update_explosionParticles_cases dt (fw_explosionParticles f) true [] f s)
      as [(g & s0 & ->)|(es & Hlen & ->)].
    + reflexivity.
    + apply Firework_reset_configured.
    + right. repeat split; [exact He | exact Ht |]. cbn.
      intros ->. simpl in Hlen. destruct (fw_explosionParticles f); [now apply Hx | discriminate].
Qed.

Lemma Firework_run_configured (dts : list float) :
  forall (f : Firework) (s : RandState),
    configured f -> configured (fst (Firework_run cfg dts f s)).
Proof.
  induction dts as [|dt dts IH]; intros f s Hf; simpl.
  - exact Hf.
  - rewrite bind_run. apply IH, Firework_update_configured, Hf.
Qed.

Lemma initFireworks_configured (fireworks : list Firework) (s : RandState) :
  Forall configured fireworks ->
  Forall configured (fst (initFireworks cfg fireworks s)).
Proof.
  intros Hf. unfold initFireworks. apply for_count_inv; [|exact Hf].
  intros a s0 Ha. rewrite bind_run. cbn. apply Forall_app. split; [exact Ha|].
  constructor; [|constructor]. apply Firework_reset_configured.
Qed.

Lemma run_configured (dts : list float) :
  forall (fireworks : list Firework) (s : RandState),
    Forall configured fireworks -> Forall configured (fst (run cfg dts fireworks s)).
Proof.
  induction dts as [|dt dts IH]; intros fireworks s Hf; simpl.
  - exact Hf.
  - rewrite bind_run. apply IH. unfold update. apply for_each_preserves; [|exact Hf].
    intros p s0. apply Firework_update_configured.
Qed.

End Configured.

(** C7: when [rand()] stays in its range and the configuration asks for at
    least one trail particle and at least one explosion particle, every
    firework is in exactly one of the two configurations (not exploded,
    trail particles, no explosion particles; or exploded, no trail
    particles, explosion particles) after any number of frames: both a
    single firework counted from a [reset()], and every firework of the
    world counted from [initFireworks]. *)
Theorem mutual_exclusion (dts : list float) (s : RandState) :
  rand_in_range ->
  0 < NUM_TRAIL_PARTICLES cfg ->
  0 < MIN_PARTICLES cfg ->
  (forall f : Firework,
     let r := Firework_reset cfg f s in
     one_configuration (fst (Firework_run cfg dts (fst r) (snd r)))) /\
  (let w := initFireworks cfg [] s in
   Forall one_configuration (fst (run cfg dts (fst w) (snd w)))).
Proof.
  intros Hr Ht Hm. split.
  - intros f. cbv zeta. apply configured_one_configuration, Firework_run_configured;
      try assumption. now apply Firework_reset_configured.
  - cbv zeta. eapply Forall_impl; [exact configured_one_configuration|].
    apply run_configured; try assumption.
    apply initFireworks_configured; try assumption. constructor.
Qed.

(** ** The apex scenario: +400 against -200 per second squared, dt = 0.1 *)

(** In binary32, [-200 * 0.1f] is exactly -20, so the vertical velocity
    goes down the multiples of 20 without rounding. *)
Lemma gravity_tick (k : nat) :
  (k < 20)%nat ->
  (F32.of_Z (20 * Z.of_nat (S k)) + F32.of_Z (-200) * F32.lit 1 10)%f32 =
    F32.of_Z (20 * Z.of_nat k) /\
  (F32.of_Z (20 * Z.of_nat k) <? f0)%f32 = false.
Proof.
  intros Hk.
  do 20 (destruct k as [|k]; [vm_compute; split; reflexivity|]).
  lia.
Qed.

Lemma gravity_tick_apex :
  (F32.of_Z (20 * Z.of_nat 0) + F32.of_Z (-200) * F32.lit 1 10 <? f0)%f32 = true.
Proof. vm_compute. reflexivity. Qed.

Lemma integrate_gravity_vy (dt : float) (f : Firework) :
  y3 (fw_vel (integrate_gravity cfg dt f)) =
  (y3 (fw_vel f) + y3 (GRAVITY cfg) * dt)%f32.
Proof. reflexivity. Qed.

Section Apex.
Hypothesis Hgravity : y3 (GRAVITY cfg) = F32.of_Z (-200).

(** While the velocity is a positive multiple of 20 the rocket keeps rising. *)
Lemma rising_tick (k : nat) (f : Firework) (s : RandState) :
  (k < 20)%nat ->
  fw_exploded f = false ->
  y3 (fw_vel f) = F32.of_Z (20 * Z.of_nat (S k)) ->
  let f' := fst (Firework_update cfg (F32.lit 1 10) f s) in
  fw_exploded f' = false /\
  y3 (fw_vel f') = F32.of_Z (20 * Z.of_nat k) /\
  fw_explosionParticles f' = fw_explosionParticles f /\
  fw_numParticles f' = fw_numParticles f.
Proof.
  intros Hk He Hv. cbv zeta. destruct (gravity_tick k Hk) as [Hadd Hlt].
  rewrite (Firework_update_rising _ f s He). cbv zeta.
  assert (Hvy : y3 (fw_vel (integrate_gravity cfg (F32.lit 1 10) f)) =
                F32.of_Z (20 * Z.of_nat k)).
  { rewrite integrate_gravity_vy, Hv, Hgravity. exact Hadd. }
  rewrite Hvy, Hlt.
  cbn [fst fw_exploded fw_vel fw_explosionParticles fw_numParticles
       fw_set_trailParticles].
  repeat split; [exact He | exact Hvy].
Qed.

(** At velocity zero the next update makes it negative and explodes. *)
Lemma apex_tick (f : Firework) (s : RandState) :
  fw_exploded f = false ->
  y3 (fw_vel f) = F32.of_Z (20 * Z.of_nat 0) ->
  let f' := fst (Firework_update cfg (F32.lit 1 10) f s) in
  fw_exploded f' = true /\
  length (fw_explosionParticles f') =
    (length (fw_explosionParticles f) + Z.to_nat (fw_numParticles f))%nat.
Proof.
  intros He Hv. cbv zeta.
  rewrite (Firework_update_rising _ f s He). cbv zeta.
  rewrite integrate_gravity_vy, Hv, Hgravity, gravity_tick_apex.
  destruct (creation_loop_count (Z.to_nat (fw_numParticles f))
              (fw_set_trailParticles
                 (fw_set_exploded (integrate_gravity cfg (F32.lit 1 10) f) true) [])
              (snd (rocket_trail_loop (F32.lit 1 10)
                      (integrate_gravity cfg (F32.lit 1 10) f) s)))
    as (new & -> & Hlen).
  split; [reflexivity|].
  cbn [fw_explosionParticles fw_set_explosionParticles fw_set_trailParticles
       fw_set_exploded].
  rewrite length_app, Hlen. reflexivity.
Qed.

Lemma rising_run (n : nat) :
  forall (k : nat) (f : Firework) (s : RandState),
    (n + k <= 20)%nat ->
    fw_exploded f = false ->
    y3 (fw_vel f) = F32.of_Z (20 * Z.of_nat (n + k)) ->
    let g := fst (Firework_run cfg (repeat (F32.lit 1 10) n) f s) in
    fw_exploded g = false /\
    y3 (fw_vel g) = F32.of_Z (20 * Z.of_nat k) /\
    fw_explosionParticles g = fw_explosionParticles f /\
    fw_numParticles g = fw_numParticles f.
Proof.
  induction n as [|n IH]; intros k f s Hk He Hv; cbv zeta.
  - simpl. repeat split; assumption.
  - cbn [repeat Firework_run]. rewrite bind_run.
    destruct (rising_tick (n + k) f s) as (He' & Hv' & Hx' & Hn');
      [lia | exact He | exact Hv |].
    destruct (IH k _ (snd (Firework_update cfg (F32.lit 1 10) f s))
                ltac:(lia) He' Hv') as (He2 & Hv2 & Hx2 & Hn2).
    repeat split; congruence.
Qed.

End Apex.

Lemma Firework_run_app (dts1 dts2 : list float) :
  forall (f : Firework) (s : RandState),
    Firework_run cfg (dts1 ++ dts2) f s =
    Firework_run cfg dts2 (fst (Firework_run cfg dts1 f s))
      (snd (Firework_run cfg dts1 f s)).
Proof.
  induction dts1 as [|dt dts1 IH]; intros f s; simpl.
  - reflexivity.
  - rewrite !bind_run. apply IH.
Qed.

(** C8, as the code has it: a rising firework with vertical velocity +400
    under gravity -200, stepped at dt = 0.1, has vertical velocity
    400 - 20 n after n <= 20 steps and is still rising with no explosion
    particle; after the 20 steps the velocity is exactly 0, which is <= 0
    but not negative; the 21st step makes the velocity negative and
    explodes the firework into fw_numParticles explosion particles. *)
Theorem apex_after_21_steps (f : Firework) (s : RandState) :
  y3 (GRAVITY cfg) = F32.of_Z (-200) ->
  fw_exploded f = false ->
  y3 (fw_vel f) = F32.of_Z 400 ->
  fw_explosionParticles f = [] ->
  let dt := F32.lit 1 10 in
  (forall n : nat, (n <= 20)%nat ->
     let g := fst (Firework_run cfg (repeat dt n) f s) in
     fw_exploded g = false /\
     fw_explosionParticles g = [] /\
     y3 (fw_vel g) = F32.of_Z (400 - 20 * Z.of_nat n)) /\
  (let g := fst (Firework_run cfg (repeat dt 20) f s) in
   (y3 (fw_vel g) <=? f0)%f32 = true /\ (y3 (fw_vel g) <? f0)%f32 = false) /\
  (let g := fst (Firework_run cfg (repeat dt 21) f s) in
   fw_exploded g = true /\
   length (fw_explosionParticles g) = Z.to_nat (fw_numParticles f)).
Proof.
  intros Hg He Hv Hx. cbv zeta.
  assert (Hrun : forall n : nat, (n <= 20)%nat ->
            let g := fst (Firework_run cfg (repeat (F32.lit 1 10) n) f s) in
            fw_exploded g = false /\
            y3 (fw_vel g) = F32.of_Z (20 * Z.of_nat (20 - n)) /\
            fw_explosionParticles g = fw_explosionParticles f /\
            fw_numParticles g = fw_numParticles f).
  { intros n Hn. apply (rising_run Hg n (20 - n) f s); [lia | exact He |].
    rewrite Hv. f_equal. lia. }
  split; [|split].
  - intros n Hn. destruct (Hrun n Hn) as (He' & Hv' & Hx' & _).
    repeat split; [exact He' | congruence |].
    rewrite Hv'. f_equal. lia.
  - destruct (Hrun 20%nat (Nat.le_refl _)) as (_ & Hv' & _).
    rewrite Hv'. vm_compute. split; reflexivity.
  - change 21%nat with (20 + 1)%nat. rewrite repeat_app, Firework_run_app.
    destruct (Hrun 20%nat (Nat.le_refl _)) as (He' & Hv' & Hx' & Hn').
    change (repeat (F32.lit 1 10) 1) with [F32.lit 1 10].
    cbn [Firework_run]. rewrite bind_run, ret_run. cbn [fst].
    destruct (apex_tick Hg _ (snd (Firework_run cfg (repeat (F32.lit 1 10) 20) f s))
                He' Hv') as (He2 & Hlen).
    split; [exact He2|].
    rewrite Hlen, Hx', Hx, Hn'. reflexivity.
Qed.

(** ** The scale of trail particles *)

Lemma TrailParticle_update_scale dt sourceVel sourceLife p :
  tp_scale (TrailParticle_update dt sourceVel sourceLife p) = tp_scale p.
Proof. rewrite TrailParticle_update_eq. reflexivity. Qed.

Lemma respawnParticle_eq (f : Firework) (p : TrailParticle) (s : RandState) :
  respawnParticle f p s =
  (mkTrailParticle (fw_pos f +s jitter (fst (rand s)))
     (fw_vel f *s rand_scaled (fst (rand (snd (rand s)))) (F32.lit 1 4) (F32.lit 3 4))
     (tp_color p) f1 (tp_scale p) (tp_lifeDecreaseRate p),
   snd (rand (snd (rand s)))).
Proof. unfold respawnParticle. rewrite !bind_run. reflexivity. Qed.

Lemma rocket_trail_step_scale (dt : float) (f : Firework) (p : TrailParticle)
    (s : RandState) :
  tp_scale
    (fst ((let p := TrailParticle_update dt (fw_vel f) (F32.of_Z 1) p in
           if (tp_life p <=? f0)%f32 then respawnParticle f p else ret p) s)) =
  tp_scale p.
Proof.
  cbv zeta. destruct (F32.leb _ f0).
  - rewrite respawnParticle_eq. cbn [fst tp_scale]. apply TrailParticle_update_scale.
  - apply TrailParticle_update_scale.
Qed.

Lemma explosion_trail_step_scale (dt : float) (e : ExplosionParticle)
    (p : TrailParticle) (s : RandState) :
  tp_scale
    (fst ((let p := TrailParticle_update dt (ep_vel e) (ep_life e) p in
           if (tp_life p <=? f0)%f32 then respawnTrailParticle e p else ret p) s)) =
  tp_scale p.
Proof.
  cbv zeta. destruct (F32.leb _ f0).
  - rewrite respawnTrailParticle_eq. cbn [fst tp_scale]. apply TrailParticle_update_scale.
  - apply TrailParticle_update_scale.
Qed.

Lemma ExplosionParticle_update_unit_scale (dt : float) (e : ExplosionParticle)
    (s : RandState) :
  Forall unit_scale (ep_trailParticles e) ->
  Forall unit_scale (ep_trailParticles (fst (ExplosionParticle_update cfg dt e s))).
Proof.
  intros H. rewrite ExplosionParticle_update_eq. cbn [fst ep_trailParticles].
  apply for_each_preserves; [|exact H].
  intros p s0 Hp. unfold unit_scale. now rewrite explosion_trail_step_scale.
Qed.

(** As long as no [reset()] happens, the loop over the explosion particles
    keeps what [ExplosionParticle::update] keeps. *)
Lemma update_explosionParticles_keeps (P : ExplosionParticle -> Prop) (dt : float) :
  (forall p s, P p -> P (fst (ExplosionParticle_update cfg dt p s))) ->
  forall (todo done : list ExplosionParticle) (f : Firework) (s : RandState),
    fw_explosionParticles f = done ++ todo ->
    Forall P done -> Forall P todo ->
    let f' := fst (update_explosionParticles cfg dt true done todo f s) in
    (exists g s0, f' = fst (Firework_reset cfg g s0)) \/
    (exists es, Forall P es /\ f' = fw_set_explosionParticles f es).
Proof.
  intros HP. induction todo as [|p rest IH]; intros done f s Hf Hd Ht; cbv zeta.
  - right. exists done. split; [exact Hd|]. cbn [update_explosionParticles].
    rewrite ret_run. cbn [fst]. rewrite app_nil_r in Hf. rewrite <- Hf.
    symmetry. apply fw_set_explosionParticles_same.
  - cbn [update_explosionParticles]. rewrite bind_run.
    set (p' := fst (ExplosionParticle_update cfg dt p s)).
    set (s1 := snd (ExplosionParticle_update cfg dt p s)).
    inversion Ht as [|? ? Hp Hrest]; subst.
    destruct (F32.leb (ep_life p') f0).
    + rewrite bind_run. left.
      match goal with |- context [Firework_reset cfg ?g ?s0] =>
        destruct (update_explosionParticles_cases dt rest false (done ++ [p'])
                    (fst (Firework_reset cfg g s0)) (snd (Firework_reset cfg g s0)))
          as [H|H]; [discriminate | exact H | cbv beta iota in H; rewrite H; now exists g, s0]
      end.
    + destruct (IH (done ++ [p'])
                  (fw_set_explosionParticles f (done ++ p' :: rest)) s1)
        as [H|(es & Hes & ->)].
      * cbn. now rewrite <- app_assoc.
      * apply Forall_app. split; [exact Hd|]. constructor; [|constructor].
        apply HP, Hp.
      * exact Hrest.
      * left; exact H.
      * right. exists es. split; [exact Hes | reflexivity].
Qed.

Lemma push_explosionParticle_unit_scale (f : Firework) (s : RandState) :
  exists e s',
    push_explosionParticle cfg f s =
      (fw_set_explosionParticles f (fw_explosionParticles f ++ [e]), s') /\
    (fun _ _ e => Forall unit_scale (ep_trailParticles e) /\
                  exists s3, ep_scale e =
                    (F32.of_Z (Z.rem (fst (rand s3)) (SCALE_RANGE cfg)) + MIN_SCALE cfg)%f32)
      (fw_pos f) (fw_color f) e.
Proof.
  unfold push_explosionParticle. rewrite !bind_run.
  match goal with |- context [ExplosionParticle_new cfg ?p ?v ?c ?sc ?s0] =>
    destruct (ExplosionParticle_new_eq p v c sc s0) as (ts & s' & E & _ & Hall)
  end.
  rewrite E. cbn [fst snd ret]. eexists _, _. split; [reflexivity|].
  cbn [ep_trailParticles ep_scale]. split.
  - eapply Forall_impl; [|exact Hall]. intros p [(_ & _ & _ & H) _]. exact H.
  - eexists. reflexivity.
Qed.

Lemma Firework_reset_trails_unit_scale (f : Firework) (s : RandState) :
  trails_unit_scale (fst (Firework_reset cfg f s)).
Proof.
  split; [apply Firework_reset_trail_scale|].
  rewrite Firework_reset_explosionParticles. constructor.
Qed.

Lemma Firework_update_trails_unit_scale (dt : float) (f : Firework) (s : RandState) :
  trails_unit_scale f -> trails_unit_scale (fst (Firework_update cfg dt f s)).
Proof.
  intros [Ht Hx]. destruct (fw_exploded f) eqn:He.
  - unfold Firework_update. rewrite He.
    destruct (update_explosionParticles_keeps
                (fun e => Forall unit_scale (ep_trailParticles e)) dt
                (ExplosionParticle_update_unit_scale dt)
                (fw_explosionParticles f) [] f s eq_refl (Forall_nil _) Hx)
      as [(g & s0 & ->)|(es & Hes & ->)].
    + apply Firework_reset_trails_unit_scale.
    + split; [exact Ht | exact Hes].
  - rewrite (Firework_update_rising dt f s He). cbv zeta.
    set (g := integrate_gravity cfg dt f).
    destruct (F32.ltb (y3 (fw_vel g)) f0).
    + destruct (creation_loop _ push_explosionParticle_unit_scale
                  (Z.to_nat (fw_numParticles f))
                  (fw_set_trailParticles (fw_set_exploded g true) [])
                  (snd (rocket_trail_loop dt g s))) as (new & -> & _ & Hall).
      split; [constructor|].
      cbn [fw_explosionParticles fw_set_explosionParticles fw_set_trailParticles
           fw_set_exploded].
      apply Forall_app. split; [exact Hx|].
      eapply Forall_impl; [|exact Hall]. intros e [H _]. exact H.
    + split; [|exact Hx]. cbn [fst fw_trailParticles fw_set_trailParticles].
      apply for_each_preserves; [|exact Ht].
      intros p s0 Hp. unfold unit_scale. now rewrite rocket_trail_step_scale.
Qed.

Lemma Firework_reset_scale (f : Firework) (s : RandState) :
  exists s0 : RandState,
    fw_scale (fst (Firework_reset cfg f s)) =
    (F32.of_Z (Z.rem (fst (rand s0)) (SCALE_RANGE cfg)) + MIN_SCALE cfg)%f32.
Proof.
  destruct (Firework_reset_eq f s) as (g & s1 & -> & _ & _ & _ & _ & s0 & Hs).
  exists s0. rewrite for_count_keeps; [exact Hs|]. intros a s'. now rewrite !bind_run.
Qed.

Lemma initFireworks_trails_unit_scale (fireworks : list Firework) (s : RandState) :
  Forall trails_unit_scale fireworks ->
  Forall trails_unit_scale (fst (initFireworks cfg fireworks s)).
Proof.
  intros Hf. unfold initFireworks. apply for_count_inv; [|exact Hf].
  intros a s0 Ha. rewrite bind_run. cbn. apply Forall_app. split; [exact Ha|].
  constructor; [|constructor]. apply Firework_reset_trails_unit_scale.
Qed.

Lemma run_trails_unit_scale (dts : list float) :
  forall (fireworks : list Firework) (s : RandState),
    Forall trails_unit_scale fireworks ->
    Forall trails_unit_scale (fst (run cfg dts fireworks s)).
Proof.
  induction dts as [|dt dts IH]; intros fireworks s Hf; cbn [run].
  - exact Hf.
  - rewrite bind_run. apply IH. unfold update. apply for_each_preserves; [|exact Hf].
    intros p s0. apply Firework_update_trails_unit_scale.
Qed.

(** C10: every trail particle is created with scale 1, by [reset()] for
    the rocket and by the [ExplosionParticle] constructor; [update] and
    both respawn functions leave the scale of a trail particle as it is, so
    every trail particle of the world has scale 1 after any number of
    frames; the drawn scale [rand() % SCALE_RANGE + MIN_SCALE] goes to the
    rocket and to each explosion particle. *)
Theorem trail_particles_have_scale_one :
  (forall f s, Forall unit_scale (fw_trailParticles (fst (Firework_reset cfg f s)))) /\
  (forall pos vel color scale s,
     Forall unit_scale
       (ep_trailParticles (fst (ExplosionParticle_new cfg pos vel color scale s)))) /\
  (forall dt sourceVel sourceLife p,
     tp_scale (TrailParticle_update dt sourceVel sourceLife p) = tp_scale p) /\
  (forall f p s, tp_scale (fst (respawnParticle f p s)) = tp_scale p) /\
  (forall e p s, tp_scale (fst (respawnTrailParticle e p s)) = tp_scale p) /\
  (forall dt f s,
     trails_unit_scale f -> trails_unit_scale (fst (Firework_update cfg dt f s))) /\
  (forall dts s,
     let w := initFireworks cfg [] s in
     Forall trails_unit_scale (fst (run cfg dts (fst w) (snd w)))) /\
  (forall f s, exists s0,
     fw_scale (fst (Firework_reset cfg f s)) =
     (F32.of_Z (Z.rem (fst (rand s0)) (SCALE_RANGE cfg)) + MIN_SCALE cfg)%f32) /\
  (forall f s, exists e s' s0,
     push_explosionParticle cfg f s =
       (fw_set_explosionParticles f (fw_explosionParticles f ++ [e]), s') /\
     ep_scale e =
       (F32.of_Z (Z.rem (fst (rand s0)) (SCALE_RANGE cfg)) + MIN_SCALE cfg)%f32).
Proof.
  repeat match goal with |- _ /\ _ => split end.
  - apply Firework_reset_trail_scale.
  - intros pos vel color scale s.
    destruct (ExplosionParticle_new_eq pos vel color scale s) as (ts & s' & -> & _ & H).
    eapply Forall_impl; [|exact H]. intros p [(_ & _ & _ & Hp) _]. exact Hp.
  - apply TrailParticle_update_scale.
  - intros f p s. now rewrite respawnParticle_eq.
  - intros e p s. now rewrite respawnTrailParticle_eq.
  - apply Firework_update_trails_unit_scale.
  - intros dts s. cbv zeta. apply run_trails_unit_scale, initFireworks_trails_unit_scale.
    constructor.
  - apply Firework_reset_scale.
  - intros f s.
    destruct (push_explosionParticle_unit_scale f s) as (e & s' & E & _ & s0 & Hs).
    now exists e, s', s0.
Qed.

(** ** initFireworks *)

Lemma Firework_reset_trail_rate (f : Firework) (s : RandState) :
  Forall (fun p => exists s0 : RandState,
            tp_lifeDecreaseRate p =
            rand_scaled (fst (rand s0))
              (TRAIL_MAX_DECREASE_RATE cfg - TRAIL_MIN_DECREASE_RATE cfg)%f32
              (TRAIL_MIN_DECREASE_RATE cfg))
    (fw_trailParticles (fst (Firework_reset cfg f s))).
Proof.
  destruct (Firework_reset_eq f s) as (g & s1 & -> & _ & Ht & _).
  apply (for_count_inv
           (fun f => Forall (fun p => exists s0 : RandState,
                               tp_lifeDecreaseRate p =
                               rand_scaled (fst (rand s0))
                                 (TRAIL_MAX_DECREASE_RATE cfg
                                  - TRAIL_MIN_DECREASE_RATE cfg)%f32
                                 (TRAIL_MIN_DECREASE_RATE cfg))
                       (fw_trailParticles f))).
  - intros a s' Ha. rewrite !bind_run. cbn. apply Forall_app. split; [exact Ha|].
    constructor; [|constructor]. now exists s'.
  - rewrite Ht. constructor.
Qed.

(** The members [reset()] assigns from its first seven draws. *)
Lemma Firework_reset_members (f : Firework) (s : RandState) :
  let f' := fst (Firework_reset cfg f s) in
  exists rn rp rx ry rr rg rb : Z,
    (drawn rn /\ drawn rp /\ drawn rx /\ drawn ry /\ drawn rr /\ drawn rg /\ drawn rb) /\
    fw_numParticles f' =
      Z.rem rn (MAX_PARTICLES cfg - MIN_PARTICLES cfg) + MIN_PARTICLES cfg /\
    fw_pos f' = mkVec3 (F32.of_Z (Z.rem rp (WORLD_WIDTH cfg))) f0 f0 /\
    fw_vel f' =
      mkVec3
        (F32.of_Z (Z.rem rx (MAX_INIT_X_VEL cfg - MIN_INIT_X_VEL cfg) + MIN_INIT_X_VEL cfg))
        (F32.of_Z (Z.rem ry (MAX_INIT_Y_VEL cfg - MIN_INIT_Y_VEL cfg) + MIN_INIT_Y_VEL cfg))
        f0 /\
    fw_color f' =
      mkVec4 (rand_scaled rr (F32.lit 3 4) (F32.lit 1 4))
             (rand_scaled rg (F32.lit 3 4) (F32.lit 1 4))
             (rand_scaled rb (F32.lit 3 4) (F32.lit 1 4)) f1.
Proof.
  cbv zeta. unfold Firework_reset, randomiseColor. rewrite !bind_run.
  rewrite (for_count_keeps fw_numParticles), (for_count_keeps fw_pos),
    (for_count_keeps fw_vel), (for_count_keeps fw_color)
    by (intros a s'; now rewrite !bind_run).
  cbn [fst snd ret fw_numParticles fw_pos fw_vel fw_color fw_set_color fw_set_scale
       fw_set_vel fw_set_pos fw_set_numParticles fw_set_exploded fw_set_trailParticles
       fw_set_explosionParticles].
  eexists _, _, _, _, _, _, _.
  split; [repeat split; eexists; reflexivity|].
  repeat split.
Qed.

Lemma rem_offset_range (r lo hi : Z) :
  0 <= r -> lo < hi -> lo <= Z.rem r (hi - lo) + lo < hi.
Proof.
  intros Hr Hlt. pose proof (Z.rem_bound_pos r (hi - lo) Hr) as H.
  lapply H; [lia | lia].
Qed.

(** With a modulus that is not 0 and constants of moderate size, the
    sampled [int] fits an [int]. *)
Lemma rem_offset_int (r lo hi : Z) :
  0 <= r -> hi - lo <> 0 ->
  - 2 ^ 29 <= lo <= 2 ^ 29 -> - 2 ^ 29 <= hi <= 2 ^ 29 ->
  - 2 ^ 31 <= Z.rem r (hi - lo) + lo < 2 ^ 31.
Proof.
  intros Hr Hm Hlo Hhi.
  change (2 ^ 29) with 536870912 in *. change (2 ^ 31) with 2147483648.
  destruct (Z.lt_trichotomy (hi - lo) 0) as [H|[H|H]]; [|contradiction|].
  - pose proof (Z.rem_bound_pos r (- (hi - lo)) Hr ltac:(lia)) as Hb.
    rewrite Z.rem_opp_r in Hb by lia. lia.
  - pose proof (Z.rem_bound_pos r (hi - lo) Hr H) as Hb. lia.
Qed.

(** C9, as the code has it: [initFireworks] checks nothing.  For every
    configuration that keeps the integer arithmetic of [reset()] defined (no
    modulus 0, constants of moderate size), whatever its decay rates and
    float ranges are (a range with min > max, a non-positive decay rate),
    it returns, having appended NUM_FIREWORKS fireworks, each as [reset()]
    leaves it: not exploded, no explosion particles, a particle count and
    launch coordinates that are [int] values, NUM_TRAIL_PARTICLES trail
    particles at life 1 whose decay rates are
    [rand() / RAND_MAX * (max - min) + min] computed from the range as it
    is configured; and an explosion particle's update takes
    [EXPLOSION_LIFE_DECREASE_RATE * dt] off its life whatever the sign of
    the rate. *)
Theorem initFireworks_unchecked (fireworks : list Firework) (s : RandState) :
  rand_in_range -> int_arithmetic_defined cfg ->
  (exists new,
     fst (initFireworks cfg fireworks s) = fireworks ++ new /\
     length new = Z.to_nat (NUM_FIREWORKS cfg) /\
     Forall (fun f =>
               fw_exploded f = false /\
               fw_explosionParticles f = [] /\
               - 2 ^ 31 <= fw_numParticles f < 2 ^ 31 /\
               (exists kx vx vy : Z,
                  (- 2 ^ 31 <= kx < 2 ^ 31 /\ - 2 ^ 31 <= vx < 2 ^ 31 /\
                   - 2 ^ 31 <= vy < 2 ^ 31) /\
                  fw_pos f = mkVec3 (F32.of_Z kx) f0 f0 /\
                  fw_vel f = mkVec3 (F32.of_Z vx) (F32.of_Z vy) f0) /\
               length (fw_trailParticles f) = Z.to_nat (NUM_TRAIL_PARTICLES cfg) /\
               Forall (fun p => tp_life p = F32.of_Z 1) (fw_trailParticles f) /\
               Forall (fun p => exists s0 : RandState,
                         tp_lifeDecreaseRate p =
                         (F32.of_Z (fst (rand s0)) / F32.of_Z RAND_MAX
                          * (TRAIL_MAX_DECREASE_RATE cfg - TRAIL_MIN_DECREASE_RATE cfg)
                          + TRAIL_MIN_DECREASE_RATE cfg)%f32)
                 (fw_trailParticles f))
       new) /\
  (forall (dt : float) (e : ExplosionParticle) (s0 : RandState),
     ep_life (fst (ExplosionParticle_update cfg dt e s0)) =
     (ep_life e - EXPLOSION_LIFE_DECREASE_RATE cfg * dt)%f32).
Proof.
  intros Hrand ((Hmn & Hmw & Hmx & Hmy & _) & Hsize).
  rewrite Forall_forall in Hsize.
  assert (Hin : forall c,
            In c [MIN_PARTICLES cfg; MAX_PARTICLES cfg; WORLD_WIDTH cfg;
                  MIN_INIT_X_VEL cfg; MAX_INIT_X_VEL cfg;
                  MIN_INIT_Y_VEL cfg; MAX_INIT_Y_VEL cfg] ->
            - 2 ^ 29 <= c <= 2 ^ 29).
  { intros c Hc. apply Hsize. cbn [In] in *. tauto. }
  split; [|intros dt e s0; apply ExplosionParticle_update_life].
  unfold initFireworks. generalize (Z.to_nat (NUM_FIREWORKS cfg)) as n.
  intros n. revert fireworks s. induction n as [|n IH]; intros fireworks s.
  - exists []. cbn. rewrite app_nil_r. repeat split. constructor.
  - cbn [for_count]. rewrite !bind_run. cbn [fst snd ret].
    match goal with |- context [for_count n _ (fireworks ++ [?f]) ?s0] =>
      destruct (IH (fireworks ++ [f]) s0) as (new & -> & Hlen & Hall);
      exists (f :: new)
    end.
    rewrite <- app_assoc. split; [reflexivity|]. split; [simpl; now rewrite Hlen|].
    constructor; [|exact Hall]. unfold Firework_new.
    match goal with |- context [Firework_reset cfg ?g ?s0] =>
      destruct (Firework_reset_members g s0)
        as (rn & rp & rx & ry & rr & rg & rb &
            ((sn & ->) & (sp & ->) & (sx & ->) & (sy & ->) & _) & En & Ep & Ev & _)
    end.
    split; [apply Firework_reset_exploded|].
    split; [apply Firework_reset_explosionParticles|].
    split.
    { rewrite En. apply rem_offset_int; [apply Hrand | exact Hmn | |];
        apply Hin; cbn [In]; tauto. }
    split.
    { eexists _, _, _. split; [|split; [exact Ep | exact Ev]].
      split; [|split].
      - pose proof (rem_offset_int (fst (rand sp)) 0 (WORLD_WIDTH cfg)) as H.
        rewrite Z.sub_0_r, Z.add_0_r in H.
        apply H; [apply Hrand | exact Hmw | cbv; split; discriminate |].
        apply Hin; cbn [In]; tauto.
      - apply rem_offset_int; [apply Hrand | exact Hmx | |]; apply Hin; cbn [In]; tauto.
      - apply rem_offset_int; [apply Hrand | exact Hmy | |]; apply Hin; cbn [In]; tauto. }
    split; [apply Firework_reset_trail_count|].
    split; [|apply Firework_reset_trail_rate].
    eapply Forall_impl; [|apply Firework_reset_trail_fresh].
    intros p (H & _). exact H.
Qed.

(** ** The respawn rules *)

Lemma jitter_numeric (r : Z) :
  0 <= r ->
  F32.valid (jitter r) = true /\ finite_or_zero (jitter r) = true /\
  - (5 * 2 ^ 300) <= sval (jitter r) <= 5 * 2 ^ 300.
Proof.
  intros Hr. change (jitter r) with (jitter_of (Z.rem r 100)).
  apply jitter_props, Z.rem_bound_pos; lia.
Qed.

Lemma jitter_range (r : Z) :
  0 <= r ->
  (F32.of_Z (-5) <=? jitter r)%f32 = true /\ (jitter r <=? F32.of_Z 5)%f32 = true.
Proof.
  intros Hr. destruct (jitter_numeric r Hr) as (Vj & Fj & Hj).
  assert (Nj : is_nan (jitter r) = false) by (destruct (jitter r); trivial; discriminate).
  unfold F32.leb. rewrite !SFleb_ord by (assumption || reflexivity).
  rewrite (ord_sval (jitter r) Vj Fj).
  rewrite (ord_sval (F32.of_Z (-5))), (ord_sval (F32.of_Z 5)) by reflexivity.
  change (sval (F32.of_Z (-5))) with (- (5 * 2 ^ 300)).
  change (sval (F32.of_Z 5)) with (5 * 2 ^ 300).
  split; apply Z.leb_le, Rz_mono; lia.
Qed.

Lemma rand_scaled_range (r : Z) :
  0 <= r <= RAND_MAX -> 0 < RAND_MAX <= 2147483647 ->
  (F32.lit 3 4 <=? rand_scaled r (F32.lit 1 4) (F32.lit 3 4))%f32 = true /\
  (rand_scaled r (F32.lit 1 4) (F32.lit 3 4) <=? F32.of_Z 1)%f32 = true.
Proof.
  intros Hr HR. exact (unit_interval_scaled r RAND_MAX Hr HR).
Qed.

Lemma vadd_scalar_within (v : vec3) (r : Z) :
  0 <= r -> numeric3 v -> within_five3 v (v +s jitter r).
Proof.
  intros Hr ((Vx & Nx) & (Vy & Ny) & (Vz & Nz)).
  destruct (jitter_numeric r Hr) as (Vj & Fj & Hj).
  unfold within_five3, within_five, vadd_scalar. cbn [x3 y3 z3].
  pose proof (add_within_five (x3 v) (jitter r) Vx Nx Vj Fj Hj) as Hx.
  pose proof (add_within_five (y3 v) (jitter r) Vy Ny Vj Fj Hj) as Hy.
  pose proof (add_within_five (z3 v) (jitter r) Vz Nz Vj Fj Hj) as Hz.
  repeat split; (apply Hx || apply Hy || apply Hz).
Qed.

(** The factor [(float) r / RAND_MAX * 0.25f + 0.75f] is 0.75 at the draw 0
    and 1 at the draw RAND_MAX. *)
Lemma factor_endpoints :
  0 < RAND_MAX <= 2147483647 ->
  (F32.of_Z 0 / F32.of_Z RAND_MAX * F32.lit 1 4 + F32.lit 3 4)%f32 = F32.lit 3 4 /\
  (F32.of_Z RAND_MAX / F32.of_Z RAND_MAX * F32.lit 1 4 + F32.lit 3 4)%f32 = F32.of_Z 1.
Proof.
  intros HR. destruct (of_Z_positive RAND_MAX HR) as (m & e & -> & V).
  split.
  - change (F32.of_Z 0) with (S754_zero false).
    change (S754_zero false / S754_finite false m e)%f32 with (S754_zero false).
    vm_compute. reflexivity.
  - change (S754_finite false m e / S754_finite false m e)%f32
      with (SFdiv 24 128 (S754_finite false m e) (S754_finite false m e)).
    rewrite (SFdiv_self m e V). vm_compute. reflexivity.
Qed.

(** C4: the rocket-trail respawn sets life to 1, the position to the
    firework's position plus one scalar [j] on all three axes and the
    velocity to the firework's velocity times a factor [c]; the
    explosion-trail respawn sets life to 1, the position to the explosion
    particle's position plus [j] and the velocity to the explosion
    particle's velocity times 0.1.  The rocket's respawn calls [rand()]
    twice and the explosion particle's once.  [j] is the first draw taken
    through [(r % 100 - 50) / 10.0f], which goes from -5 at 0 to 4.9 at 99
    and lies between -5 and 5; [c] is the second draw taken through
    [(float) r / RAND_MAX * 0.25f + 0.75f], which is 0.75 at the draw 0 and 1
    at the draw RAND_MAX and lies between 0.75 and 1.  On each axis the new
    position lies between the owner's coordinate minus 5 and plus 5
    whenever that coordinate is a number. *)
Theorem respawn_rules (f : Firework) (e : ExplosionParticle) (p : TrailParticle)
    (s : RandState) :
  rand_in_range ->
  0 < RAND_MAX <= 2147483647 ->
  let offset := fun r : Z => (F32.of_Z (Z.rem r 100 - 50) / F32.of_Z 10)%f32 in
  let factor := fun r : Z =>
    (F32.of_Z r / F32.of_Z RAND_MAX * F32.lit 1 4 + F32.lit 3 4)%f32 in
  let r1 := fst (rand s) in
  let r2 := fst (rand (snd (rand s))) in
  let j := offset r1 in
  let c := factor r2 in
  let p1 := fst (respawnParticle f p s) in
  let p2 := fst (respawnTrailParticle e p s) in
  (tp_life p1 = F32.of_Z 1 /\
   tp_pos p1 = mkVec3 (x3 (fw_pos f) + j) (y3 (fw_pos f) + j) (z3 (fw_pos f) + j)%f32 /\
   tp_vel p1 = fw_vel f *s c) /\
  (tp_life p2 = F32.of_Z 1 /\
   tp_pos p2 = mkVec3 (x3 (ep_pos e) + j) (y3 (ep_pos e) + j) (z3 (ep_pos e) + j)%f32 /\
   tp_vel p2 = ep_vel e *s F32.lit 1 10) /\
  (snd (respawnParticle f p s) = snd (rand (snd (rand s))) /\
   snd (respawnTrailParticle e p s) = snd (rand s)) /\
  ((F32.of_Z (-5) <=? j)%f32 = true /\ (j <=? F32.of_Z 5)%f32 = true) /\
  ((F32.lit 3 4 <=? c)%f32 = true /\ (c <=? F32.of_Z 1)%f32 = true) /\
  (offset 0 = F32.of_Z (-5) /\ offset 99 = F32.lit 49 10 /\
   factor 0 = F32.lit 3 4 /\ factor RAND_MAX = F32.of_Z 1) /\
  (numeric3 (fw_pos f) -> within_five3 (fw_pos f) (tp_pos p1)) /\
  (numeric3 (ep_pos e) -> within_five3 (ep_pos e) (tp_pos p2)) /\
  (tp_color p1, tp_scale p1, tp_lifeDecreaseRate p1) =
    (tp_color p, tp_scale p, tp_lifeDecreaseRate p) /\
  (tp_color p2, tp_scale p2, tp_lifeDecreaseRate p2) =
    (tp_color p, tp_scale p, tp_lifeDecreaseRate p).
Proof.
  intros Hrand HR. cbv zeta.
  rewrite respawnParticle_eq, respawnTrailParticle_eq.
  cbn [fst snd tp_life tp_pos tp_vel tp_color tp_scale tp_lifeDecreaseRate].
  pose proof (Hrand s) as Hs. pose proof (Hrand (snd (rand s))) as Hs'.
  destruct (factor_endpoints HR) as [E0 E1].
  split; [repeat split|]. split; [repeat split|].
  split; [split; reflexivity|].
  split; [apply jitter_range; lia|].
  split; [apply rand_scaled_range; assumption|].
  split; [split; [vm_compute; reflexivity|split; [reflexivity|split; assumption]]|].
  split; [intros H; apply vadd_scalar_within; [lia | exact H]|].
  split; [intros H; apply vadd_scalar_within; [lia | exact H]|].
  split; reflexivity.
Qed.

(** * Further properties of the simulation *)

(** ** The population of a firework *)

(** The loop over the explosion particles, as long as no [reset()]
    happens, takes every slot from [P] to what [ExplosionParticle::update]
    makes of [P], and keeps the number of slots. *)
Lemma update_explosionParticles_maps (P Q : ExplosionParticle -> Prop) (dt : float) :
  (forall p s, P p -> Q (fst (ExplosionParticle_update cfg dt p s))) ->
  forall (todo done : list ExplosionParticle) (f : Firework) (s : RandState),
    fw_explosionParticles f = done ++ todo ->
    Forall Q done -> Forall P todo ->
    let f' := fst (update_explosionParticles cfg dt true done todo f s) in
    (exists g s0, f' = fst (Firework_reset cfg g s0)) \/
    (exists es, Forall Q es /\ length es = length (done ++ todo) /\
                f' = fw_set_explosionParticles f es).
Proof.
  intros HP. induction todo as [|p rest IH]; intros done f s Hf Hd Ht; cbv zeta.
  - right. exists done. split; [exact Hd|]. split; [now rewrite app_nil_r|].
    cbn [update_explosionParticles]. rewrite ret_run. cbn [fst].
    rewrite app_nil_r in Hf. rewrite <- Hf.
    symmetry. apply fw_set_explosionParticles_same.
  - cbn [update_explosionParticles]. rewrite bind_run.
    set (p' := fst (ExplosionParticle_update cfg dt p s)).
    set (s1 := snd (ExplosionParticle_update cfg dt p s)).
    inversion Ht as [|? ? Hp Hrest]; subst.
    destruct (F32.leb (ep_life p') f0).
    + rewrite bind_run. left.
      match goal with |- context [Firework_reset cfg ?g ?s0] =>
        destruct (update_explosionParticles_cases dt rest false (done ++ [p'])
                    (fst (Firework_reset cfg g s0)) (snd (Firework_reset cfg g s0)))
          as [H|H]; [discriminate | exact H | cbv beta iota in H; rewrite H; now exists g, s0]
      end.
    + destruct (IH (done ++ [p'])
                  (fw_set_explosionParticles f (done ++ p' :: rest)) s1)
        as [H|(es & Hes & Hlen & ->)].
      * cbn. now rewrite <- app_assoc.
      * apply Forall_app. split; [exact Hd|]. constructor; [|constructor].
        apply HP, Hp.
      * exact Hrest.
      * left; exact H.
      * right. exists es. split; [exact Hes|]. split; [|reflexivity].
        rewrite Hlen, !length_app. simpl. lia.
Qed.

Lemma push_explosionParticle_new (f : Firework) (s : RandState) :
  exists e s',
    push_explosionParticle cfg f s =
      (fw_set_explosionParticles f (fw_explosionParticles f ++ [e]), s') /\
    (fun pos color e =>
       exists vel scale s0,
         e = fst (ExplosionParticle_new cfg pos vel color scale s0))
      (fw_pos f) (fw_color f) e.
Proof.
  unfold push_explosionParticle. rewrite !bind_run.
  eexists _, _. split; [reflexivity|]. cbv beta.
  eexists _, _, _. reflexivity.
Qed.

Lemma ExplosionParticle_new_life (pos vel : vec3) (color : vec4) (scale : float)
    (s : RandState) :
  ep_life (fst (ExplosionParticle_new cfg pos vel color scale s)) = f1.
Proof.
  destruct (ExplosionParticle_new_eq pos vel color scale s) as (ts & s' & -> & _).
  reflexivity.
Qed.

Lemma ExplosionParticle_new_trail_count (pos vel : vec3) (color : vec4)
    (scale : float) (s : RandState) :
  length (ep_trailParticles (fst (ExplosionParticle_new cfg pos vel color scale s))) =
  Z.to_nat (NUM_TRAIL_PARTICLES cfg).
Proof.
  destruct (ExplosionParticle_new_eq pos vel color scale s) as (ts & s' & -> & H & _).
  exact H.
Qed.

Lemma Firework_reset_populated (f : Firework) (s : RandState) :
  populated cfg (fst (Firework_reset cfg f s)) /\ same_life (fst (Firework_reset cfg f s)).
Proof.
  unfold populated, same_life.
  rewrite Firework_reset_exploded, Firework_reset_explosionParticles.
  split; [split; [apply Firework_reset_trail_count | reflexivity]|].
  exists f0. constructor.
Qed.

Lemma Firework_update_populated (dt : float) (f : Firework) (s : RandState) :
  populated cfg f /\ same_life f ->
  populated cfg (fst (Firework_update cfg dt f s)) /\
  same_life (fst (Firework_update cfg dt f s)).
Proof.
  intros [Hp [l Hl]]. unfold populated in Hp. destruct (fw_exploded f) eqn:He.
  - destruct Hp as (Ht & Hn & Hc). unfold Firework_update. rewrite He.
    destruct (update_explosionParticles_maps
                (fun e => length (ep_trailParticles e) = Z.to_nat (NUM_TRAIL_PARTICLES cfg)
                          /\ ep_life e = l)
                (fun e => length (ep_trailParticles e) = Z.to_nat (NUM_TRAIL_PARTICLES cfg)
                          /\ ep_life e = (l - EXPLOSION_LIFE_DECREASE_RATE cfg * dt)%f32)
                dt) with (todo := fw_explosionParticles f) (done := @nil ExplosionParticle)
                         (f := f) (s := s)
      as [(g & s0 & ->)|(es & Hes & Hlen & ->)].
    + intros p s0 [H1 H2]. rewrite ExplosionParticle_update_trail_count,
        ExplosionParticle_update_life, H2. now split.
    + reflexivity.
    + constructor.
    + rewrite Forall_forall in *. intros e Hin. split; [now apply Hc | now apply Hl].
    + apply Firework_reset_populated.
    + unfold populated, same_life.
      cbn [fw_exploded fw_set_explosionParticles fw_trailParticles
           fw_explosionParticles fw_numParticles]. rewrite He.
      split; [split; [exact Ht|split]|].
      * rewrite Hlen. exact Hn.
      * eapply Forall_impl; [|exact Hes]. now intros e [H _].
      * eexists. eapply Forall_impl; [|exact Hes]. intros e [_ H]. exact H.
  - destruct Hp as (Ht & Hx).
    rewrite (Firework_update_rising dt f s He). cbv zeta.
    set (g := integrate_gravity cfg dt f).
    destruct (F32.ltb (y3 (fw_vel g)) f0).
    + destruct (creation_loop _ push_explosionParticle_new
                  (Z.to_nat (fw_numParticles f))
                  (fw_set_trailParticles (fw_set_exploded g true) [])
                  (snd (rocket_trail_loop dt g s))) as (new & -> & Hlen & Hall).
      unfold populated, same_life.
      cbn [fw_exploded fw_set_explosionParticles fw_set_trailParticles fw_set_exploded
           fw_trailParticles fw_explosionParticles fw_numParticles].
      change (fw_explosionParticles g) with (fw_explosionParticles f).
      change (fw_numParticles g) with (fw_numParticles f).
      rewrite Hx. cbn [app].
      split; [split; [reflexivity|split; [exact Hlen|]]|].
      * eapply Forall_impl; [|exact Hall]. intros e (v & sc & s0 & ->).
        apply ExplosionParticle_new_trail_count.
      * exists f1. eapply Forall_impl; [|exact Hall]. intros e (v & sc & s0 & ->).
        apply ExplosionParticle_new_life.
    + unfold populated, same_life.
      cbn [fst fw_exploded fw_set_trailParticles fw_trailParticles fw_explosionParticles].
      change (fw_exploded g) with (fw_exploded f).
      change (fw_explosionParticles g) with (fw_explosionParticles f).
      rewrite He, Hx. split; [split; [|reflexivity]|exists l; constructor].
      rewrite rocket_trail_loop_length. exact Ht.
Qed.

Lemma initFireworks_length (fireworks : list Firework) (s : RandState) :
  length (fst (initFireworks cfg fireworks s)) =
  (Z.to_nat (NUM_FIREWORKS cfg) + length fireworks)%nat.
Proof.
  unfold initFireworks. apply (for_count_measure (@length Firework)).
  intros a s0. rewrite bind_run. cbn. rewrite length_app. simpl. lia.
Qed.

Lemma run_length (dts : list float) :
  forall (fireworks : list Firework) (s : RandState),
    length (fst (run cfg dts fireworks s)) = length fireworks.
Proof.
  induction dts as [|dt dts IH]; intros fireworks s; cbn [run].
  - reflexivity.
  - rewrite bind_run, IH. apply for_each_length.
Qed.

(** An invariant of [reset()] and [update] holds of every firework of the
    world at every frame. *)
Lemma world_invariant (Inv : Firework -> Prop) :
  (forall f s, Inv (fst (Firework_reset cfg f s))) ->
  (forall dt f s, Inv f -> Inv (fst (Firework_update cfg dt f s))) ->
  forall (dts : list float) (s : RandState),
    let w := initFireworks cfg [] s in
    Forall Inv (fst (run cfg dts (fst w) (snd w))).
Proof.
  intros Hreset Hupdate dts s. cbv zeta.
  assert (Hinit : Forall Inv (fst (initFireworks cfg [] s))).
  { unfold initFireworks. apply for_count_inv; [|constructor].
    intros a s0 Ha. rewrite bind_run. cbn. apply Forall_app. split; [exact Ha|].
    constructor; [|constructor]. apply Hreset. }
  revert Hinit. generalize (fst (initFireworks cfg [] s)), (snd (initFireworks cfg [] s)).
  induction dts as [|dt dts IH]; intros w s0 Hw; cbn [run].
  - exact Hw.
  - rewrite bind_run. apply IH. unfold update. apply for_each_preserves; [|exact Hw].
    intros p s1. apply Hupdate.
Qed.

(** X1: at every frame the world holds NUM_FIREWORKS fireworks, and each
    has its exact population: NUM_TRAIL_PARTICLES trail particles and no
    explosion particle while rising; no trail particle and fw_numParticles
    explosion particles, each owning NUM_TRAIL_PARTICLES trail particles,
    once exploded. *)
Theorem world_population (dts : list float) (s : RandState) :
  let w := initFireworks cfg [] s in
  let w' := fst (run cfg dts (fst w) (snd w)) in
  length w' = Z.to_nat (NUM_FIREWORKS cfg) /\ Forall (populated cfg) w'.
Proof.
  cbv zeta. split.
  - rewrite run_length, initFireworks_length. simpl. lia.
  - eapply Forall_impl; [|apply (world_invariant (fun f => populated cfg f /\ same_life f))].
    + now intros f [H _].
    + apply Firework_reset_populated.
    + intros dt f s0. apply Firework_update_populated.
Qed.

(** X2: at every frame all explosion particles of a firework have the same
    life, so in any update either none of them expires or all of them do:
    the reset on the first expiry never cuts short a particle that had
    life left. *)
Theorem explosion_particles_expire_together (dts : list float) (s : RandState) :
  let w := initFireworks cfg [] s in
  Forall (fun f =>
            same_life f /\
            forall dt : float,
              Exists (expires cfg dt) (fw_explosionParticles f) ->
              Forall (expires cfg dt) (fw_explosionParticles f))
    (fst (run cfg dts (fst w) (snd w))).
Proof.
  cbv zeta.
  eapply Forall_impl; [|apply (world_invariant (fun f => populated cfg f /\ same_life f))].
  - intros f [_ [l Hl]]. split; [now exists l|].
    intros dt Hex. rewrite Forall_forall in *. rewrite Exists_exists in Hex.
    destruct Hex as (e0 & Hin0 & He0). intros e Hin. unfold expires in *.
    rewrite (Hl e Hin). rewrite (Hl e0 Hin0) in He0. exact He0.
  - apply Firework_reset_populated.
  - intros dt f s0. apply Firework_update_populated.
Qed.

(** ** A firework without explosion particles *)

Lemma Firework_update_dud (dt : float) (f : Firework) (s : RandState) :
  fw_exploded f = true -> fw_explosionParticles f = [] ->
  Firework_update cfg dt f s = (f, s).
Proof.
  intros He Hx. unfold Firework_update. rewrite He, Hx. reflexivity.
Qed.

(** X3: a rising firework whose particle count is not positive still
    explodes when its velocity turns negative, into no particle at all, and
    from then on no update changes it or draws from [rand()]: it is never
    reset. *)
Theorem empty_explosion_never_resets (dt : float) (f : Firework) (s : RandState) :
  fw_exploded f = false ->
  fw_explosionParticles f = [] ->
  fw_numParticles f <= 0 ->
  (y3 (fw_vel f +v GRAVITY cfg *s dt) <? f0)%f32 = true ->
  let r := Firework_update cfg dt f s in
  fw_exploded (fst r) = true /\
  fw_trailParticles (fst r) = [] /\
  fw_explosionParticles (fst r) = [] /\
  forall dts : list float, Firework_run cfg dts (fst r) (snd r) = r.
Proof.
  intros He Hx Hn Hneg. cbv zeta.
  rewrite (Firework_update_rising dt f s He). cbv zeta.
  change (fw_vel (integrate_gravity cfg dt f)) with (fw_vel f +v GRAVITY cfg *s dt).
  rewrite Hneg.
  replace (Z.to_nat (fw_numParticles f)) with 0%nat by lia.
  cbn [for_count]. rewrite ret_run. cbn [fst snd].
  set (g := fw_set_trailParticles
              (fw_set_exploded (integrate_gravity cfg dt f) true) []).
  assert (Hge : fw_exploded g = true) by reflexivity.
  assert (Hgx : fw_explosionParticles g = []) by exact Hx.
  repeat split; try assumption.
  intros dts. generalize (snd (rocket_trail_loop dt (integrate_gravity cfg dt f) s)).
  induction dts as [|d dts IH]; intros s0; cbn [Firework_run].
  - reflexivity.
  - rewrite bind_run, (Firework_update_dud d g s0 Hge Hgx). cbn [fst snd]. apply IH.
Qed.

(** ** Properties of every trail particle *)

Section TrailInvariant.
Variable P : TrailParticle -> Prop.

(** What the constructors create satisfies [P]. *)
Hypothesis Hnew :
  forall (pos vel : vec3) (color : vec4) (s0 : RandState),
    P (TrailParticle_new pos vel color (F32.of_Z 1)
         (rand_scaled (fst (rand s0))
            (TRAIL_MAX_DECREASE_RATE cfg - TRAIL_MIN_DECREASE_RATE cfg)%f32
            (TRAIL_MIN_DECREASE_RATE cfg))).

(** An updated particle that is not respawned satisfies [P]. *)
Hypothesis Hkeep :
  forall (dt : float) (vel : vec3) (life : float) (p : TrailParticle),
    P p ->
    (tp_life (TrailParticle_update dt vel life p) <=? f0)%f32 = false ->
    P (TrailParticle_update dt vel life p).

(** A respawned particle satisfies [P]. *)
Hypothesis Hrespawn :
  forall (dt : float) (vel : vec3) (life : float) (p : TrailParticle) (pos' vel' : vec3),
    P p ->
    let p' := TrailParticle_update dt vel life p in
    P (mkTrailParticle pos' vel' (tp_color p') f1 (tp_scale p') (tp_lifeDecreaseRate p')).

Lemma rocket_trail_step_inv (dt : float) (f : Firework) (p : TrailParticle)
    (s : RandState) :
  P p ->
  P (fst ((let p := TrailParticle_update dt (fw_vel f) (F32.of_Z 1) p in
           if (tp_life p <=? f0)%f32 then respawnParticle f p else ret p) s)).
Proof.
  intros Hp. cbv zeta.
  destruct (F32.leb (tp_life (TrailParticle_update dt (fw_vel f) (F32.of_Z 1) p)) f0) eqn:E.
  - rewrite respawnParticle_eq. cbn [fst]. now apply Hrespawn.
  - rewrite ret_run. cbn [fst]. now apply Hkeep.
Qed.

Lemma ExplosionParticle_update_inv (dt : float) (e : ExplosionParticle)
    (s : RandState) :
  Forall P (ep_trailParticles e) ->
  Forall P (ep_trailParticles (fst (ExplosionParticle_update cfg dt e s))).
Proof.
  intros He. pose proof (ExplosionParticle_update_eq dt e s) as E. cbv zeta in E.
  rewrite E. cbn [fst ep_trailParticles].
  apply for_each_preserves; [|exact He].
  intros p s0 Hp.
  destruct (F32.leb (tp_life (TrailParticle_update dt (ep_vel e) (ep_life e) p)) f0) eqn:El.
  - rewrite respawnTrailParticle_eq. cbn [fst]. now apply Hrespawn.
  - rewrite ret_run. cbn [fst]. now apply Hkeep.
Qed.

Lemma ExplosionParticle_new_inv (pos vel : vec3) (color : vec4) (scale : float)
    (s : RandState) :
  Forall P (ep_trailParticles (fst (ExplosionParticle_new cfg pos vel color scale s))).
Proof.
  unfold ExplosionParticle_new. rewrite bind_run. cbn [fst ret ep_trailParticles].
  apply (for_count_inv (Forall P)); [|constructor].
  intros a s0 Ha. rewrite bind_run. cbn. apply Forall_app. split; [exact Ha|].
  constructor; [apply Hnew | constructor].
Qed.

Lemma Firework_reset_inv (f : Firework) (s : RandState) :
  all_trails P (fst (Firework_reset cfg f s)).
Proof.
  unfold all_trails. rewrite Firework_reset_explosionParticles.
  split; [|constructor].
  destruct (Firework_reset_eq f s) as (g & s1 & -> & _ & Ht & _).
  apply (for_count_inv (fun f => Forall P (fw_trailParticles f))).
  - intros a s' Ha. rewrite !bind_run. cbn. apply Forall_app. split; [exact Ha|].
    constructor; [apply Hnew | constructor].
  - rewrite Ht. constructor.
Qed.

Lemma Firework_update_inv (dt : float) (f : Firework) (s : RandState) :
  all_trails P f -> all_trails P (fst (Firework_update cfg dt f s)).
Proof.
  intros [Ht Hx]. destruct (fw_exploded f) eqn:He.
  - unfold Firework_update. rewrite He.
    destruct (update_explosionParticles_maps
                (fun e => Forall P (ep_trailParticles e))
                (fun e => Forall P (ep_trailParticles e)) dt)
      with (todo := fw_explosionParticles f) (done := @nil ExplosionParticle)
           (f := f) (s := s)
      as [(g & s0 & ->)|(es & Hes & _ & ->)].
    + intros p s0. apply ExplosionParticle_update_inv.
    + reflexivity.
    + constructor.
    + exact Hx.
    + apply Firework_reset_inv.
    + split; [exact Ht | exact Hes].
  - rewrite (Firework_update_rising dt f s He). cbv zeta.
    set (g := integrate_gravity cfg dt f).
    destruct (F32.ltb (y3 (fw_vel g)) f0).
    + destruct (creation_loop _ push_explosionParticle_new
                  (Z.to_nat (fw_numParticles f))
                  (fw_set_trailParticles (fw_set_exploded g true) [])
                  (snd (rocket_trail_loop dt g s))) as (new & -> & _ & Hall).
      unfold all_trails.
      cbn [fw_set_explosionParticles fw_set_trailParticles fw_set_exploded
           fw_trailParticles fw_explosionParticles].
      change (fw_explosionParticles g) with (fw_explosionParticles f).
      split; [constructor|]. apply Forall_app. split; [exact Hx|].
      eapply Forall_impl; [|exact Hall]. intros e (v & sc & s0 & ->).
      apply ExplosionParticle_new_inv.
    + unfold all_trails.
      cbn [fst fw_set_trailParticles fw_trailParticles fw_explosionParticles].
      change (fw_explosionParticles g) with (fw_explosionParticles f).
      split; [|exact Hx].
      unfold rocket_trail_loop. apply for_each_preserves; [|exact Ht].
      intros p s0. apply rocket_trail_step_inv.
Qed.

Lemma world_all_trails (dts : list float) (s : RandState) :
  let w := initFireworks cfg [] s in
  Forall (all_trails P) (fst (run cfg dts (fst w) (snd w))).
Proof.
  apply world_invariant.
  - apply Firework_reset_inv.
  - apply Firework_update_inv.
Qed.

End TrailInvariant.

Lemma one_is_positive : (f1 <=? f0)%f32 = false.
Proof. reflexivity. Qed.

(** X4: at every frame, every trail particle of the world, a rocket's or an
    explosion particle's, has life left: a particle whose life an update
    brings to zero or below is respawned in that same update, so none is
    ever drawn dead. *)
Theorem trail_particles_stay_alive (dts : list float) (s : RandState) :
  let w := initFireworks cfg [] s in
  Forall (all_trails alive) (fst (run cfg dts (fst w) (snd w))).
Proof.
  apply world_all_trails.
  - intros pos vel color s0. exact one_is_positive.
  - intros dt vel life p _ H. exact H.
  - intros dt vel life p pos' vel' _. exact one_is_positive.
Qed.

Lemma sampled_rate_in_range (r : Z) :
  0 <= r <= RAND_MAX -> 0 < RAND_MAX <= 2147483647 -> decay_range_ok cfg ->
  let rate :=
    rand_scaled r (TRAIL_MAX_DECREASE_RATE cfg - TRAIL_MIN_DECREASE_RATE cfg)%f32
      (TRAIL_MIN_DECREASE_RATE cfg) in
  (TRAIL_MIN_DECREASE_RATE cfg <=? rate)%f32 = true /\
  (rate <=? TRAIL_MAX_DECREASE_RATE cfg)%f32 = true.
Proof.
  intros Hr HR (Hpos & Hv & Hfin & Hsum). cbv zeta.
  pose proof (interval_scaled r RAND_MAX _ _ Hr HR Hpos Hv Hfin) as H.
  cbv zeta in H. destruct H as [H1 H2]. split; [exact H1|].
  change (TRAIL_MAX_DECREASE_RATE cfg - TRAIL_MIN_DECREASE_RATE cfg
          + TRAIL_MIN_DECREASE_RATE cfg)%f32
    with (SFadd 24 128 (TRAIL_MAX_DECREASE_RATE cfg - TRAIL_MIN_DECREASE_RATE cfg)%f32
            (TRAIL_MIN_DECREASE_RATE cfg)) in Hsum.
  rewrite Hsum in H2. exact H2.
Qed.

(** X5: when [rand()] stays within [0, RAND_MAX] and the decay range is one
    the sampling formula respects, every trail particle of the world has, at
    every frame, a decay rate between TRAIL_MIN_DECREASE_RATE and
    TRAIL_MAX_DECREASE_RATE: the rate is drawn once at construction and no
    update or respawn changes it. *)
Theorem decay_rates_stay_in_range (dts : list float) (s : RandState) :
  rand_in_range -> 0 < RAND_MAX <= 2147483647 -> decay_range_ok cfg ->
  let w := initFireworks cfg [] s in
  Forall (all_trails (rate_in_range cfg)) (fst (run cfg dts (fst w) (snd w))).
Proof.
  intros Hrand HR Hok. apply world_all_trails.
  - intros pos vel color s0. unfold rate_in_range, TrailParticle_new.
    cbn [tp_lifeDecreaseRate]. apply sampled_rate_in_range; [apply Hrand|exact HR|exact Hok].
  - intros dt vel life p Hp _. unfold rate_in_range in *.
    rewrite TrailParticle_update_eq. exact Hp.
  - intros dt vel life p pos' vel' Hp. cbv zeta. unfold rate_in_range in *.
    rewrite TrailParticle_update_eq. exact Hp.
Qed.

(** ** What reset() launches *)

(** X6: when [rand()] never returns a negative value and the sampling
    ranges are not empty, reset() leaves the firework ready for launch: a
    particle count in [MIN_PARTICLES, MAX_PARTICLES), a position on the
    ground (y = z = 0) at a whole abscissa in [0, WORLD_WIDTH), and a velocity
    with whole components in [MIN_INIT_X_VEL, MAX_INIT_X_VEL) and
    [MIN_INIT_Y_VEL, MAX_INIT_Y_VEL) and z = 0, whatever the firework was
    before. *)
Theorem reset_launch_state (f : Firework) (s : RandState) :
  rand_in_range -> launch_ranges_nonempty cfg ->
  launched cfg (fst (Firework_reset cfg f s)).
Proof.
  intros Hrand (Hn & Hw & Hx & Hy).
  destruct (Firework_reset_members f s)
    as (rn & rp & rx & ry & rr & rg & rb &
        ((sn & ->) & (sp & ->) & (sx & ->) & (sy & ->) & _) & En & Ep & Ev & _).
  unfold launched. rewrite En, Ep, Ev. split; [|split].
  - apply rem_offset_range; [apply Hrand | exact Hn].
  - eexists. split; [|reflexivity]. apply Z.rem_bound_pos; [apply Hrand | exact Hw].
  - eexists _, _. split; [|split; [|reflexivity]].
    + apply rem_offset_range; [apply Hrand | exact Hx].
    + apply rem_offset_range; [apply Hrand | exact Hy].
Qed.

Lemma colour_channel_range (r : Z) :
  0 <= r <= RAND_MAX -> 0 < RAND_MAX <= 2147483647 ->
  channel_in_range (rand_scaled r (F32.lit 3 4) (F32.lit 1 4)).
Proof.
  intros Hr HR.
  exact (interval_scaled r RAND_MAX (F32.lit 3 4) (F32.lit 1 4) Hr HR
           eq_refl eq_refl eq_refl).
Qed.

(** An update either ends in a reset or keeps the members that only
    reset() assigns. *)
Lemma Firework_update_members (dt : float) (f : Firework) (s : RandState) :
  let f' := fst (Firework_update cfg dt f s) in
  (exists g s0, f' = fst (Firework_reset cfg g s0)) \/
  (fw_color f' = fw_color f /\ fw_numParticles f' = fw_numParticles f /\
   fw_scale f' = fw_scale f).
Proof.
  cbv zeta. destruct (fw_exploded f) eqn:He.
  - unfold Firework_update. rewrite He.
    destruct (update_explosionParticles_maps (fun _ => True) (fun _ => True) dt)
      with (todo := fw_explosionParticles f) (done := @nil ExplosionParticle)
           (f := f) (s := s)
      as [H|(es & _ & _ & ->)]; try (now auto).
    rewrite Forall_forall. auto.
  - right. rewrite (Firework_update_rising dt f s He). cbv zeta.
    set (g := integrate_gravity cfg dt f).
    destruct (F32.ltb (y3 (fw_vel g)) f0).
    + destruct (creation_loop_count (Z.to_nat (fw_numParticles f))
                  (fw_set_trailParticles (fw_set_exploded g true) [])
                  (snd (rocket_trail_loop dt g s))) as (new & -> & _).
      repeat split.
    + repeat split.
Qed.

(** X7: when [rand()] stays within [0, RAND_MAX], every firework of the
    world has, at every frame, a colour whose red, green and blue lie between
    0.25 and 1 and whose alpha is 1: randomiseColor() keeps its documented
    range in single precision, and nothing but reset() touches the colour. *)
Theorem firework_colours_in_range (dts : list float) (s : RandState) :
  rand_in_range -> 0 < RAND_MAX <= 2147483647 ->
  let w := initFireworks cfg [] s in
  Forall (fun f => launch_colour (fw_color f)) (fst (run cfg dts (fst w) (snd w))).
Proof.
  intros Hrand HR.
  assert (Hreset : forall f s0, launch_colour (fw_color (fst (Firework_reset cfg f s0)))).
  { intros f s0.
    destruct (Firework_reset_members f s0)
      as (rn & rp & rx & ry & rr & rg & rb &
          (_ & _ & _ & _ & (sr & ->) & (sg & ->) & (sb & ->)) & _ & _ & _ & ->).
    unfold launch_colour. cbn [x4 y4 z4 w4].
    repeat split; apply colour_channel_range; try apply Hrand; exact HR. }
  apply (world_invariant (fun f => launch_colour (fw_color f))).
  - exact Hreset.
  - intros dt f s0 Hf.
    destruct (Firework_update_members dt f s0) as [(g & s1 & ->)|(-> & _)].
    + apply Hreset.
    + exact Hf.
Qed.

(** X8: when [rand()] never returns a negative value and
    MIN_PARTICLES < MAX_PARTICLES, every firework of the world has, at every
    frame, a particle count in [MIN_PARTICLES, MAX_PARTICLES), and that
    count is the number of its explosion particles once it has exploded. *)
Theorem explosion_size_in_range (dts : list float) (s : RandState) :
  rand_in_range -> MIN_PARTICLES cfg < MAX_PARTICLES cfg ->
  let w := initFireworks cfg [] s in
  Forall (fun f =>
            MIN_PARTICLES cfg <= fw_numParticles f < MAX_PARTICLES cfg /\
            (fw_exploded f = true ->
             length (fw_explosionParticles f) = Z.to_nat (fw_numParticles f)))
    (fst (run cfg dts (fst w) (snd w))).
Proof.
  intros Hrand Hlt.
  assert (Hreset : forall f s0,
             MIN_PARTICLES cfg <= fw_numParticles (fst (Firework_reset cfg f s0))
             < MAX_PARTICLES cfg).
  { intros f s0. rewrite Firework_reset_numParticles.
    apply rem_offset_range; [apply Hrand | exact Hlt]. }
  eapply Forall_impl;
    [|apply (world_invariant
               (fun f => (populated cfg f /\ same_life f) /\
                         MIN_PARTICLES cfg <= fw_numParticles f < MAX_PARTICLES cfg))].
  - intros f [[Hp _] Hn]. split; [exact Hn|]. intros He.
    unfold populated in Hp. rewrite He in Hp. apply Hp.
  - intros f s0. split; [apply Firework_reset_populated | apply Hreset].
  - intros dt f s0 [Hp Hn]. split; [now apply Firework_update_populated|].
    destruct (Firework_update_members dt f s0) as [(g & s1 & ->)|(_ & -> & _)].
    + apply Hreset.
    + exact Hn.
Qed.

(** ** The explosion phase without expiry *)

(** When no explosion particle expires, the loop runs to its end without a
    reset and leaves each slot updated in place. *)
Lemma update_explosionParticles_survives (dt : float) :
  forall (todo done : list ExplosionParticle) (f : Firework) (s : RandState),
    fw_explosionParticles f = done ++ todo ->
    Forall (fun p => (ep_life p - EXPLOSION_LIFE_DECREASE_RATE cfg * dt <=? f0)%f32 = false)
      todo ->
    exists es,
      Forall2 (fun p p' => exists s0, p' = fst (ExplosionParticle_update cfg dt p s0))
        todo es /\
      fst (update_explosionParticles cfg dt true done todo f s) =
      fw_set_explosionParticles f (done ++ es).
Proof.
  induction todo as [|p rest IH]; intros done f s Hf Hall.
  - exists []. split; [constructor|]. cbn [update_explosionParticles].
    rewrite ret_run. cbn [fst]. rewrite app_nil_r in *. rewrite <- Hf.
    symmetry. apply fw_set_explosionParticles_same.
  - inversion Hall as [|? ? Hp Hrest]; subst.
    cbn [update_explosionParticles]. rewrite bind_run.
    rewrite ExplosionParticle_update_life, Hp.
    set (p' := fst (ExplosionParticle_update cfg dt p s)).
    destruct (IH (done ++ [p']) (fw_set_explosionParticles f (done ++ p' :: rest))
                (snd (ExplosionParticle_update cfg dt p s)))
      as (es & Hes & E).
    + cbn. now rewrite <- app_assoc.
    + exact Hrest.
    + exists (p' :: es). split.
      * constructor; [now exists s | exact Hes].
      * rewrite E. cbn. now rewrite <- app_assoc.
Qed.

(** X9: an exploded firework none of whose explosion particles this update
    brings to life <= 0 stays exploded: the update does not reset it, leaves
    its position, velocity, colour, scale, particle count and (empty or not)
    trail collection as they were, and replaces every explosion particle, in
    place and in order, by its own update. *)
Theorem explosion_continues_without_expiry (dt : float) (f : Firework) (s : RandState) :
  fw_exploded f = true ->
  Forall (fun p => (ep_life p - EXPLOSION_LIFE_DECREASE_RATE cfg * dt <=? f0)%f32 = false)
    (fw_explosionParticles f) ->
  let f' := fst (Firework_update cfg dt f s) in
  fw_exploded f' = true /\
  fw_pos f' = fw_pos f /\ fw_vel f' = fw_vel f /\
  fw_color f' = fw_color f /\ fw_scale f' = fw_scale f /\
  fw_numParticles f' = fw_numParticles f /\
  fw_trailParticles f' = fw_trailParticles f /\
  Forall2 (fun p p' => exists s0, p' = fst (ExplosionParticle_update cfg dt p s0))
    (fw_explosionParticles f) (fw_explosionParticles f').
Proof.
  intros He Hall. cbv zeta. unfold Firework_update. rewrite He.
  destruct (update_explosionParticles_survives dt (fw_explosionParticles f) [] f s
              eq_refl Hall) as (es & Hes & ->).
  cbn [app fw_set_explosionParticles fw_exploded fw_pos fw_vel fw_color fw_scale
       fw_numParticles fw_trailParticles fw_explosionParticles].
  repeat split; try assumption.
Qed.

(** ** The circle mesh *)

Lemma store_app (pre l : list float) (j : nat) (v : float) :
  store (pre ++ l) (length pre + j) v = pre ++ store l j v.
Proof.
  induction pre as [|h pre IH]; cbn [app length store Nat.add]; [reflexivity|].
  now rewrite IH.
Qed.

Lemma store_at (k j : nat) (pre l : list float) (v : float) :
  k = (length pre + j)%nat -> store (pre ++ l) k v = pre ++ store l j v.
Proof. intros ->. apply store_app. Qed.

(** The loop writes the [n] vertices that follow the first [i] and touches
    nothing before or after them. *)
Lemma fill_circle_blocks (cosine sine : float) :
  forall (n i : nat) (x y : float) (pre mid post : list float),
    length pre = (i * 3)%nat -> length mid = (n * 3)%nat ->
    fill_circle n i cosine sine x y (pre ++ mid ++ post) =
    pre ++ circle_blocks n cosine sine x y ++ post.
Proof.
  induction n as [|k IH]; intros i x y pre mid post Hpre Hmid.
  - destruct mid; [reflexivity | discriminate].
  - destruct mid as [|a [|b [|c mid]]]; try discriminate.
    cbn [fill_circle circle_blocks]. cbv zeta.
    set (x' := (x * cosine - y * sine)%f32).
    set (y' := (x * sine + y * cosine)%f32).
    rewrite (store_at (i * 3) 0 pre) by lia.
    rewrite (store_at (i * 3 + 1) 1 pre) by lia.
    rewrite (store_at (i * 3 + 2) 2 pre) by lia.
    cbn [app store].
    change (pre ++ x' :: y' :: f0 :: mid ++ post)
      with (pre ++ [x'; y'; f0] ++ mid ++ post).
    rewrite app_assoc, IH.
    + rewrite <- app_assoc. reflexivity.
    + rewrite length_app. cbn [length]. unfold float in *. lia.
    + cbn [length] in Hmid. unfold float in *. lia.
Qed.

Lemma circle_blocks_length (cosine sine : float) :
  forall (n : nat) (x y : float),
    length (circle_blocks n cosine sine x y) = (n * 3)%nat.
Proof.
  induction n as [|k IH]; intros x y; cbn [circle_blocks length]; [reflexivity|].
  rewrite IH. lia.
Qed.

(** X10: on an array of (NUM_OUTER_CIRCLE_VERTICES + 1) * 3 floats,
    whatever it holds on entry, setupGLBuffers computes
    NUM_OUTER_CIRCLE_VERTICES vertices, each the previous one turned by theta
    starting from (1, 0), with z = 0, followed by the centre (0, 0, 0): every
    cell is written, the first vertex of the buffer lies on the rim and the
    centre is the last one. *)
Theorem setupGLBuffers_mesh (vertices : list float) :
  length vertices = ((Z.to_nat (NUM_OUTER_CIRCLE_VERTICES cfg) + 1) * 3)%nat ->
  setupGLBuffers_vertices cfg vertices =
  circle_blocks (Z.to_nat (NUM_OUTER_CIRCLE_VERTICES cfg))
    (cosf (theta cfg)) (sinf (theta cfg)) (F32.of_Z 1) (F32.of_Z 0)
  ++ [f0; f0; f0].
Proof.
  intros Hlen. unfold setupGLBuffers_vertices. cbv zeta.
  set (n := Z.to_nat (NUM_OUTER_CIRCLE_VERTICES cfg)) in *.
  rewrite Hlen.
  rewrite <- (firstn_skipn (n * 3) vertices).
  assert (Hpre : length (firstn (n * 3) vertices) = (n * 3)%nat)
    by (rewrite length_firstn; lia).
  assert (Hpost : length (skipn (n * 3) vertices) = 3%nat)
    by (rewrite length_skipn; lia).
  set (body := firstn (n * 3) vertices) in *.
  destruct (skipn (n * 3) vertices) as [|a [|b [|c [|d rest]]]]; try discriminate.
  rewrite (store_at ((n + 1) * 3 - 1) 2 body) by lia.
  rewrite (store_at ((n + 1) * 3 - 2) 1 body) by lia.
  rewrite (store_at ((n + 1) * 3 - 3) 0 body) by lia.
  cbn [store].
  change (body ++ [f0; f0; f0]) with ([] ++ body ++ [f0; f0; f0]).
  rewrite (fill_circle_blocks _ _ n 0 _ _ [] body [f0; f0; f0] eq_refl Hpre).
  reflexivity.
Qed.

(** ** The render pass *)

Lemma flat_map_singleton_length {A B : Type} (g : A -> B) (l : list A) :
  length (flat_map (fun a => [g a]) l) = length l.
Proof. induction l as [|a l IH]; cbn; [reflexivity | now rewrite IH]. Qed.

Lemma flat_map_constant_length {A B : Type} (g : A -> list B) (n : nat) (l : list A) :
  Forall (fun a => length (g a) = n) l ->
  length (flat_map g l) = (length l * n)%nat.
Proof.
  induction 1 as [|a l Ha _ IH]; cbn [flat_map length]; [reflexivity|].
  rewrite length_app, Ha, IH. lia.
Qed.

Lemma ExplosionParticle_render_length (e : ExplosionParticle) :
  length (ExplosionParticle_render cfg e) = S (length (ep_trailParticles e)).
Proof.
  unfold ExplosionParticle_render, TrailParticle_render.
  rewrite length_app, flat_map_singleton_length. cbn [length]. lia.
Qed.

Lemma Firework_render_populated (f : Firework) :
  populated cfg f ->
  length (Firework_render cfg f) =
  if fw_exploded f
  then (Z.to_nat (fw_numParticles f) * draws_per_particle cfg)%nat
  else draws_per_particle cfg.
Proof.
  unfold populated, Firework_render, draws_per_particle.
  destruct (fw_exploded f); cbn [negb].
  - intros (_ & Hn & Hall). rewrite <- Hn. apply flat_map_constant_length.
    eapply Forall_impl; [|exact Hall]. intros e He.
    now rewrite ExplosionParticle_render_length, He.
  - intros (Ht & _). unfold TrailParticle_render.
    rewrite length_app, flat_map_singleton_length, Ht. cbn [length]. lia.
Qed.

(** X11: at every frame, render issues for each firework of the world
    exactly NUM_TRAIL_PARTICLES + 1 draw calls while it rises (its trail,
    then the rocket) and fw_numParticles * (NUM_TRAIL_PARTICLES + 1) once it
    has exploded (each explosion particle after its own trail), and every
    draw call of the frame draws NUM_OUTER_CIRCLE_VERTICES + 1 vertices. *)
Theorem render_draw_calls (dts : list float) (s : RandState) :
  let w := initFireworks cfg [] s in
  let w' := fst (run cfg dts (fst w) (snd w)) in
  Forall (fun f =>
            length (Firework_render cfg f) =
            if fw_exploded f
            then (Z.to_nat (fw_numParticles f) * draws_per_particle cfg)%nat
            else draws_per_particle cfg) w' /\
  Forall (fun d => dc_count d = NUM_OUTER_CIRCLE_VERTICES cfg + 1) (render cfg w').
Proof.
  cbv zeta. split.
  - eapply Forall_impl;
      [|apply (world_invariant (fun f => populated cfg f /\ same_life f))].
    + intros f [H _]. now apply Firework_render_populated.
    + apply Firework_reset_populated.
    + intros dt f s0. apply Firework_update_populated.
  - unfold render. rewrite Forall_forall. intros d Hd.
    apply in_flat_map in Hd. destruct Hd as (f & _ & Hd).
    unfold Firework_render in Hd. destruct (negb (fw_exploded f)).
    + apply in_app_or in Hd. destruct Hd as [Hd|[<-|[]]]; [|reflexivity].
      apply in_flat_map in Hd. destruct Hd as (p & _ & [<-|[]]). reflexivity.
    + apply in_flat_map in Hd. destruct Hd as (e & _ & Hd).
      unfold ExplosionParticle_render in Hd.
      apply in_app_or in Hd. destruct Hd as [Hd|[<-|[]]]; [|reflexivity].
      apply in_flat_map in Hd. destruct Hd as (p & _ & [<-|[]]). reflexivity.
Qed.

Lemma render_length_bounds (lo hi : nat) (w : list Firework) :
  Forall (fun f => (lo <= length (Firework_render cfg f) <= hi)%nat) w ->
  (length w * lo <= length (render cfg w) <= length w * hi)%nat.
Proof.
  unfold render. induction 1 as [|f w Hf _ IH]; cbn [flat_map length]; [lia|].
  rewrite length_app. lia.
Qed.

(** X12: when [rand()] never returns a negative value and
    0 < MIN_PARTICLES < MAX_PARTICLES, a frame issues at least
    NUM_FIREWORKS * (NUM_TRAIL_PARTICLES + 1) draw calls and at most
    NUM_FIREWORKS * (MAX_PARTICLES - 1) * (NUM_TRAIL_PARTICLES + 1). *)
Theorem frame_draw_calls_bounded (dts : list float) (s : RandState) :
  rand_in_range -> 0 < MIN_PARTICLES cfg < MAX_PARTICLES cfg ->
  let w := initFireworks cfg [] s in
  let w' := fst (run cfg dts (fst w) (snd w)) in
  (Z.to_nat (NUM_FIREWORKS cfg) * draws_per_particle cfg
   <= length (render cfg w')
   <= Z.to_nat (NUM_FIREWORKS cfg)
      * (Z.to_nat (MAX_PARTICLES cfg - 1) * draws_per_particle cfg))%nat.
Proof.
  intros Hrand [Hmin Hlt]. cbv zeta.
  assert (Hreset : forall f s0,
             MIN_PARTICLES cfg <= fw_numParticles (fst (Firework_reset cfg f s0))
             < MAX_PARTICLES cfg).
  { intros f s0. rewrite Firework_reset_numParticles.
    apply rem_offset_range; [apply Hrand | exact Hlt]. }
  pose proof (run_length dts (fst (initFireworks cfg [] s)) (snd (initFireworks cfg [] s)))
    as Hlen.
  rewrite initFireworks_length in Hlen. cbn [length] in Hlen. rewrite Nat.add_0_r in Hlen.
  rewrite <- Hlen. apply render_length_bounds.
  eapply Forall_impl;
    [|apply (world_invariant
               (fun f => (populated cfg f /\ same_life f) /\
                         MIN_PARTICLES cfg <= fw_numParticles f < MAX_PARTICLES cfg))].
  - intros f [[Hp _] Hn]. rewrite (Firework_render_populated f Hp).
    destruct (fw_exploded f).
    + assert (1 <= Z.to_nat (fw_numParticles f) <= Z.to_nat (MAX_PARTICLES cfg - 1))%nat
        by lia.
      split; [nia|]. apply Nat.mul_le_mono_r. lia.
    + assert (1 <= Z.to_nat (MAX_PARTICLES cfg - 1))%nat by lia. split; [lia|nia].
  - intros f s0. split; [apply Firework_reset_populated | apply Hreset].
  - intros dt f s0 [Hp Hn]. split; [now apply Firework_update_populated|].
    destruct (Firework_update_members dt f s0) as [(g & s1 & ->)|(_ & -> & _)].
    + apply Hreset.
    + exact Hn.
Qed.

End Properties.

(** * Examples on concrete inputs *)

Lemma replay_rand_in_range (cycle : list Z) :
  Forall (fun r => 0 <= r <= 2147483647) cycle ->
  @rand_in_range (replay_libc cycle).
Proof.
  intros H s. cbn. destruct (nth_in_or_default (s mod length cycle) cycle 0) as [Hin | ->].
  - rewrite Forall_forall in H. apply H, Hin.
  - lia.
Qed.

Lemma demo_rand_in_range : @rand_in_range demo_libc.
Proof.
  apply replay_rand_in_range. unfold demo_cycle.
  repeat (constructor; [lia|]). constructor.
Qed.

(** C1 fails on the code: a trail particle at life 1 that decays at 4 per
    second, updated with dt = 0.25 against a source at life 1, ends with
    alpha 1 and life 0; an explosion particle at life 1 updated with the
    same dt ends with alpha 1 and life 0.875. *)
Lemma alpha_differs_from_life :
  (let p' := TrailParticle_update (F32.lit 1 4) origin f1 demo_trail in
   w4 (tp_color p') = F32.of_Z 1 /\
   tp_life p' = F32.of_Z 0 /\
   SFeqb (w4 (tp_color p')) (tp_life p') = false /\
   w4 (tp_color p') <> tp_life p') /\
  (let e' := fst (@ExplosionParticle_update demo_libc source_config (F32.lit 1 4)
                    (demo_spark f1) 0%nat) in
   w4 (ep_color e') = F32.of_Z 1 /\
   ep_life e' = F32.lit 7 8 /\
   SFeqb (w4 (ep_color e')) (ep_life e') = false /\
   w4 (ep_color e') <> ep_life e').
Proof.
  split; vm_compute; repeat split; try reflexivity; discriminate.
Qed.

Lemma probe_rand_in_range : @rand_in_range probe_libc.
Proof. exact demo_rand_in_range. Qed.

(** C5 at a concrete input: the rocket of [demo_rocket], rising at 400,
    explodes in one update of three seconds into its 37 explosion
    particles.  With the angle readable through the stand-ins for cosine
    and sine, the particles number 1 and 2 have the angles 7 theta and
    20 theta, the magnitudes 60 and 120 and the scales 1 and 2, each from
    draws of its own; theta is the binary32 number 8433149 * 2^-26, and 50
    steps of it make 2 pi to within 2e-6. *)
Lemma rising_to_exploded_witness :
  @rand_in_range probe_libc /\
  ranges_nonempty source_config /\
  fw_exploded demo_rocket = false /\
  let f' := fst (@Firework_update probe_libc source_config (F32.of_Z 3) demo_rocket 0%nat) in
  fw_exploded f' = true /\
  fw_trailParticles f' = [] /\
  length (fw_explosionParticles f') = 37%nat /\
  (exists e, nth_error (fw_explosionParticles f') 1 = Some e /\
     ep_pos e = fw_pos f' /\
     ep_vel e = mkVec3 (F32.of_Z 7 * theta source_config)%f32
                       (SFopp (F32.of_Z 7 * theta source_config)%f32) f0
                *s F32.of_Z 60 /\
     ep_scale e = F32.of_Z 1) /\
  (exists e, nth_error (fw_explosionParticles f') 2 = Some e /\
     ep_pos e = fw_pos f' /\
     ep_vel e = mkVec3 (F32.of_Z 20 * theta source_config)%f32
                       (SFopp (F32.of_Z 20 * theta source_config)%f32) f0
                *s F32.of_Z 120 /\
     ep_scale e = F32.of_Z 2) /\
  theta source_config = S754_finite false 8433149 (-26) /\
  (Rabs (50 * real (theta source_config) - 2 * PI) < 2 / 1000000)%R.
Proof.
  assert (H1 := probe_rand_in_range).
  assert (H2 : ranges_nonempty source_config) by (repeat split; reflexivity).
  assert (H3 : fw_exploded demo_rocket = false) by (vm_compute; reflexivity).
  split; [exact H1|]. split; [exact H2|]. split; [exact H3|].
  destruct (@rising_to_exploded probe_libc source_config (F32.of_Z 3) demo_rocket 0%nat
              H1 H2 H3) as (_ & _ & He & Hx & _ & Hth & Hpi).
  cbv zeta.
  assert (E : fw_exploded (fst (@Firework_update probe_libc source_config (F32.of_Z 3)
                                   demo_rocket 0%nat)) = true)
    by (rewrite He; vm_compute; reflexivity).
  destruct (Hx E) as (Ht & new & Hnew & Hlen & _ & Hnth & _).
  assert (Hold : fw_explosionParticles demo_rocket = []) by (vm_compute; reflexivity).
  rewrite Hold in Hnew. cbn [app] in Hnew.
  assert (Hn : Z.to_nat (fw_numParticles demo_rocket) = 37%nat) by (vm_compute; reflexivity).
  rewrite Hn in Hlen, Hnth.
  split; [exact E|]. split; [exact Ht|]. rewrite Hnew.
  split; [exact Hlen|].
  split.
  { destruct (Hnth 1%nat ltac:(lia)) as (e & Hn1 & Hp & _ & _ & Hv & _ & Hs & _).
    exists e. split; [exact Hn1|]. split; [exact Hp|].
    split; [rewrite Hv; vm_compute; reflexivity | rewrite Hs; vm_compute; reflexivity]. }
  split.
  { destruct (Hnth 2%nat ltac:(lia)) as (e & Hn2 & Hp & _ & _ & Hv & _ & Hs & _).
    exists e. split; [exact Hn2|]. split; [exact Hp|].
    split; [rewrite Hv; vm_compute; reflexivity | rewrite Hs; vm_compute; reflexivity]. }
  split; [rewrite Hth; vm_compute; reflexivity|].
  apply Hpi. cbn. lia.
Defined.

(** C6 at a concrete input: of the two explosion particles of
    [demo_burst] only the second expires, and the update resets. *)
Lemma single_expiry_resets_witness :
  fw_exploded demo_burst = true /\
  Exists (expires source_config dt_tenth) (fw_explosionParticles demo_burst) /\
  ~ Forall (expires source_config dt_tenth) (fw_explosionParticles demo_burst) /\
  0 < NUM_TRAIL_PARTICLES source_config /\
  let f' := fst (@Firework_update demo_libc source_config dt_tenth demo_burst 0%nat) in
  fw_exploded f' = false /\
  fw_explosionParticles f' = [] /\
  length (fw_trailParticles f') = 15%nat.
Proof.
  assert (H1 : fw_exploded demo_burst = true) by reflexivity.
  assert (H2 : Exists (expires source_config dt_tenth) (fw_explosionParticles demo_burst)).
  { right. left. vm_compute. reflexivity. }
  assert (H3 : 0 < NUM_TRAIL_PARTICLES source_config) by reflexivity.
  split; [exact H1|]. split; [exact H2|]. split.
  { intros H. inversion H as [|? ? Hp _]. vm_compute in Hp. discriminate. }
  split; [exact H3|].
  destruct (@single_expiry_resets demo_libc source_config dt_tenth demo_burst 0%nat
              H1 H2 H3) as (He & Hx & _ & Hlen & _).
  repeat split; assumption.
Defined.

(** C7 at a concrete input: the world of the source's ten fireworks after
    three frames of a tenth of a second. *)
Lemma mutual_exclusion_witness :
  @rand_in_range demo_libc /\
  0 < NUM_TRAIL_PARTICLES source_config /\
  0 < MIN_PARTICLES source_config /\
  let w := @initFireworks demo_libc source_config [] 0%nat in
  Forall one_configuration
    (fst (@run demo_libc source_config (repeat dt_tenth 3) (fst w) (snd w))).
Proof.
  assert (H1 := demo_rand_in_range).
  repeat (split; [assumption || reflexivity|]).
  exact (proj2 (@mutual_exclusion demo_libc source_config (repeat dt_tenth 3) 0%nat
                  H1 eq_refl eq_refl)).
Defined.

(** C8 fails on the code: the rocket of [demo_rocket] rises at +400 under
    gravity -200; after 20 updates of a tenth of a second its vertical
    velocity is zero, so it has been <= 0, and yet the firework has not
    exploded and has no explosion particle, although 37 are due. *)
Lemma no_explosion_after_20_steps :
  y3 (GRAVITY source_config) = F32.of_Z (-200) /\
  fw_exploded demo_rocket = false /\
  y3 (fw_vel demo_rocket) = F32.of_Z 400 /\
  fw_numParticles demo_rocket = 37 /\
  let g := fst (@Firework_run demo_libc source_config (repeat dt_tenth 20)
                  demo_rocket 0%nat) in
  (y3 (fw_vel g) <=? f0)%f32 = true /\
  fw_exploded g = false /\
  length (fw_explosionParticles g) = 0%nat /\
  length (fw_explosionParticles g) <> Z.to_nat (fw_numParticles demo_rocket).
Proof.
  vm_compute. repeat split; try reflexivity. discriminate.
Qed.

(** C8 as the code has it, at a concrete input: the same rocket explodes in
    the 21st update, into its 37 explosion particles. *)
Lemma apex_after_21_steps_witness :
  y3 (GRAVITY source_config) = F32.of_Z (-200) /\
  fw_exploded demo_rocket = false /\
  y3 (fw_vel demo_rocket) = F32.of_Z 400 /\
  fw_explosionParticles demo_rocket = [] /\
  let g := fst (@Firework_run demo_libc source_config (repeat dt_tenth 21)
                  demo_rocket 0%nat) in
  fw_exploded g = true /\ length (fw_explosionParticles g) = 37%nat.
Proof.
  assert (H1 : y3 (GRAVITY source_config) = F32.of_Z (-200)) by reflexivity.
  assert (H2 : fw_exploded demo_rocket = false) by (vm_compute; reflexivity).
  assert (H3 : y3 (fw_vel demo_rocket) = F32.of_Z 400) by (vm_compute; reflexivity).
  assert (H4 : fw_explosionParticles demo_rocket = []) by (vm_compute; reflexivity).
  repeat (split; [assumption|]).
  destruct (@apex_after_21_steps demo_libc source_config demo_rocket 0%nat H1 H2 H3 H4)
    as (_ & _ & He & Hlen).
  split; [exact He|]. etransitivity; [exact Hlen|]. vm_compute. reflexivity.
Defined.

(** C9 fails on the code: with the trail decay range inverted (6 to 3) and
    the explosion decay rate negative, [initFireworks] returns its ten
    fireworks as usual, each rising with its 15 trail particles, and an
    explosion particle updated under that configuration gains life. *)
Lemma malformed_config_is_accepted :
  (TRAIL_MAX_DECREASE_RATE malformed_config <? TRAIL_MIN_DECREASE_RATE malformed_config)%f32
    = true /\
  (EXPLOSION_LIFE_DECREASE_RATE malformed_config <=? f0)%f32 = true /\
  let w := fst (@initFireworks demo_libc malformed_config [] 0%nat) in
  length w = 10%nat /\
  Forall (fun f => fw_exploded f = false /\ length (fw_trailParticles f) = 15%nat) w /\
  let e' := fst (@ExplosionParticle_update demo_libc malformed_config dt_tenth
                   (demo_spark f1) 0%nat) in
  (ep_life (demo_spark f1) <? ep_life e')%f32 = true.
Proof.
  vm_compute. repeat split; try reflexivity.
  repeat (constructor; [split; reflexivity|]). constructor.
Qed.

(** C9 as the code has it, at a concrete input: the configuration with the
    inverted decay range and the negative explosion decay rate keeps the
    integer arithmetic defined, and [initFireworks] returns its ten
    fireworks. *)
Lemma initFireworks_unchecked_witness :
  @rand_in_range demo_libc /\
  int_arithmetic_defined malformed_config /\
  let w := fst (@initFireworks demo_libc malformed_config [] 0%nat) in
  length w = 10%nat /\
  Forall (fun f => fw_exploded f = false /\ length (fw_trailParticles f) = 15%nat) w /\
  ep_life (fst (@ExplosionParticle_update demo_libc malformed_config dt_tenth
                  (demo_spark f1) 0%nat)) =
  (f1 - F32.lit (-1) 2 * dt_tenth)%f32.
Proof.
  assert (H1 := demo_rand_in_range).
  assert (H2 : int_arithmetic_defined malformed_config).
  { split; [repeat split; discriminate|].
    repeat (constructor; [split; discriminate|]). constructor. }
  split; [exact H1|]. split; [exact H2|].
  destruct (@initFireworks_unchecked demo_libc malformed_config [] 0%nat H1 H2)
    as ((new & Hnew & Hlen & Hall) & Hlife).
  cbv zeta. rewrite Hnew. cbn [app].
  split; [exact Hlen|]. split; [|apply Hlife].
  eapply Forall_impl; [|exact Hall].
  intros f (He & _ & _ & _ & Ht & _). split; [exact He | exact Ht].
Defined.

(** C4 at a concrete input: [demo_trail] respawned by the rocket of
    [demo_rocket] (at x = 400, rising at 400) and by a spark at the origin,
    with the draws 1000000000 and 2000000000: the jitter is -5 on every
    axis, and the rocket's factor is 16489162 * 2^-24, about 0.9828. *)
Lemma respawn_rules_witness :
  @rand_in_range demo_libc /\
  0 < @RAND_MAX demo_libc <= 2147483647 /\
  numeric3 (fw_pos demo_rocket) /\
  fst (@rand demo_libc 5%nat) = 1000000000 /\
  fst (@rand demo_libc 6%nat) = 2000000000 /\
  let p1 := fst (@respawnParticle demo_libc demo_rocket demo_trail 5%nat) in
  let p2 := fst (@respawnTrailParticle demo_libc (demo_spark f1) demo_trail 5%nat) in
  tp_life p1 = F32.of_Z 1 /\
  tp_life p2 = F32.of_Z 1 /\
  tp_pos p1 = mkVec3 (F32.of_Z 395) (F32.of_Z (-5)) (F32.of_Z (-5)) /\
  tp_vel p1 = mkVec3 f0 (F32.of_Z 400 * S754_finite false 16489162 (-24))%f32 f0 /\
  tp_pos p2 = mkVec3 (F32.of_Z (-5)) (F32.of_Z (-5)) (F32.of_Z (-5)) /\
  within_five3 (fw_pos demo_rocket) (tp_pos p1).
Proof.
  assert (H1 := demo_rand_in_range).
  assert (H2 : 0 < @RAND_MAX demo_libc <= 2147483647) by (cbn; lia).
  assert (H3 : numeric3 (fw_pos demo_rocket)) by (vm_compute; repeat split; reflexivity).
  split; [exact H1|]. split; [exact H2|]. split; [exact H3|].
  split; [reflexivity|]. split; [reflexivity|].
  destruct (@respawn_rules demo_libc demo_rocket (demo_spark f1) demo_trail 5%nat H1 H2)
    as ((L1 & P1 & V1) & (L2 & P2 & _) & _ & _ & _ & _ & W1 & _).
  cbv zeta. split; [exact L1|]. split; [exact L2|].
  split; [rewrite P1; vm_compute; reflexivity|].
  split; [rewrite V1; vm_compute; reflexivity|].
  split; [rewrite P2; vm_compute; reflexivity|].
  exact (W1 H3).
Defined.

(** * The further properties on concrete inputs *)

Lemma demo_RAND_MAX : 0 < @RAND_MAX demo_libc <= 2147483647.
Proof. cbn. lia. Qed.

(** X3 at a concrete input: a rocket rising at 10 with a particle count of
    0 explodes into nothing in one update of a tenth of a second, and five
    more frames leave it as it is. *)
Lemma empty_explosion_never_resets_witness :
  fw_exploded demo_dud = false /\
  fw_explosionParticles demo_dud = [] /\
  fw_numParticles demo_dud <= 0 /\
  (y3 (fw_vel demo_dud +v GRAVITY source_config *s dt_tenth) <? f0)%f32 = true /\
  let r := @Firework_update demo_libc source_config dt_tenth demo_dud 0%nat in
  fw_exploded (fst r) = true /\
  fw_explosionParticles (fst r) = [] /\
  @Firework_run demo_libc source_config (repeat dt_tenth 5) (fst r) (snd r) = r.
Proof.
  assert (H1 : fw_exploded demo_dud = false) by reflexivity.
  assert (H2 : fw_explosionParticles demo_dud = []) by reflexivity.
  assert (H3 : fw_numParticles demo_dud <= 0) by (cbn; lia).
  assert (H4 : (y3 (fw_vel demo_dud +v GRAVITY source_config *s dt_tenth) <? f0)%f32 = true)
    by (vm_compute; reflexivity).
  split; [exact H1|]. split; [exact H2|]. split; [exact H3|]. split; [exact H4|].
  destruct (@empty_explosion_never_resets demo_libc source_config dt_tenth demo_dud 0%nat
              H1 H2 H3 H4) as (He & _ & Hx & Hrun).
  cbv zeta. split; [exact He|]. split; [exact Hx|]. apply Hrun.
Defined.

Lemma source_decay_range_ok : decay_range_ok source_config.
Proof. repeat split. Qed.

(** X5 at a concrete input: the world of the source's ten fireworks after
    three frames of a tenth of a second. *)
Lemma decay_rates_stay_in_range_witness :
  @rand_in_range demo_libc /\
  0 < @RAND_MAX demo_libc <= 2147483647 /\
  decay_range_ok source_config /\
  let w := @initFireworks demo_libc source_config [] 0%nat in
  Forall (all_trails (rate_in_range source_config))
    (fst (@run demo_libc source_config (repeat dt_tenth 3) (fst w) (snd w))).
Proof.
  assert (H1 := demo_rand_in_range).
  assert (H2 := demo_RAND_MAX).
  assert (H3 := source_decay_range_ok).
  repeat (split; [assumption|]).
  exact (@decay_rates_stay_in_range demo_libc source_config (repeat dt_tenth 3) 0%nat
           H1 H2 H3).
Defined.

Lemma source_launch_ranges_nonempty : launch_ranges_nonempty source_config.
Proof. repeat split. Qed.

(** X6 at a concrete input: a reset of the exploded [demo_burst]. *)
Lemma reset_launch_state_witness :
  @rand_in_range demo_libc /\
  launch_ranges_nonempty source_config /\
  launched source_config (fst (@Firework_reset demo_libc source_config demo_burst 0%nat)).
Proof.
  assert (H1 := demo_rand_in_range).
  assert (H2 := source_launch_ranges_nonempty).
  repeat (split; [assumption|]).
  exact (@reset_launch_state demo_libc source_config demo_burst 0%nat H1 H2).
Defined.

(** X7 at a concrete input: the world of the source's ten fireworks after
    three frames of a tenth of a second. *)
Lemma firework_colours_in_range_witness :
  @rand_in_range demo_libc /\
  0 < @RAND_MAX demo_libc <= 2147483647 /\
  let w := @initFireworks demo_libc source_config [] 0%nat in
  Forall (fun f => launch_colour (fw_color f))
    (fst (@run demo_libc source_config (repeat dt_tenth 3) (fst w) (snd w))).
Proof.
  assert (H1 := demo_rand_in_range).
  assert (H2 := demo_RAND_MAX).
  repeat (split; [assumption|]).
  exact (@firework_colours_in_range demo_libc source_config (repeat dt_tenth 3) 0%nat
           H1 H2).
Defined.

(** X8 at a concrete input: the same world, with the source's 30 to 49
    explosion particles per firework. *)
Lemma explosion_size_in_range_witness :
  @rand_in_range demo_libc /\
  MIN_PARTICLES source_config < MAX_PARTICLES source_config /\
  let w := @initFireworks demo_libc source_config [] 0%nat in
  Forall (fun f =>
            30 <= fw_numParticles f < 50 /\
            (fw_exploded f = true ->
             length (fw_explosionParticles f) = Z.to_nat (fw_numParticles f)))
    (fst (@run demo_libc source_config (repeat dt_tenth 3) (fst w) (snd w))).
Proof.
  assert (H1 := demo_rand_in_range).
  assert (H2 : MIN_PARTICLES source_config < MAX_PARTICLES source_config) by reflexivity.
  repeat (split; [assumption|]).
  exact (@explosion_size_in_range demo_libc source_config (repeat dt_tenth 3) 0%nat
           H1 H2).
Defined.

(** X9 at a concrete input: the two explosion particles of [demo_glow] are
    at full life, and an update of a tenth of a second leaves the firework
    exploded, each of the two particles updated in place. *)
Lemma explosion_continues_without_expiry_witness :
  fw_exploded demo_glow = true /\
  Forall (fun p => (ep_life p - EXPLOSION_LIFE_DECREASE_RATE source_config * dt_tenth
                    <=? f0)%f32 = false)
    (fw_explosionParticles demo_glow) /\
  let f' := fst (@Firework_update demo_libc source_config dt_tenth demo_glow 0%nat) in
  fw_exploded f' = true /\
  fw_pos f' = fw_pos demo_glow /\
  Forall2 (fun p p' => exists s0 : nat,
             p' = fst (@ExplosionParticle_update demo_libc source_config dt_tenth p s0))
    (fw_explosionParticles demo_glow) (fw_explosionParticles f').
Proof.
  assert (H1 : fw_exploded demo_glow = true) by reflexivity.
  assert (H2 : Forall (fun p => (ep_life p
                                 - EXPLOSION_LIFE_DECREASE_RATE source_config * dt_tenth
                                 <=? f0)%f32 = false)
                 (fw_explosionParticles demo_glow)).
  { repeat constructor. }
  split; [exact H1|]. split; [exact H2|].
  destruct (@explosion_continues_without_expiry demo_libc source_config dt_tenth demo_glow
              0%nat H1 H2) as (He & Hp & _ & _ & _ & _ & _ & Hx).
  cbv zeta. split; [exact He|]. split; [exact Hp|]. exact Hx.
Defined.

(** X10 at a concrete input: the source's array of 153 floats, filled
    with ones on entry. *)
Lemma setupGLBuffers_mesh_witness :
  length (repeat f1 153) = ((Z.to_nat (NUM_OUTER_CIRCLE_VERTICES source_config) + 1) * 3)%nat /\
  @setupGLBuffers_vertices demo_libc source_config (repeat f1 153) =
  circle_blocks 50 (@cosf demo_libc (theta source_config))
    (@sinf demo_libc (theta source_config)) (F32.of_Z 1) (F32.of_Z 0)
  ++ [f0; f0; f0].
Proof.
  assert (H : length (repeat f1 153)
              = ((Z.to_nat (NUM_OUTER_CIRCLE_VERTICES source_config) + 1) * 3)%nat)
    by reflexivity.
  split; [exact H|].
  exact (@setupGLBuffers_mesh demo_libc source_config (repeat f1 153) H).
Defined.

(** X12 at a concrete input: a frame of the source's world of ten
    fireworks issues between 10 * 16 and 10 * 49 * 16 draw calls. *)
Lemma frame_draw_calls_bounded_witness :
  @rand_in_range demo_libc /\
  0 < MIN_PARTICLES source_config < MAX_PARTICLES source_config /\
  let w := @initFireworks demo_libc source_config [] 0%nat in
  let w' := fst (@run demo_libc source_config (repeat dt_tenth 3) (fst w) (snd w)) in
  (10 * 16 <= length (render source_config w') <= 10 * (49 * 16))%nat.
Proof.
  assert (H1 := demo_rand_in_range).
  assert (H2 : 0 < MIN_PARTICLES source_config < MAX_PARTICLES source_config)
    by (split; reflexivity).
  repeat (split; [assumption|]).
  exact (@frame_draw_calls_bounded demo_libc source_config (repeat dt_tenth 3) 0%nat
           H1 H2).
Defined.
